(** * EthWeb3Manager: the faucet's payout pipeline

    A shallow embedding of [src/services/EthWeb3Manager.ts]: the claim
    record, the wallet state, the claim queue with its pending and history
    maps, the per-claim processing pipeline, the receipt watcher and the
    refill controller, followed by the properties the specification states
    about them and by further properties read off the code (lookups by
    session, polling, the refill guards, the tick, queue indices, restart).

    Conventions of the embedding:
    - a [bigint] and an integral [number] are both [Z]; counters, nonces
      and clock readings are taken to stay among the safe integers, where
      the arithmetic of numbers is that of [Z], and the one sum made on a
      number the node supplies, the legacy gas price, is rounded as a
      number is;
    - a [Date] is its time value in milliseconds ([getTime()]);
    - claims are mutable objects shared between the queue, the maps and the
      closures of the watchers, so the manager holds a store of claims and
      the containers hold references into it;
    - what an [await] receives from the node (a hash, a receipt, an error)
      is supplied by an explicit reply value, and an [async] method is run
      on its replies up to the point where it returns or parks a callback;
      what other callbacks do to the manager while a method is suspended
      is not interleaved with it;
    - [this.web3] is not a field of the manager: a call that finds it
      [null], between the ['end'] event of the provider and the restart,
      is a reply too (the exception of a build, a send or a poll, and
      [LoadThrows] for the wallet load, which is not [async]);
    - a callback that runs later (the two [then] handlers of the receipt
      watcher, a [setTimeout] callback) is a step of its own, and the
      manager records which of them are outstanding;
    - everything the code emits or calls on its collaborators is appended
      to an event log, in program order; listeners and collaborators are
      taken not to throw. *)

From Stdlib Require Import ZArith Ascii String DecimalString DecimalPos DecimalZ.
From stdpp Require Import gmap strings list.

Local Open Scope string_scope.
Local Open Scope list_scope.
Local Open Scope Z_scope.

(** ** JavaScript values used by the manager *)

Module Js.

(** What [catch(ex)] can receive in this file: an [Error] object (with its
    name and message), a thrown string, or a thrown object literal (the
    refill controller throws a receipt). *)
Record Error := mkError { name : string; message : string }.

Inductive Thrown :=
| ErrorObj (e : Error)
| ThrownStr (s : string)
| ThrownObj.

(** [Error.prototype.toString()] *)
Definition errorToString (e : Error) : string :=
  if decide (name e = "") then message e
  else if decide (message e = "") then name e
  else name e +:+ ": " +:+ message e.

(** [ex.toString()] *)
Definition toString (e : Thrown) : string :=
  match e with
  | ErrorObj e => errorToString e
  | ThrownStr s => s
  | ThrownObj => "[object Object]"
  end.

(** Reading a property of [undefined] or [null]. *)
Definition TypeError (what : string) : Thrown :=
  ErrorObj (mkError "TypeError" what).

(** [str.match(/literal/)] for a pattern without metacharacters:
    does [pat] occur in [s]? *)
Fixpoint is_prefix (pat s : string) : bool :=
  match pat, s with
  | EmptyString, _ => true
  | String a p, String b t => bool_decide (a = b) && is_prefix p t
  | String _ _, EmptyString => false
  end.

Fixpoint contains (pat s : string) : bool :=
  is_prefix pat s ||
  match s with
  | EmptyString => false
  | String _ t => contains pat t
  end.

(** [n.toString()] of a bigint: decimal digits, a leading minus sign for
    negatives. *)
Definition bigint_toString (z : Z) : string :=
  NilZero.string_of_int (Z.to_int z).

(** [BigInt(s)] for a string: the empty string is [0n], an optional sign
    followed by decimal digits is that integer, anything else is outside
    the decimal grammar ([None]; the literal forms [0x..], [0o..], [0b..]
    and surrounding white space are not modelled). *)
Definition BigInt (s : string) : option Z :=
  match s with
  | EmptyString => Some 0
  | String a s' =>
      if Ascii.eqb a "+"%char then Z.of_uint <$> NilZero.uint_of_string s'
      else Z.of_int <$> NilZero.int_of_string s
  end.

(** [Number.MAX_SAFE_INTEGER] *)
Definition MAX_SAFE_INTEGER : Z := 2 ^ 53 - 1.

(** The number nearest to the integer [z], as an integer: [z] itself
    below [2^53] in magnitude; from there on the magnitude is rounded to
    53 significant bits, a tie going to the even significand. Magnitudes
    that round to [Infinity] (from [2^1024] on) are not modelled. *)
Definition toNumber (z : Z) : Z :=
  let a := Z.abs z in
  if a <? 2 ^ 53 then z
  else
    let e := Z.log2 a - 52 in
    let q := Z.shiftr a e in
    let r := Z.land a (Z.ones e) in
    let half := 2 ^ (e - 1) in
    let q := if (half <? r) || ((r =? half) && Z.odd q) then q + 1 else q in
    Z.sgn z * Z.shiftl q e.

(** [parseInt(s)] for the decimal string of the integer [z]. *)
Definition parseInt (z : Z) : Z := toNumber z.

(** [a + b] on numbers whose values are integers: the exact sum,
    rounded. *)
Definition numAdd (a b : Z) : Z := toNumber (a + b).

(** Truthiness of a number and of a bigint. *)
Definition truthyZ (z : Z) : bool := negb (z =? 0).

(** Truthiness of an optional number ([undefined] is falsy). *)
Definition truthyOptZ (o : option Z) : bool :=
  match o with Some z => truthyZ z | None => false end.

End Js.

(** ** Data model *)

Inductive ClaimTxStatus := QUEUE | PROCESSING | PENDING | CONFIRMED | FAILED.

Inductive FaucetCoinType := NATIVE | ERC20.

Inductive FucetWalletState := UNKNOWN | NORMAL | LOWFUNDS | NOFUNDS | OFFLINE.

(** Modelled from the spec: [FaucetStatusLevel] is declared in
    [FaucetStatus], outside this file; the status publisher uses the two
    severities the spec names. *)
Inductive FaucetStatusLevel := WARNING | ERROR.

#[global] Instance ClaimTxStatus_eq_dec : EqDecision ClaimTxStatus.
Proof. solve_decision. Defined.
#[global] Instance FaucetCoinType_eq_dec : EqDecision FaucetCoinType.
Proof. solve_decision. Defined.
#[global] Instance FucetWalletState_eq_dec : EqDecision FucetWalletState.
Proof. solve_decision. Defined.

Record WalletState := mkWallet {
  ready : bool;
  nonce : Z;
  balance : Z;
  nativeBalance : Z;
}.

(** [interface IQueuedClaimTx] *)
Record IQueuedClaimTx := mkQueued {
  q_time : Z;
  q_target : string;
  q_amount : string;
  q_session : string;
}.

(** [class ClaimTx]; a field the constructor leaves unassigned is [None]. *)
Record ClaimTx := mkClaim {
  queueIdx : option Z;
  status : ClaimTxStatus;
  time : Z;
  target : string;
  amount : Z;
  session : string;
  c_nonce : option Z;
  txhex : option string;
  txhash : option string;
  txblock : option Z;
  txfee : Z;
  retryCount : Z;
  failReason : option string;
}.

(** [new ClaimTx(target, amount, sessId, date?)]; [now] is what [new Date()]
    reads from the clock. The optional [date] is tested for truthiness. *)
Definition newClaimTx (now : Z) (target : string) (amount : Z)
    (sessId : string) (date : option Z) : ClaimTx :=
  {| queueIdx := None;
     status := QUEUE;
     time := if Js.truthyOptZ date then default 0 date else now;
     target := target;
     amount := amount;
     session := sessId;
     c_nonce := None; txhex := None; txhash := None; txblock := None;
     txfee := 0;
     retryCount := 0;
     failReason := None |}.

(** [ClaimTx.serialize()] *)
Definition serialize (c : ClaimTx) : IQueuedClaimTx :=
  {| q_time := time c;
     q_target := target c;
     q_amount := Js.bigint_toString (amount c);
     q_session := session c |}.

(** The constructor's restore step for one stored entry:
    [new ClaimTx(claimTx.target, BigInt(claimTx.amount), claimTx.session,
    claimTx.time)]; [BigInt] throws on a malformed amount ([None]). *)
Definition restoreClaimTx (now : Z) (q : IQueuedClaimTx) : option ClaimTx :=
  a ← Js.BigInt (q_amount q);
  Some (newClaimTx now (q_target q) a (q_session q) (Some (q_time q))).

(** ** Configuration *)

(** An option that is a string, or a boolean. *)
Inductive StrOrBool := OptStr (s : string) | OptBool (b : bool).

(** Modelled from the spec: the type of [faucetConfig.ethRefillContract]
    is declared in [FaucetConfig], outside this file; these are the options
    the spec lists and the manager reads. A numeric option is an integer;
    an option that may be left out is [None] when it is. *)
Record RefillContractConfig := mkRefillCfg {
  contract : string;
  triggerBalance : Z;
  overflowBalance : option Z;
  cooldownTime : option Z;
  requestAmount : Z;
  allowanceFn : option string;
  allowanceFnArgs : option (list string);
  checkContractBalance : StrOrBool;
  contractDustBalance : option Z;
  withdrawFn : string;
  withdrawFnArgs : option (list string);
  depositFn : option string;
  depositFnArgs : option (list string);
  withdrawGasLimit : option Z;
}.

(** Modelled from the spec: the type of [faucetConfig] is declared in
    [FaucetConfig], outside this file; these are the options the manager
    reads. Every definition below takes the configuration as a parameter. *)
Record FaucetConfig := mkConfig {
  ethLegacyTx : bool;
  ethTxGasLimit : Z;
  ethTxMaxFee : Z;
  ethTxPrioFee : Z;
  ethMaxPending : Z;
  ethQueueNoFunds : bool;
  spareFundsAmount : Z;
  noFundsBalance : Z;
  lowFundsBalance : Z;
  lowFundsWarning : StrOrBool;
  noFundsError : StrOrBool;
  rpcConnectionError : StrOrBool;
  faucetCoinType : FaucetCoinType;
  faucetCoinContract : string;
  ethRefillContract : option RefillContractConfig;
}.

(** [interface FaucetTokenState]; the two derivers are library calls, see
    [Libs] below. *)
Record FaucetTokenState := mkToken {
  address : string;
  decimals : Z;
}.

(** ** Transactions and what the node answers *)

Inductive TxFee :=
| LegacyFee (gasPrice : Z)
| FeeMarket (maxPriorityFeePerGas maxFeePerGas : Z).

(** The [txData] handed to [fromTxData]. *)
Record TxData := mkTx {
  tx_nonce : Z;
  tx_gasLimit : Z;
  tx_fee : TxFee;
  tx_to : string;
  tx_value : Z;
  tx_data : string;
}.

(** An argument of a vault-contract call after placeholder substitution. *)
Inductive CallArg :=
| ArgStr (s : string)
| ArgAmount (a : Z)
| ArgToken (t : option string).

(** The codec and signing library calls, treated as functions of their
    arguments: signing and serialising a transaction with the wallet key,
    the ERC-20 [transfer(addr, amount)] calldata, the calldata of a vault
    method. *)
Record Libs := mkLibs {
  signTx : TxData -> string;
  getTransferData : string -> Z -> string;
  encodeABI : string -> list CallArg -> string;
}.

(** [interface TransactionReceipt], the fields the manager reads. *)
Record TransactionReceipt := mkReceipt {
  blockNumber : Z;
  effectiveGasPrice : Z;
  gasUsed : Z;
  rc_status : bool;
}.

(** How a receipt promise settles. *)
Inductive Settled :=
| Resolved (receipt : TransactionReceipt)
| Rejected (e : Js.Thrown).

(** What [buildEthTx] meets: the gas price the node names (a decimal
    string, read in legacy mode only), or an exception from the price
    query or the transaction library (which refuses a number that is
    negative or not a safe integer). *)
Inductive BuildReply :=
| BuildGasPrice (gasPrice : Z)
| BuildThrows (e : Js.Error).

(** What [sendTransaction] awaits: the transaction hash, or the error
    raised before a hash was announced. *)
Inductive SendReply :=
| SendHash (hash : string)
| SendThrows (e : Js.Error).

(** How a call of [loadWalletState] goes, with the clock. The method is
    not [async]: it sets [lastWalletRefresh] and builds the [Promise.all]
    of its reads in the caller's turn, so when [this.web3] is [null]
    (the provider's ['end'] handler clears it until [startWeb3] runs
    again two seconds later) the dereference [this.web3.eth] throws a
    [TypeError] to the caller, before a read of the wallet is issued and
    before a promise exists: [LoadThrows]. Otherwise the reads return:
    [LoadOk] when the [Promise.all] (or its retry without ["pending"])
    is fulfilled, [LoadErr] when it is rejected. The chain parameters
    ([initChainCommon]) are not part of the model. *)
Inductive LoadResult :=
| LoadOk (nativeBal : Z) (txCount : Z) (tokenBal : Z)
| LoadErr (e : Js.Thrown)
| LoadThrows (e : Js.Thrown).

Record LoadReply := mkLoad {
  load_now : Z;
  load_result : LoadResult;
}.

(** The exception [loadWalletState()] throws at its caller, if it does. *)
Definition loadThrows (reply : LoadReply) : option Js.Thrown :=
  match load_result reply with
  | LoadThrows e => Some e
  | _ => None
  end.

(** One pass of the submission loop: the build, the send (read when the
    build succeeded) and the reconciliation (read when either failed). *)
Record AttemptReply := mkAttempt {
  at_build : BuildReply;
  at_send : SendReply;
  at_reload : LoadReply;
}.

(** One [getTransactionReceipt] poll. *)
Inductive PollReply :=
| PollNull
| PollReceipt (receipt : TransactionReceipt)
| PollThrows (e : Js.Thrown).

(** ** Events

    The calls the manager makes on its collaborators and runtime, in
    program order. Log texts are not kept (they embed floating-point
    formatted amounts); the status message is kept as the template chosen
    before placeholder substitution. *)

(** The levels of [FaucetLogLevel] the manager logs at. *)
Inductive LogLevel := LogInfo | LogWarning | LogError.

Inductive Event :=
| EvEmit (claim : nat) (event : string)
| EvLog (level : LogLevel)
| EvSetFaucetStatus (key : string) (msg : option string)
    (level : option FaucetStatusLevel)
| EvSign (tx : TxData)
| EvSend (rawtx : string)
| EvSleep (ms : Z)
| EvLoadWallet
| EvPollReceipt (txhash : option string)
| EvCall (node_method : string)
| EvStats (claim : nat)
| EvAddQueuedClaimTx (entry : IQueuedClaimTx)
| EvRemoveQueuedClaimTx (session : string).

(** A callback registered with [setTimeout] and not yet run: the history
    eviction of a claim. *)
Record Timer := mkTimer {
  delay : Z;
  evicts : nat;
}.

(** ** The manager

    [claims] is the object store: a claim reference is an index into it,
    and the queue, the two maps and the closures hold references.
    A map key is [None] where the code indexes with an unassigned field
    (the property named [undefined]).
    [receiptWatchers] are the claims whose receipt promise has not
    settled, [historyJobs] the claims whose watcher has run its first
    callback and not yet the second. *)
Record Manager := mkManager {
  claims : list ClaimTx;
  walletState : option WalletState;
  tokenState : option FaucetTokenState;
  claimTxQueue : list nat;
  pendingTxQueue : gmap (option string) nat;
  historyTxDict : gmap (option Z) nat;
  lastWalletRefresh : option Z;
  queueProcessing : bool;
  lastClaimTxIdx : Z;
  lastProcessedClaimTxIdx : option Z;
  lastWalletRefill : option Z;
  lastWalletRefillTry : option Z;
  walletRefilling : bool;
  queueStore : list IQueuedClaimTx;
  receiptWatchers : list nat;
  historyJobs : list nat;
  timers : list Timer;
  events : list Event;
}.

(** ** Field assignments

    [set_f v x] is [x] after the assignment [x.f = v]. *)


Definition set_nonce (v : Z) (w : WalletState) : WalletState :=
  {| ready := ready w; nonce := v; balance := balance w;
     nativeBalance := nativeBalance w |}.

Definition set_balance (v : Z) (w : WalletState) : WalletState :=
  {| ready := ready w; nonce := nonce w; balance := v;
     nativeBalance := nativeBalance w |}.

Definition set_nativeBalance (v : Z) (w : WalletState) : WalletState :=
  {| ready := ready w; nonce := nonce w; balance := balance w;
     nativeBalance := v |}.

Definition set_queueIdx (v : option Z) (c : ClaimTx) : ClaimTx :=
  {| queueIdx := v; status := status c; time := time c; target := target c;
     amount := amount c; session := session c; c_nonce := c_nonce c;
     txhex := txhex c; txhash := txhash c; txblock := txblock c;
     txfee := txfee c; retryCount := retryCount c;
     failReason := failReason c |}.

Definition set_status (v : ClaimTxStatus) (c : ClaimTx) : ClaimTx :=
  {| queueIdx := queueIdx c; status := v; time := time c; target := target c;
     amount := amount c; session := session c; c_nonce := c_nonce c;
     txhex := txhex c; txhash := txhash c; txblock := txblock c;
     txfee := txfee c; retryCount := retryCount c;
     failReason := failReason c |}.

Definition set_c_nonce (v : option Z) (c : ClaimTx) : ClaimTx :=
  {| queueIdx := queueIdx c; status := status c; time := time c;
     target := target c; amount := amount c; session := session c;
     c_nonce := v; txhex := txhex c; txhash := txhash c;
     txblock := txblock c; txfee := txfee c; retryCount := retryCount c;
     failReason := failReason c |}.

Definition set_txhex (v : option string) (c : ClaimTx) : ClaimTx :=
  {| queueIdx := queueIdx c; status := status c; time := time c;
     target := target c; amount := amount c; session := session c;
     c_nonce := c_nonce c; txhex := v; txhash := txhash c;
     txblock := txblock c; txfee := txfee c; retryCount := retryCount c;
     failReason := failReason c |}.

Definition set_txhash (v : option string) (c : ClaimTx) : ClaimTx :=
  {| queueIdx := queueIdx c; status := status c; time := time c;
     target := target c; amount := amount c; session := session c;
     c_nonce := c_nonce c; txhex := txhex c; txhash := v;
     txblock := txblock c; txfee := txfee c; retryCount := retryCount c;
     failReason := failReason c |}.

Definition set_txblock (v : option Z) (c : ClaimTx) : ClaimTx :=
  {| queueIdx := queueIdx c; status := status c; time := time c;
     target := target c; amount := amount c; session := session c;
     c_nonce := c_nonce c; txhex := txhex c; txhash := txhash c;
     txblock := v; txfee := txfee c; retryCount := retryCount c;
     failReason := failReason c |}.

Definition set_txfee (v : Z) (c : ClaimTx) : ClaimTx :=
  {| queueIdx := queueIdx c; status := status c; time := time c;
     target := target c; amount := amount c; session := session c;
     c_nonce := c_nonce c; txhex := txhex c; txhash := txhash c;
     txblock := txblock c; txfee := v; retryCount := retryCount c;
     failReason := failReason c |}.

Definition set_failReason (v : option string) (c : ClaimTx) : ClaimTx :=
  {| queueIdx := queueIdx c; status := status c; time := time c;
     target := target c; amount := amount c; session := session c;
     c_nonce := c_nonce c; txhex := txhex c; txhash := txhash c;
     txblock := txblock c; txfee := txfee c; retryCount := retryCount c;
     failReason := v |}.

Definition set_claims (v : list ClaimTx) (m : Manager) : Manager :=
  {| claims := v; walletState := walletState m; tokenState := tokenState m;
     claimTxQueue := claimTxQueue m; pendingTxQueue := pendingTxQueue m;
     historyTxDict := historyTxDict m;
     lastWalletRefresh := lastWalletRefresh m;
     queueProcessing := queueProcessing m;
     lastClaimTxIdx := lastClaimTxIdx m;
     lastProcessedClaimTxIdx := lastProcessedClaimTxIdx m;
     lastWalletRefill := lastWalletRefill m;
     lastWalletRefillTry := lastWalletRefillTry m;
     walletRefilling := walletRefilling m; queueStore := queueStore m;
     receiptWatchers := receiptWatchers m; historyJobs := historyJobs m;
     timers := timers m; events := events m |}.

Definition set_walletState (v : option WalletState) (m : Manager) : Manager :=
  {| claims := claims m; walletState := v; tokenState := tokenState m;
     claimTxQueue := claimTxQueue m; pendingTxQueue := pendingTxQueue m;
     historyTxDict := historyTxDict m;
     lastWalletRefresh := lastWalletRefresh m;
     queueProcessing := queueProcessing m;
     lastClaimTxIdx := lastClaimTxIdx m;
     lastProcessedClaimTxIdx := lastProcessedClaimTxIdx m;
     lastWalletRefill := lastWalletRefill m;
     lastWalletRefillTry := lastWalletRefillTry m;
     walletRefilling := walletRefilling m; queueStore := queueStore m;
     receiptWatchers := receiptWatchers m; historyJobs := historyJobs m;
     timers := timers m; events := events m |}.

Definition set_tokenState (v : option FaucetTokenState) (m : Manager) : Manager :=
  {| claims := claims m; walletState := walletState m; tokenState := v;
     claimTxQueue := claimTxQueue m; pendingTxQueue := pendingTxQueue m;
     historyTxDict := historyTxDict m;
     lastWalletRefresh := lastWalletRefresh m;
     queueProcessing := queueProcessing m;
     lastClaimTxIdx := lastClaimTxIdx m;
     lastProcessedClaimTxIdx := lastProcessedClaimTxIdx m;
     lastWalletRefill := lastWalletRefill m;
     lastWalletRefillTry := lastWalletRefillTry m;
     walletRefilling := walletRefilling m; queueStore := queueStore m;
     receiptWatchers := receiptWatchers m; historyJobs := historyJobs m;
     timers := timers m; events := events m |}.

Definition set_claimTxQueue (v : list nat) (m : Manager) : Manager :=
  {| claims := claims m; walletState := walletState m;
     tokenState := tokenState m; claimTxQueue := v;
     pendingTxQueue := pendingTxQueue m; historyTxDict := historyTxDict m;
     lastWalletRefresh := lastWalletRefresh m;
     queueProcessing := queueProcessing m;
     lastClaimTxIdx := lastClaimTxIdx m;
     lastProcessedClaimTxIdx := lastProcessedClaimTxIdx m;
     lastWalletRefill := lastWalletRefill m;
     lastWalletRefillTry := lastWalletRefillTry m;
     walletRefilling := walletRefilling m; queueStore := queueStore m;
     receiptWatchers := receiptWatchers m; historyJobs := historyJobs m;
     timers := timers m; events := events m |}.

Definition set_pendingTxQueue (v : gmap (option string) nat) (m : Manager) : Manager :=
  {| claims := claims m; walletState := walletState m;
     tokenState := tokenState m; claimTxQueue := claimTxQueue m;
     pendingTxQueue := v; historyTxDict := historyTxDict m;
     lastWalletRefresh := lastWalletRefresh m;
     queueProcessing := queueProcessing m;
     lastClaimTxIdx := lastClaimTxIdx m;
     lastProcessedClaimTxIdx := lastProcessedClaimTxIdx m;
     lastWalletRefill := lastWalletRefill m;
     lastWalletRefillTry := lastWalletRefillTry m;
     walletRefilling := walletRefilling m; queueStore := queueStore m;
     receiptWatchers := receiptWatchers m; historyJobs := historyJobs m;
     timers := timers m; events := events m |}.

Definition set_historyTxDict (v : gmap (option Z) nat) (m : Manager) : Manager :=
  {| claims := claims m; walletState := walletState m;
     tokenState := tokenState m; claimTxQueue := claimTxQueue m;
     pendingTxQueue := pendingTxQueue m; historyTxDict := v;
     lastWalletRefresh := lastWalletRefresh m;
     queueProcessing := queueProcessing m;
     lastClaimTxIdx := lastClaimTxIdx m;
     lastProcessedClaimTxIdx := lastProcessedClaimTxIdx m;
     lastWalletRefill := lastWalletRefill m;
     lastWalletRefillTry := lastWalletRefillTry m;
     walletRefilling := walletRefilling m; queueStore := queueStore m;
     receiptWatchers := receiptWatchers m; historyJobs := historyJobs m;
     timers := timers m; events := events m |}.

Definition set_lastWalletRefresh (v : option Z) (m : Manager) : Manager :=
  {| claims := claims m; walletState := walletState m;
     tokenState := tokenState m; claimTxQueue := claimTxQueue m;
     pendingTxQueue := pendingTxQueue m; historyTxDict := historyTxDict m;
     lastWalletRefresh := v; queueProcessing := queueProcessing m;
     lastClaimTxIdx := lastClaimTxIdx m;
     lastProcessedClaimTxIdx := lastProcessedClaimTxIdx m;
     lastWalletRefill := lastWalletRefill m;
     lastWalletRefillTry := lastWalletRefillTry m;
     walletRefilling := walletRefilling m; queueStore := queueStore m;
     receiptWatchers := receiptWatchers m; historyJobs := historyJobs m;
     timers := timers m; events := events m |}.

Definition set_queueProcessing (v : bool) (m : Manager) : Manager :=
  {| claims := claims m; walletState := walletState m;
     tokenState := tokenState m; claimTxQueue := claimTxQueue m;
     pendingTxQueue := pendingTxQueue m; historyTxDict := historyTxDict m;
     lastWalletRefresh := lastWalletRefresh m; queueProcessing := v;
     lastClaimTxIdx := lastClaimTxIdx m;
     lastProcessedClaimTxIdx := lastProcessedClaimTxIdx m;
     lastWalletRefill := lastWalletRefill m;
     lastWalletRefillTry := lastWalletRefillTry m;
     walletRefilling := walletRefilling m; queueStore := queueStore m;
     receiptWatchers := receiptWatchers m; historyJobs := historyJobs m;
     timers := timers m; events := events m |}.

Definition set_lastClaimTxIdx (v : Z) (m : Manager) : Manager :=
  {| claims := claims m; walletState := walletState m;
     tokenState := tokenState m; claimTxQueue := claimTxQueue m;
     pendingTxQueue := pendingTxQueue m; historyTxDict := historyTxDict m;
     lastWalletRefresh := lastWalletRefresh m;
     queueProcessing := queueProcessing m; lastClaimTxIdx := v;
     lastProcessedClaimTxIdx := lastProcessedClaimTxIdx m;
     lastWalletRefill := lastWalletRefill m;
     lastWalletRefillTry := lastWalletRefillTry m;
     walletRefilling := walletRefilling m; queueStore := queueStore m;
     receiptWatchers := receiptWatchers m; historyJobs := historyJobs m;
     timers := timers m; events := events m |}.

Definition set_lastProcessedClaimTxIdx (v : option Z) (m : Manager) : Manager :=
  {| claims := claims m; walletState := walletState m;
     tokenState := tokenState m; claimTxQueue := claimTxQueue m;
     pendingTxQueue := pendingTxQueue m; historyTxDict := historyTxDict m;
     lastWalletRefresh := lastWalletRefresh m;
     queueProcessing := queueProcessing m;
     lastClaimTxIdx := lastClaimTxIdx m; lastProcessedClaimTxIdx := v;
     lastWalletRefill := lastWalletRefill m;
     lastWalletRefillTry := lastWalletRefillTry m;
     walletRefilling := walletRefilling m; queueStore := queueStore m;
     receiptWatchers := receiptWatchers m; historyJobs := historyJobs m;
     timers := timers m; events := events m |}.

Definition set_lastWalletRefill (v : option Z) (m : Manager) : Manager :=
  {| claims := claims m; walletState := walletState m;
     tokenState := tokenState m; claimTxQueue := claimTxQueue m;
     pendingTxQueue := pendingTxQueue m; historyTxDict := historyTxDict m;
     lastWalletRefresh := lastWalletRefresh m;
     queueProcessing := queueProcessing m;
     lastClaimTxIdx := lastClaimTxIdx m;
     lastProcessedClaimTxIdx := lastProcessedClaimTxIdx m;
     lastWalletRefill := v; lastWalletRefillTry := lastWalletRefillTry m;
     walletRefilling := walletRefilling m; queueStore := queueStore m;
     receiptWatchers := receiptWatchers m; historyJobs := historyJobs m;
     timers := timers m; events := events m |}.

Definition set_lastWalletRefillTry (v : option Z) (m : Manager) : Manager :=
  {| claims := claims m; walletState := walletState m;
     tokenState := tokenState m; claimTxQueue := claimTxQueue m;
     pendingTxQueue := pendingTxQueue m; historyTxDict := historyTxDict m;
     lastWalletRefresh := lastWalletRefresh m;
     queueProcessing := queueProcessing m;
     lastClaimTxIdx := lastClaimTxIdx m;
     lastProcessedClaimTxIdx := lastProcessedClaimTxIdx m;
     lastWalletRefill := lastWalletRefill m; lastWalletRefillTry := v;
     walletRefilling := walletRefilling m; queueStore := queueStore m;
     receiptWatchers := receiptWatchers m; historyJobs := historyJobs m;
     timers := timers m; events := events m |}.

Definition set_walletRefilling (v : bool) (m : Manager) : Manager :=
  {| claims := claims m; walletState := walletState m;
     tokenState := tokenState m; claimTxQueue := claimTxQueue m;
     pendingTxQueue := pendingTxQueue m; historyTxDict := historyTxDict m;
     lastWalletRefresh := lastWalletRefresh m;
     queueProcessing := queueProcessing m;
     lastClaimTxIdx := lastClaimTxIdx m;
     lastProcessedClaimTxIdx := lastProcessedClaimTxIdx m;
     lastWalletRefill := lastWalletRefill m;
     lastWalletRefillTry := lastWalletRefillTry m; walletRefilling := v;
     queueStore := queueStore m; receiptWatchers := receiptWatchers m;
     historyJobs := historyJobs m; timers := timers m; events := events m |}.

Definition set_queueStore (v : list IQueuedClaimTx) (m : Manager) : Manager :=
  {| claims := claims m; walletState := walletState m;
     tokenState := tokenState m; claimTxQueue := claimTxQueue m;
     pendingTxQueue := pendingTxQueue m; historyTxDict := historyTxDict m;
     lastWalletRefresh := lastWalletRefresh m;
     queueProcessing := queueProcessing m;
     lastClaimTxIdx := lastClaimTxIdx m;
     lastProcessedClaimTxIdx := lastProcessedClaimTxIdx m;
     lastWalletRefill := lastWalletRefill m;
     lastWalletRefillTry := lastWalletRefillTry m;
     walletRefilling := walletRefilling m; queueStore := v;
     receiptWatchers := receiptWatchers m; historyJobs := historyJobs m;
     timers := timers m; events := events m |}.

Definition set_receiptWatchers (v : list nat) (m : Manager) : Manager :=
  {| claims := claims m; walletState := walletState m;
     tokenState := tokenState m; claimTxQueue := claimTxQueue m;
     pendingTxQueue := pendingTxQueue m; historyTxDict := historyTxDict m;
     lastWalletRefresh := lastWalletRefresh m;
     queueProcessing := queueProcessing m;
     lastClaimTxIdx := lastClaimTxIdx m;
     lastProcessedClaimTxIdx := lastProcessedClaimTxIdx m;
     lastWalletRefill := lastWalletRefill m;
     lastWalletRefillTry := lastWalletRefillTry m;
     walletRefilling := walletRefilling m; queueStore := queueStore m;
     receiptWatchers := v; historyJobs := historyJobs m; timers := timers m;
     events := events m |}.

Definition set_historyJobs (v : list nat) (m : Manager) : Manager :=
  {| claims := claims m; walletState := walletState m;
     tokenState := tokenState m; claimTxQueue := claimTxQueue m;
     pendingTxQueue := pendingTxQueue m; historyTxDict := historyTxDict m;
     lastWalletRefresh := lastWalletRefresh m;
     queueProcessing := queueProcessing m;
     lastClaimTxIdx := lastClaimTxIdx m;
     lastProcessedClaimTxIdx := lastProcessedClaimTxIdx m;
     lastWalletRefill := lastWalletRefill m;
     lastWalletRefillTry := lastWalletRefillTry m;
     walletRefilling := walletRefilling m; queueStore := queueStore m;
     receiptWatchers := receiptWatchers m; historyJobs := v;
     timers := timers m; events := events m |}.

Definition set_timers (v : list Timer) (m : Manager) : Manager :=
  {| claims := claims m; walletState := walletState m;
     tokenState := tokenState m; claimTxQueue := claimTxQueue m;
     pendingTxQueue := pendingTxQueue m; historyTxDict := historyTxDict m;
     lastWalletRefresh := lastWalletRefresh m;
     queueProcessing := queueProcessing m;
     lastClaimTxIdx := lastClaimTxIdx m;
     lastProcessedClaimTxIdx := lastProcessedClaimTxIdx m;
     lastWalletRefill := lastWalletRefill m;
     lastWalletRefillTry := lastWalletRefillTry m;
     walletRefilling := walletRefilling m; queueStore := queueStore m;
     receiptWatchers := receiptWatchers m; historyJobs := historyJobs m;
     timers := v; events := events m |}.

Definition set_events (v : list Event) (m : Manager) : Manager :=
  {| claims := claims m; walletState := walletState m;
     tokenState := tokenState m; claimTxQueue := claimTxQueue m;
     pendingTxQueue := pendingTxQueue m; historyTxDict := historyTxDict m;
     lastWalletRefresh := lastWalletRefresh m;
     queueProcessing := queueProcessing m;
     lastClaimTxIdx := lastClaimTxIdx m;
     lastProcessedClaimTxIdx := lastProcessedClaimTxIdx m;
     lastWalletRefill := lastWalletRefill m;
     lastWalletRefillTry := lastWalletRefillTry m;
     walletRefilling := walletRefilling m; queueStore := queueStore m;
     receiptWatchers := receiptWatchers m; historyJobs := historyJobs m;
     timers := timers m; events := v |}.

(** Append to the event log. *)
Definition emit (e : Event) (m : Manager) : Manager :=
  set_events (events m ++ [e]) m.

(** Assign through a claim reference. *)
Definition updClaim (r : nat) (f : ClaimTx -> ClaimTx) (m : Manager) : Manager :=
  set_claims (alter f r (claims m)) m.

(** Assign through [this.walletState] (a no-op while it is unassigned;
    the callers below read it first). *)
Definition updWallet (f : WalletState -> WalletState) (m : Manager) : Manager :=
  set_walletState (f <$> walletState m) m.

(** [claimTx.emit(name)] *)
Definition claimEmit (r : nat) (name : string) (m : Manager) : Manager :=
  emit (EvEmit r name) m.

(** ** The durable queue store *)

(** Modelled from the spec: [FaucetStoreDB] is outside this file; the spec
    gives it as a store of queued entries with [getClaimTxQueue()],
    [addQueuedClaimTx(entry)] and [removeQueuedClaimTx(session)]. Adding
    appends the entry; removing drops every entry of that session. *)
Definition addQueuedClaimTx (q : IQueuedClaimTx) (m : Manager) : Manager :=
  emit (EvAddQueuedClaimTx q) (set_queueStore (queueStore m ++ [q]) m).

Definition removeQueuedClaimTx (sess : string) (m : Manager) : Manager :=
  emit (EvRemoveQueuedClaimTx sess)
    (set_queueStore (filter (fun q => q_session q <> sess) (queueStore m)) m).

(** What [refillWallet] and [overflowWallet] meet: the allowance call, the
    balance read of the checked address, the build and the send. *)
Record VaultReply := mkVault {
  vr_allowance : Js.Thrown + Z;
  vr_contractBalance : Js.Thrown + Z;
  vr_build : BuildReply;
  vr_send : SendReply;
}.

(** What one call of [tryRefillWallet] meets: the clock at entry, the
    reward limiter's unclaimed balance, the vault transaction, the clock
    after it, how its receipt promise settles, the polls of the fallback,
    and the wallet reload of the success callback. *)
Record RefillReply := mkRefill {
  rf_now : Z;
  rf_unclaimed : Z;
  rf_vault : VaultReply;
  rf_now2 : Z;
  rf_receipt : Settled;
  rf_polls : list PollReply;
  rf_reload : LoadReply;
}.

(** What one tick meets: the submission replies of the [k]-th claim it
    dequeues, the clock after the loop, the idle reload, the refill. *)
Record TickReply := mkTick {
  tk_claims : nat -> Z -> AttemptReply;
  tk_now : Z;
  tk_reload : LoadReply;
  tk_refill : RefillReply;
}.

(** The part of a claim that no assignment of the manager touches. *)
Definition ident (c : ClaimTx) : Z * string * Z * string :=
  (time c, target c, amount c, session c).

Definition idents (m : Manager) : list (Z * string * Z * string) :=
  ident <$> claims m.

(** An assignment that leaves the identity of claims alone. *)
Definition keepsIdent (f : ClaimTx -> ClaimTx) : Prop :=
  forall c, ident (f c) = ident c.

(** How an [async] method ends: it returns, or its promise rejects. *)
Inductive Completion :=
| Returned (m : Manager)
| Rejects (m : Manager) (e : Js.Thrown).

Definition final (c : Completion) : Manager :=
  match c with Returned m => m | Rejects m _ => m end.

(** The manager before its constructor body runs: the field initialisers. *)
Definition initial (stored : list IQueuedClaimTx) : Manager :=
  {| claims := []; walletState := None; tokenState := None;
     claimTxQueue := []; pendingTxQueue := ∅; historyTxDict := ∅;
     lastWalletRefresh := None; queueProcessing := false;
     lastClaimTxIdx := 1; lastProcessedClaimTxIdx := Some 0;
     lastWalletRefill := None; lastWalletRefillTry := None;
     walletRefilling := false; queueStore := stored;
     receiptWatchers := []; historyJobs := []; timers := [];
     events := [] |}.

Section Manager.

Context (cfg : FaucetConfig) (lib : Libs) (walletAddr : string).

(** *** Start-up *)

(** [initWeb3Token()]: the [ERC20] case builds the token state (its
    decimals are fetched later); the [default] case logs an error. *)
Definition initWeb3Token (m : Manager) : Manager :=
  match faucetCoinType cfg with
  | ERC20 =>
      set_tokenState
        (Some {| address := faucetCoinContract cfg; decimals := 0 |}) m
  | _ => emit (EvLog LogError) m
  end.

(** [startWeb3()], the part that selects the token mode. *)
Definition startWeb3 (m : Manager) : Manager :=
  if decide (faucetCoinType cfg <> NATIVE) then initWeb3Token m
  else set_tokenState None m.

(** A new claim object enters the store and the queue:
    [claim.queueIdx = this.lastClaimTxIdx++; this.claimTxQueue.push(claim)].
    The result carries the reference of the new object. *)
Definition pushClaim (c : ClaimTx) (m : Manager) : Manager * nat :=
  let r := length (claims m) in
  let m := set_claims (claims m ++ [set_queueIdx (Some (lastClaimTxIdx m)) c]) m in
  let m := set_lastClaimTxIdx (lastClaimTxIdx m + 1) m in
  (set_claimTxQueue (claimTxQueue m ++ [r]) m, r).

(** The [forEach] of the constructor over [getClaimTxQueue()]; [None]
    when [BigInt] throws on a stored amount. *)
Fixpoint restoreQueue (now : Z) (stored : list IQueuedClaimTx)
    (m : Manager) : option Manager :=
  match stored with
  | [] => Some m
  | q :: rest =>
      c ← restoreClaimTx now q;
      restoreQueue now rest (fst (pushClaim c m))
  end.

(** [new EthWeb3Manager()] up to the first wallet load. *)
Definition constructor (now : Z) (stored : list IQueuedClaimTx)
    : option Manager :=
  restoreQueue now stored (startWeb3 (initial stored)).

(** *** Status publisher *)

(** The [newStatus] computed by [updateFaucetStatus()]. *)
Definition walletStatus (ws : option WalletState) : FucetWalletState :=
  match ws with
  | None => UNKNOWN
  | Some w =>
      if negb (ready w) then OFFLINE
      else if balance w <=? noFundsBalance cfg then NOFUNDS
      else if nativeBalance w <=? ethTxGasLimit cfg * ethTxMaxFee cfg
      then NOFUNDS
      else if balance w <=? lowFundsBalance cfg then LOWFUNDS
      else NORMAL
  end.

(** The message template and level of one [case] of the [switch]: the
    configured string, or the default text when the option is [true]. *)
Definition statusText (opt : StrOrBool) (dflt : string)
    (lvl : FaucetStatusLevel) : option string * option FaucetStatusLevel :=
  match opt with
  | OptStr s => (Some s, Some lvl)
  | OptBool true => (Some dflt, Some lvl)
  | OptBool false => (None, None)
  end.

Definition statusMessage (st : FucetWalletState)
    : option string * option FaucetStatusLevel :=
  match st with
  | LOWFUNDS =>
      statusText (lowFundsWarning cfg)
        "The faucet is running out of funds! Faucet Balance: {1}" WARNING
  | NOFUNDS =>
      statusText (noFundsError cfg) "The faucet is out of funds!" ERROR
  | OFFLINE =>
      statusText (rpcConnectionError cfg)
        "The faucet could not connect to the network RPC" ERROR
  | _ => (None, None)
  end.

(** [updateFaucetStatus()] *)
Definition updateFaucetStatus (m : Manager) : Manager :=
  let '(msg, lvl) := statusMessage (walletStatus (walletState m)) in
  emit (EvSetFaucetStatus "wallet" msg lvl) m.

(** *** Wallet state *)

(** [loadWalletState()] in the caller's turn: the refresh time is
    written first; the reads are issued unless the call throws. *)
Definition loadWalletStart (reply : LoadReply) (m : Manager) : Manager :=
  let m := set_lastWalletRefresh (Some (load_now reply / 1000)) m in
  match load_result reply with
  | LoadThrows _ => m
  | _ => emit EvLoadWallet m
  end.

(** [loadWalletState()] once its reads have returned; nothing when the
    call threw. *)
Definition loadWalletFinish (reply : LoadReply) (m : Manager) : Manager :=
  match load_result reply with
  | LoadOk nativeBal txCount tokenBal =>
      updateFaucetStatus
        (emit (EvLog LogInfo)
           (set_walletState
              (Some {| ready := true;
                       balance := match tokenState m with
                                  | Some _ => tokenBal
                                  | None => nativeBal
                                  end;
                       nativeBalance := nativeBal;
                       nonce := txCount |}) m))
  | LoadErr _ =>
      updateFaucetStatus
        (emit (EvLog LogError)
           (set_walletState
              (Some {| ready := false; balance := 0; nativeBalance := 0;
                       nonce := 0 |}) m))
  | LoadThrows _ => m
  end.

(** The state [loadWalletState()] leaves: after its promise settled, or,
    when the call threw, at the throw; [loadThrows] tells which, and
    every caller below reads it. *)
Definition loadWalletState (reply : LoadReply) (m : Manager) : Manager :=
  loadWalletFinish reply (loadWalletStart reply m).

(** [getFaucetBalance(native?)]; [None] is [null]. *)
Definition getFaucetBalance (native : bool) (m : Manager) : option Z :=
  match walletState m with
  | None => None
  | Some w =>
      let b := if native then nativeBalance w else balance w in
      if Js.truthyZ b then Some b else None
  end.

(** *** Queue *)

(** [claimTx.amount] through a reference. *)
Definition amountOf (m : Manager) (r : nat) : Z :=
  default 0 (amount <$> claims m !! r).

(** [getQueuedAmount()] *)
Definition getQueuedAmount (m : Manager) : Z :=
  foldl (fun totalPending r => totalPending + amountOf m r) 0
    (claimTxQueue m).

(** [getLastProcessedClaimIdx()] *)
Definition getLastProcessedClaimIdx (m : Manager) : option Z :=
  lastProcessedClaimTxIdx m.

(** [addClaimTransaction(target, amount, sessId)]; [now] is the clock
    read by the claim's constructor. *)
Definition addClaimTransaction (now : Z) (target : string) (amount : Z)
    (sessId : string) (m : Manager) : Manager * nat :=
  let claimTx := newClaimTx now target amount sessId None in
  let '(m, r) := pushClaim claimTx m in
  (addQueuedClaimTx (serialize claimTx) m, r).

(** *** Transaction builder *)

(** [x || y] on numbers and [data ? data : "0x"]. *)
Definition orZ (x : option Z) (y : Z) : Z :=
  if Js.truthyOptZ x then default y x else y.

Definition dataOr0x (data : option string) : string :=
  match data with
  | Some d => if decide (d = "") then "0x" else d
  | None => "0x"
  end.

(** [buildEthTx(target, amount, nonce, data?, gasLimit?)] *)
Definition buildEthTx (target : string) (amount nonce : Z)
    (data : option string) (gasLimit : option Z) (reply : BuildReply)
    (m : Manager) : Manager * (Js.Error + string) :=
  let target :=
    if Js.is_prefix "0X" target
    then "0x" +:+ String.substring 2 (String.length target - 2) target
    else target in
  let m := if ethLegacyTx cfg then emit (EvCall "getGasPrice") m else m in
  match reply with
  | BuildThrows e => (m, inl e)
  | BuildGasPrice nodePrice =>
      let fee :=
        if ethLegacyTx cfg then
          let gasPrice :=
            Js.numAdd (Js.parseInt nodePrice) (ethTxPrioFee cfg) in
          LegacyFee
            (if (0 <? ethTxMaxFee cfg) && (ethTxMaxFee cfg <? gasPrice)
             then ethTxMaxFee cfg else gasPrice)
        else FeeMarket (ethTxPrioFee cfg) (ethTxMaxFee cfg) in
      let tx := {| tx_nonce := nonce;
                   tx_gasLimit := orZ gasLimit (ethTxGasLimit cfg);
                   tx_fee := fee;
                   tx_to := target;
                   tx_value := amount;
                   tx_data := dataOr0x data |} in
      (emit (EvSign tx) m, inr (signTx lib tx))
  end.

(** [sendTransaction(txhex)] up to the hash; the receipt promise is
    settled later, see the watcher. *)
Definition sendTransaction (txhex : string) (reply : SendReply)
    (m : Manager) : Manager * (Js.Error + string) :=
  let m := emit (EvSend ("0x" +:+ txhex)) m in
  match reply with
  | SendHash h => (m, inr h)
  | SendThrows e => (m, inl e)
  end.

(** *** Claim pipeline *)

(** The funds test shared by [processQueue] and [processQueueTx]. *)
Definition cannotPay (w : WalletState) (amt : Z) : bool :=
  negb (ready w)
  || (balance w - spareFundsAmount cfg <? amt)
  || (nativeBalance w <=? ethTxGasLimit cfg * ethTxMaxFee cfg).

(** [claimTx.failReason = reason; claimTx.status = FAILED;
    claimTx.emit("failed")] *)
Definition failClaim (r : nat) (reason : string) (m : Manager) : Manager :=
  let m := updClaim r (set_failReason (Some reason)) m in
  let m := updClaim r (set_status FAILED) m in
  claimEmit r "failed" m.

(** The [buildTx] closure of [processQueueTx]. *)
Definition buildTx (r : nat) (reply : BuildReply) (m : Manager)
    : Manager * (Js.Error + string) :=
  match walletState m, claims m !! r with
  | Some w, Some c =>
      let m := updClaim r (set_c_nonce (Some (nonce w))) m in
      match tokenState m with
      | Some tok =>
          buildEthTx (address tok) 0 (nonce w)
            (Some (getTransferData lib (target c) (amount c))) None reply m
      | None =>
          buildEthTx (target c) (amount c) (nonce w) None None reply m
      end
  | _, _ => (m, inl (Js.mkError "TypeError" "walletState is undefined"))
  end.

(** The [try] block inside the [do] loop: build, send, record hex and
    hash on the claim. *)
Definition trySubmit (r : nat) (reply : AttemptReply) (m : Manager)
    : Manager * (Js.Error + string) :=
  match buildTx r (at_build reply) m with
  | (m, inl ex) => (m, inl ex)
  | (m, inr hex) =>
      let m := updClaim r (set_txhex (Some hex)) m in
      match sendTransaction hex (at_send reply) m with
      | (m, inl ex) => (m, inl ex)
      | (m, inr hash) => (updClaim r (set_txhash (Some hash)) m, inr hash)
      end
  end.

(** How the [do ... while] loop ends: with a receipt promise (and the
    hash on the claim), or without one and with [txError], or by the
    exception that [loadWalletState()] threw inside the [catch] block,
    which no handler of the loop catches. *)
Inductive LoopExit :=
| Submitted
| GaveUp (txError : option Js.Error)
| ReloadThrew (ex : Js.Thrown).

(** [do { try {...} catch(ex) {...} } while(!txPromise && retryCount++ < 3)].
    [replies] is indexed by the value of [retryCount] at the pass.
    [fuel] bounds the unfolding only; see [submitLoop_total]. *)
Fixpoint submitLoop (fuel : nat) (replies : Z -> AttemptReply) (r : nat)
    (retryCount : Z) (txError : option Js.Error) (m : Manager)
    : option (Manager * LoopExit) :=
  match fuel with
  | O => None
  | S fuel =>
      match trySubmit r (replies retryCount) m with
      | (m, inr _) => Some (m, Submitted)
      | (m, inl ex) =>
          let txError :=
            match txError with None => Some ex | Some _ => txError end in
          let m := emit (EvLog LogError) m in
          let m := emit (EvSleep 2000) m in
          let m := loadWalletState (at_reload (replies retryCount)) m in
          match loadThrows (at_reload (replies retryCount)) with
          | Some ex' => Some (m, ReloadThrew ex')
          | None =>
              if retryCount <? 3
              then submitLoop fuel replies r (retryCount + 1) txError m
              else Some (m, GaveUp txError)
          end
      end
  end.

(** The statements of [processQueueTx] between a successful loop and the
    receipt watcher, which is registered at the end. *)
Definition afterSubmit (r : nat) (m : Manager) : Js.Thrown + Manager :=
  match walletState m, claims m !! r with
  | Some _, Some c =>
      let m := updWallet (fun w => set_nonce (nonce w + 1) w) m in
      let m := updWallet (fun w => set_balance (balance w - amount c) w) m in
      let m :=
        match tokenState m with
        | None =>
            updWallet
              (fun w => set_nativeBalance (nativeBalance w - amount c) w) m
        | Some _ => m
        end in
      let m := updateFaucetStatus m in
      let m := set_pendingTxQueue (<[txhash c := r]> (pendingTxQueue m)) m in
      let m := removeQueuedClaimTx (session c) m in
      let m := emit (EvLog LogInfo) m in
      let m := updClaim r (set_status PENDING) m in
      let m := claimEmit r "pending" m in
      inr (set_receiptWatchers (receiptWatchers m ++ [r]) m)
  | _, _ => inl (Js.TypeError "walletState is undefined")
  end.

(** The outer [catch(ex)] of [processQueueTx]. *)
Definition processingException (r : nat) (ex : Js.Thrown) (m : Manager)
    : Manager :=
  failClaim r ("Processing Exception: " +:+ Js.toString ex) m.

(** [processQueueTx(claimTx)] up to the registration of the receipt
    watcher. *)
Definition processQueueTx (r : nat) (replies : Z -> AttemptReply)
    (m : Manager) : Completion :=
  match walletState m, claims m !! r with
  | Some w, Some c =>
      if negb (ready w) then
        Returned
          (removeQueuedClaimTx (session c)
             (failClaim r "Network RPC is currently unreachable." m))
      else if cannotPay w (amount c) then
        Returned
          (removeQueuedClaimTx (session c)
             (failClaim r "Faucet wallet is out of funds." m))
      else
        let m := updClaim r (set_status PROCESSING) m in
        let m := claimEmit r "processing" m in
        match submitLoop 4 replies r 0 None m with
        | Some (m, Submitted) =>
            match afterSubmit r m with
            | inr m => Returned m
            | inl ex => Returned (processingException r ex m)
            end
        | Some (m, GaveUp (Some txError)) =>
            Returned (processingException r (Js.ErrorObj txError) m)
        | Some (m, GaveUp None) =>
            Rejects m (Js.TypeError "ex is undefined")
        | Some (m, ReloadThrew ex) =>
            Returned (processingException r ex m)
        | None => Returned m
        end
  | _, _ => Rejects m (Js.TypeError "walletState is undefined")
  end.

(** The exception a pass of the loop catches when the node's replies make
    it fail: the build's, else the send's. *)
Definition attemptError (reply : AttemptReply) : option Js.Error :=
  match at_build reply with
  | BuildThrows e => Some e
  | BuildGasPrice _ =>
      match at_send reply with
      | SendThrows e => Some e
      | SendHash _ => None
      end
  end.

(** A pass of the loop that fails: the [try] block, then the [catch]
    block's log, two-second sleep and wallet reload (up to its throw,
    when it throws). *)
Definition failedPass (r : nat) (reply : AttemptReply) (m : Manager)
    : Manager :=
  let m := (trySubmit r reply m).1 in
  let m := emit (EvLog LogError) m in
  let m := emit (EvSleep 2000) m in
  loadWalletState (at_reload reply) m.



(** Counting events of one kind in the log. *)
Definition countEvents (p : Event -> bool) (m : Manager) : nat :=
  length (List.filter p (events m)).

Definition isSend (e : Event) : bool :=
  match e with EvSend _ => true | _ => false end.

Definition isSleep (ms : Z) (e : Event) : bool :=
  match e with EvSleep d => d =? ms | _ => false end.

Definition isLoad (e : Event) : bool :=
  match e with EvLoadWallet => true | _ => false end.

(** *** Receipt watcher *)

(** [awaitTransactionReceipt(txhash)] over the polls it makes; [None]
    while no poll has produced a receipt or a fatal error. *)
Fixpoint awaitTransactionReceipt (polls : list PollReply)
    (txhash : option string) (m : Manager)
    : Manager * option Settled :=
  match polls with
  | [] => (m, None)
  | p :: polls =>
      let m := emit (EvSleep 30000) m in
      let m := emit (EvPollReceipt txhash) m in
      match p with
      | PollNull =>
          awaitTransactionReceipt polls txhash (emit (EvLog LogWarning) m)
      | PollReceipt receipt =>
          (emit (EvLog LogWarning) m, Some (Resolved receipt))
      | PollThrows ex =>
          if Js.contains "CONNECTION ERROR" (Js.toString ex)
          then awaitTransactionReceipt polls txhash m
          else (emit (EvLog LogError) m, Some (Rejected ex))
      end
  end.

(** The [catch] handler put on a receipt promise, here and in the refill
    controller: a promise rejected with "Transaction was not mined
    within" is replaced by the polled receipt. *)
Definition orPolled (outcome : Settled) (polls : list PollReply)
    (txhash : option string) (m : Manager) : Manager * option Settled :=
  match outcome with
  | Resolved receipt => (m, Some (Resolved receipt))
  | Rejected ex =>
      if Js.contains "Transaction was not mined within" (Js.toString ex)
      then awaitTransactionReceipt polls txhash m
      else (m, Some (Rejected ex))
  end.

(** [this.pendingTxQueue[claimTx.txhash]], the key read from the claim. *)
Definition hashOf (m : Manager) (r : nat) : option string :=
  c ← claims m !! r; txhash c.

Definition nonceOf (m : Manager) (r : nat) : option Z :=
  c ← claims m !! r; c_nonce c.

(** First callback of the watcher, fulfilled branch. *)
Definition onReceipt (r : nat) (receipt : TransactionReceipt)
    (m : Manager) : Manager :=
  let m := set_pendingTxQueue (delete (hashOf m r) (pendingTxQueue m)) m in
  let m := updClaim r (set_txblock (Some (blockNumber receipt))) m in
  let m := updClaim r (set_status CONFIRMED) m in
  let fee := effectiveGasPrice receipt * gasUsed receipt in
  let m := updClaim r (set_txfee fee) m in
  let m :=
    updWallet (fun w => set_nativeBalance (nativeBalance w - fee) w) m in
  let m :=
    match tokenState m with
    | None => updWallet (fun w => set_balance (balance w - fee) w) m
    | Some _ => m
    end in
  let m := claimEmit r "confirmed" m in
  emit (EvStats r) m.

(** First callback of the watcher, rejected branch. *)
Definition onError (r : nat) (error : Js.Thrown) (m : Manager) : Manager :=
  let m := emit (EvLog LogWarning) m in
  let m := set_pendingTxQueue (delete (hashOf m r) (pendingTxQueue m)) m in
  failClaim r ("Transaction Error: " +:+ Js.toString error) m.

(** The first callback has run: the watcher no longer waits and its
    second [then] is queued. *)
Definition queueHistoryJob (r : nat) (m : Manager) : Manager :=
  let m :=
    set_receiptWatchers (filter (fun r' => r' <> r) (receiptWatchers m)) m in
  set_historyJobs (historyJobs m ++ [r]) m.

(** The receipt promise of claim [r] settles: the [catch] handler and the
    first [then]. While the poll fallback has not finished the watcher
    stays registered. *)
Definition receiptSettled (r : nat) (outcome : Settled)
    (polls : list PollReply) (m : Manager) : Manager :=
  match orPolled outcome polls (hashOf m r) m with
  | (m, None) => m
  | (m, Some (Resolved receipt)) => queueHistoryJob r (onReceipt r receipt m)
  | (m, Some (Rejected error)) => queueHistoryJob r (onError r error m)
  end.

(** Second [then] of the watcher:
    [this.historyTxDict[claimTx.nonce] = claimTx; setTimeout(..., 30 * 60 * 1000)]. *)
Definition historyInsert (r : nat) (m : Manager) : Manager :=
  let m := set_historyTxDict (<[nonceOf m r := r]> (historyTxDict m)) m in
  let m := set_timers (timers m ++ [mkTimer (30 * 60 * 1000) r]) m in
  set_historyJobs (filter (fun r' => r' <> r) (historyJobs m)) m.

(** The timer callback: [delete this.historyTxDict[claimTx.nonce]]. *)
Definition evict (r : nat) (m : Manager) : Manager :=
  set_historyTxDict (delete (nonceOf m r) (historyTxDict m)) m.

(** The [i]-th outstanding timer fires. *)
Definition fireTimer (i : nat) (m : Manager) : Manager :=
  match timers m !! i with
  | Some t => evict (evicts t) (set_timers (delete i (timers m)) m)
  | None => m
  end.

(** The queued second [then] of claim [r] runs, if there is one. *)
Definition runHistoryJob (r : nat) (m : Manager) : Manager :=
  if decide (r ∈ historyJobs m) then historyInsert r m else m.


(** *** Refill controller *)

Definition truthyStr (o : option string) : bool :=
  match o with Some s => negb (bool_decide (s = "")) | None => false end.

Definition truthyOpt (o : StrOrBool) : bool :=
  match o with OptStr s => negb (bool_decide (s = "")) | OptBool b => b end.

(** The [getCallArgs] closure; [amt] is the amount variable it captures. *)
Definition getCallArgs (amt : Z) (m : Manager) (args : list string)
    : list CallArg :=
  map (fun arg =>
         if decide (arg = "{walletAddr}") then ArgStr walletAddr
         else if decide (arg = "{amount}") then ArgAmount amt
         else if decide (arg = "{token}")
              then ArgToken (address <$> tokenState m)
         else ArgStr arg) args.

(** The common tail of [refillWallet] and [overflowWallet]: build at the
    current nonce, send, increment the nonce, return the hash. *)
Definition vaultTx (rc : RefillContractConfig) (value : Z)
    (data : option string) (reply : VaultReply) (m : Manager)
    : Manager * (Js.Thrown + string) :=
  match walletState m with
  | None => (m, inl (Js.TypeError "walletState is undefined"))
  | Some w =>
      match buildEthTx (contract rc) value (nonce w) data
              (withdrawGasLimit rc) (vr_build reply) m with
      | (m, inl ex) => (m, inl (Js.ErrorObj ex))
      | (m, inr txHex) =>
          match sendTransaction txHex (vr_send reply) m with
          | (m, inl ex) => (m, inl (Js.ErrorObj ex))
          | (m, inr hash) =>
              (updWallet (fun w => set_nonce (nonce w + 1) w) m, inr hash)
          end
      end
  end.

(** [refillWallet()] *)
Definition refillWallet (rc : RefillContractConfig) (reply : VaultReply)
    (m : Manager) : Manager * (Js.Thrown + string) :=
  let refillAmount := requestAmount rc in
  let allowed : Manager * (Js.Thrown + Z) :=
    if truthyStr (allowanceFn rc) then
      let m := emit (EvCall (default "" (allowanceFn rc))) m in
      match vr_allowance reply with
      | inl ex => (m, inl ex)
      | inr refillAllowance =>
          if refillAllowance =? 0
          then (m, inl (Js.ThrownStr "no withdrawable funds from refill contract"))
          else if refillAllowance <? refillAmount
          then (m, inr refillAllowance)
          else (m, inr refillAmount)
      end
    else (m, inr refillAmount) in
  match allowed with
  | (m, inl ex) => (m, inl ex)
  | (m, inr refillAmount) =>
      let checked : Manager * (Js.Thrown + Z) :=
        if truthyOpt (checkContractBalance rc) then
          let m := emit (EvCall "getBalance") m in
          match vr_contractBalance reply with
          | inl ex => (m, inl ex)
          | inr contractBalance =>
              let dustBalance :=
                if Js.truthyOptZ (contractDustBalance rc)
                then default 0 (contractDustBalance rc)
                else 1000000000 in
              if contractBalance <=? dustBalance
              then (m, inl (Js.ThrownStr "refill contract is out of funds"))
              else if contractBalance <? refillAmount
              then (m, inr contractBalance)
              else (m, inr refillAmount)
          end
        else (m, inr refillAmount) in
      match checked with
      | (m, inl ex) => (m, inl ex)
      | (m, inr refillAmount) =>
          let callArgs :=
            getCallArgs refillAmount m
              (default ["{amount}"] (withdrawFnArgs rc)) in
          vaultTx rc 0 (Some (encodeABI lib (withdrawFn rc) callArgs))
            reply m
      end
  end.

(** [overflowWallet(amount)] *)
Definition overflowWallet (rc : RefillContractConfig) (amt : Z)
    (reply : VaultReply) (m : Manager) : Manager * (Js.Thrown + string) :=
  let callArgs := getCallArgs amt m (default [] (depositFnArgs rc)) in
  vaultTx rc amt
    (if truthyStr (depositFn rc)
     then Some (encodeABI lib (default "" (depositFn rc)) callArgs)
     else None)
    reply m.

(** The [walletBalance] of [tryRefillWallet]. *)
Definition effectiveBalance (unclaimed : Z) (m : Manager) (w : WalletState)
    : Z :=
  balance w - unclaimed - getQueuedAmount m.

(** The [refillAction] chosen for a [walletBalance]. *)
Definition refillAction (rc : RefillContractConfig) (walletBalance : Z)
    : option string :=
  if Js.truthyOptZ (overflowBalance rc)
     && (default 0 (overflowBalance rc) <? walletBalance)
  then Some "overflow"
  else if walletBalance <? triggerBalance rc then Some "refill"
  else None.

(** The [catch(ex)] of [tryRefillWallet]. *)
Definition refillFailed (m : Manager) : Manager :=
  set_walletRefilling false (emit (EvLog LogWarning) m).

(** [txResult[1].then((receipt) => {...}).catch((err) => {...})] on the
    receipt promise as it settled. *)
Definition refillReceiptCallbacks (settled : Settled) (reload : LoadReply)
    (m : Manager) : Manager :=
  match settled with
  | Resolved receipt =>
      let m := set_walletRefilling false m in
      if negb (rc_status receipt) then emit (EvLog LogWarning) m
      else
        let m := loadWalletStart reload m in
        match loadThrows reload with
        | Some _ => emit (EvLog LogWarning) m
        | None =>
            let m := emit (EvLog LogInfo) m in
            loadWalletFinish reload m
        end
  | Rejected _ => emit (EvLog LogWarning) m
  end.

(** The vault call of the [try] block, selected by [refillAction]. *)
Definition vaultAction (rc : RefillContractConfig) (action : string)
    (walletBalance : Z) (reply : VaultReply) (m : Manager)
    : Manager * (Js.Thrown + string) :=
  if decide (action = "refill") then refillWallet rc reply m
  else if decide (action = "overflow") then
    match overflowBalance rc with
    | Some ob => overflowWallet rc (walletBalance - ob) reply m
    | None => (m, inl (Js.TypeError "overflowBalance is undefined"))
    end
  else (m, inl (Js.TypeError "txResult is undefined")).

(** The rest of the [try] block, from the result of the vault call, with
    the [catch]. While the poll fallback has not produced a receipt the
    method has not completed. *)
Definition awaitRefill (reply : RefillReply)
    (sent : Manager * (Js.Thrown + string)) : Manager :=
  match sent with
  | (m, inl _) => refillFailed m
  | (m, inr hash) =>
      let m := set_lastWalletRefill (Some (rf_now2 reply / 1000)) m in
      let m := emit (EvLog LogInfo) m in
      match orPolled (rf_receipt reply) (rf_polls reply) (Some hash) m with
      | (m, None) => m
      | (m, Some (Rejected _)) => refillFailed m
      | (m, Some (Resolved txReceipt)) =>
          if negb (rc_status txReceipt) then refillFailed m
          else refillReceiptCallbacks (rf_receipt reply) (rf_reload reply) m
      end
  end.

(** The [try] block of [tryRefillWallet] with its [catch]. *)
Definition refillAttempt (rc : RefillContractConfig) (action : string)
    (walletBalance : Z) (reply : RefillReply) (m : Manager) : Manager :=
  awaitRefill reply (vaultAction rc action walletBalance (rf_vault reply) m).

(** The guards of [tryRefillWallet]: [true] when it returns early. *)
Definition refillGuarded (rc : RefillContractConfig) (now : Z)
    (m : Manager) : bool :=
  walletRefilling m
  || (Js.truthyOptZ (lastWalletRefillTry m)
      && (now - default 0 (lastWalletRefillTry m) <? 60))
  || (Js.truthyOptZ (lastWalletRefill m)
      && Js.truthyOptZ (cooldownTime rc)
      && (now - default 0 (lastWalletRefill m)
          <? default 0 (cooldownTime rc))).

(** [tryRefillWallet()] *)
Definition tryRefillWallet (reply : RefillReply) (m : Manager)
    : Completion :=
  match ethRefillContract cfg with
  | None => Returned m
  | Some rc =>
      let now := rf_now reply / 1000 in
      if refillGuarded rc now m then Returned m
      else
        let m := set_lastWalletRefillTry (Some now) m in
        match walletState m with
        | None => Rejects m (Js.TypeError "walletState is undefined")
        | Some w =>
            let walletBalance :=
              effectiveBalance (rf_unclaimed reply) m w in
            match refillAction rc walletBalance with
            | None => Returned m
            | Some action =>
                let m := set_walletRefilling true m in
                Returned (refillAttempt rc action walletBalance reply m)
            end
        end
  end.

(** [getFaucetRefillCooldown()]; [now] is the clock in milliseconds. *)
Definition getFaucetRefillCooldown (now : Z) (m : Manager) : Z :=
  let now := now / 1000 in
  match ethRefillContract cfg with
  | None => 0
  | Some rc =>
      if negb (Js.truthyOptZ (cooldownTime rc)) then 0
      else if negb (Js.truthyOptZ (lastWalletRefill m)) then 0
      else
        let cooldown :=
          default 0 (cooldownTime rc)
          - (now - default 0 (lastWalletRefill m)) in
        if cooldown <? 0 then 0 else cooldown
  end.

(** *** The tick *)

(** The funds test at the head of the queue: [true] to [break]. *)
Definition pauseForFunds (r : nat) (m : Manager) : Js.Thrown + bool :=
  if ethQueueNoFunds cfg then
    match walletState m with
    | None => inl (Js.TypeError "walletState is undefined")
    | Some w => inr (cannotPay w (amountOf m r))
    end
  else inr false.

(** The [while] loop of [processQueue]; [k] counts the claims dequeued so
    far. [fuel] bounds the unfolding only; see [drainQueue_total]. *)
Fixpoint drainQueue (fuel : nat) (replies : nat -> Z -> AttemptReply)
    (k : nat) (m : Manager) : option Completion :=
  if Z.of_nat (size (pendingTxQueue m)) <? ethMaxPending cfg then
    match claimTxQueue m with
    | [] => Some (Returned m)
    | r :: rest =>
        match pauseForFunds r m with
        | inl ex => Some (Rejects m ex)
        | inr true => Some (Returned m)
        | inr false =>
            match fuel with
            | O => None
            | S fuel =>
                let m := set_claimTxQueue rest m in
                let m :=
                  set_lastProcessedClaimTxIdx
                    (c ← claims m !! r; queueIdx c) m in
                match processQueueTx r (replies k) m with
                | Returned m => drainQueue fuel replies (S k) m
                | Rejects m ex => Some (Rejects m ex)
                end
            end
        end
    end
  else Some (Returned m).

(** The statements of [processQueue] after the loop. *)
Definition afterDrain (reply : TickReply) (m : Manager) : Completion :=
  let now := tk_now reply / 1000 in
  match walletState m with
  | None => Rejects m (Js.TypeError "walletState is undefined")
  | Some w =>
      let walletRefreshTime := if ready w then 600 else 10 in
      let reloads :=
        (size (pendingTxQueue m) =? 0)%nat
        && match lastWalletRefresh m with
           | Some t => walletRefreshTime <? now - t
           | None => false
           end in
      let m := if reloads then loadWalletState (tk_reload reply) m else m in
      match (if reloads then loadThrows (tk_reload reply) else None) with
      | Some ex => Rejects m ex
      | None =>
          match ethRefillContract cfg, walletState m with
          | Some _, Some w =>
              if ready w then tryRefillWallet (tk_refill reply) m
              else Returned m
          | Some _, None =>
              Rejects m (Js.TypeError "walletState is undefined")
          | None, _ => Returned m
          end
      end
  end.

(** [processQueue()] *)
Definition processQueue (reply : TickReply) (m : Manager) : Manager :=
  if queueProcessing m then m
  else
    let m := set_queueProcessing true m in
    let body :=
      match drainQueue (length (claimTxQueue m)) (tk_claims reply) O m with
      | Some (Returned m) => afterDrain reply m
      | Some (Rejects m ex) => Rejects m ex
      | None => Returned m
      end in
    let m :=
      match body with
      | Returned m => m
      | Rejects m _ => emit (EvLog LogError) m
      end in
    set_queueProcessing false m.

(** The ["reload"] listener: [this.startWeb3(); this.lastWalletRefresh = 0]. *)
Definition onReload (m : Manager) : Manager :=
  set_lastWalletRefresh (Some 0) (startWeb3 m).

(** *** Runs

    What can happen to a constructed manager, one event-loop turn at a
    time: a caller adds a claim, the interval fires a tick, a receipt
    promise settles, a queued history job or an eviction timer runs, the
    wallet is loaded, the process asks for a reload. *)

Inductive Op :=
| OpAdd (now : Z) (target : string) (amount : Z) (sessId : string)
| OpTick (reply : TickReply)
| OpReceipt (r : nat) (outcome : Settled) (polls : list PollReply)
| OpHistory (r : nat)
| OpTimer (i : nat)
| OpLoad (reply : LoadReply)
| OpReload.

Definition step (op : Op) (m : Manager) : Manager :=
  match op with
  | OpAdd now target amount sessId =>
      fst (addClaimTransaction now target amount sessId m)
  | OpTick reply => processQueue reply m
  | OpReceipt r outcome polls =>
      if decide (r ∈ receiptWatchers m)
      then receiptSettled r outcome polls m
      else m
  | OpHistory r => runHistoryJob r m
  | OpTimer i => fireTimer i m
  | OpLoad reply => loadWalletState reply m
  | OpReload => onReload m
  end.

Fixpoint run (ops : list Op) (m : Manager) : Manager :=
  match ops with
  | [] => m
  | op :: ops => run ops (step op m)
  end.

(** The claims reachable from the manager's three containers. *)
Definition liveClaims (m : Manager) : list nat :=
  claimTxQueue m
  ++ (map_to_list (pendingTxQueue m)).*2
  ++ (map_to_list (historyTxDict m)).*2.

(** At most one claim object per session id among the live claims. *)
Definition oneClaimPerSession (m : Manager) : Prop :=
  forall r1 r2 c1 c2,
    r1 ∈ liveClaims m -> r2 ∈ liveClaims m ->
    claims m !! r1 = Some c1 -> claims m !! r2 = Some c2 ->
    session c1 = session c2 -> r1 = r2.

(** No claim created so far bears the session id [s]. *)
Definition sessionUnused (s : string) (m : Manager) : bool :=
  forallb (fun c => negb (String.eqb (session c) s)) (claims m).

(** Every [addClaimTransaction] of the run is called with a session id
    that no claim created before it bears. *)
Fixpoint addsFresh (ops : list Op) (m : Manager) : bool :=
  match ops with
  | [] => true
  | op :: ops =>
      match op with
      | OpAdd _ _ _ sessId => sessionUnused sessId m
      | _ => true
      end
      && addsFresh ops (step op m)
  end.

(** The claims the manager or one of its callbacks still refers to:
    those of the three containers, and those whose receipt watcher has a
    callback to run, which are entered into the history map by its last
    one. *)
Definition tracked (m : Manager) : list nat :=
  liveClaims m ++ receiptWatchers m ++ historyJobs m.

(** A tracked claim bears the session id [s]. *)
Definition sessionTracked (s : string) (m : Manager) : bool :=
  existsb (fun r => bool_decide (session <$> claims m !! r = Some s))
    (tracked m).

(** No two claims among [l] bear the same session id. *)
Definition distinctAmong (l : list nat) (m : Manager) : Prop :=
  Forall
    (fun r1 =>
       Forall
         (fun r2 =>
            is_Some (claims m !! r1) ->
            session <$> claims m !! r1 = session <$> claims m !! r2 ->
            r1 = r2)
         l)
    l.

(** No two tracked claims bear the same session id. *)
Definition trackedDistinct (m : Manager) : Prop :=
  distinctAmong (tracked m) m.

#[global] Instance distinctAmong_dec (l : list nat) (m : Manager) :
  Decision (distinctAmong l m).
Proof. unfold distinctAmong. apply _. Defined.

#[global] Instance trackedDistinct_dec (m : Manager) :
  Decision (trackedDistinct m).
Proof. unfold trackedDistinct. apply _. Defined.

(** Every [addClaimTransaction] of the run is called with a session id
    that no claim tracked at that moment bears. *)
Fixpoint addsUntracked (ops : list Op) (m : Manager) : bool :=
  match ops with
  | [] => true
  | op :: ops =>
      match op with
      | OpAdd _ _ _ sessId => negb (sessionTracked sessId m)
      | _ => true
      end
      && addsUntracked ops (step op m)
  end.

(** *** Queries *)

(** [Object.values(obj)]: the claims a map holds. The map does not record
    the order in which JavaScript enumerates the properties; what is
    proved about the two queries below holds whichever it is. *)
Definition objectValues {K} `{Countable K} (d : gmap K nat) : list nat :=
  (map_to_list d).*2.

(** [getTransactionQueue(queueOnly?)] *)
Definition getTransactionQueue (queueOnly : bool) (m : Manager) : list nat :=
  let txlist := claimTxQueue m in
  if negb queueOnly
  then txlist ++ objectValues (pendingTxQueue m)
              ++ objectValues (historyTxDict m)
  else txlist.

(** One [for] loop of [getClaimTransaction]: the first claim of [txs]
    whose session is [sessId]. *)
Definition findSession (sessId : string) (m : Manager) (txs : list nat)
    : option nat :=
  List.find (fun r => bool_decide (session <$> claims m !! r = Some sessId))
    txs.

(** [getClaimTransaction(sessId)]; [None] is [null]. *)
Definition getClaimTransaction (sessId : string) (m : Manager) : option nat :=
  match findSession sessId m (claimTxQueue m) with
  | Some r => Some r
  | None =>
      match findSession sessId m (objectValues (pendingTxQueue m)) with
      | Some r => Some r
      | None => findSession sessId m (objectValues (historyTxDict m))
      end
  end.

(** [getFaucetDecimals(native?)]:
    [((this.tokenState && !native) ? this.tokenState.decimals : 18) || 18] *)
Definition getFaucetDecimals (native : bool) (m : Manager) : Z :=
  let d :=
    match tokenState m with
    | Some tok => if negb native then decimals tok else 18
    | None => 18
    end in
  if Js.truthyZ d then d else 18.

End Manager.

(** ** Sample set-ups

    A native-coin faucet and an ERC-20 faucet with a vault contract, and
    stand-ins for the codec library, used to run the definitions on
    concrete inputs. *)

Module Sample.

Definition vault : RefillContractConfig :=
  {| contract := "0xVault";
     triggerBalance := 1000;
     overflowBalance := Some 5000;
     cooldownTime := Some 3600;
     requestAmount := 2000;
     allowanceFn := Some "getAllowance";
     allowanceFnArgs := None;
     checkContractBalance := OptBool true;
     contractDustBalance := None;
     withdrawFn := "withdraw";
     withdrawFnArgs := None;
     depositFn := None;
     depositFnArgs := None;
     withdrawGasLimit := Some 100000 |}.

Definition native : FaucetConfig :=
  {| ethLegacyTx := false;
     ethTxGasLimit := 21000;
     ethTxMaxFee := 10;
     ethTxPrioFee := 2;
     ethMaxPending := 2;
     ethQueueNoFunds := false;
     spareFundsAmount := 0;
     noFundsBalance := 100;
     lowFundsBalance := 1000;
     lowFundsWarning := OptBool true;
     noFundsError := OptBool true;
     rpcConnectionError := OptBool true;
     faucetCoinType := NATIVE;
     faucetCoinContract := "";
     ethRefillContract := Some vault |}.

Definition erc20 : FaucetConfig :=
  {| ethLegacyTx := true;
     ethTxGasLimit := 21000;
     ethTxMaxFee := 10;
     ethTxPrioFee := 2;
     ethMaxPending := 2;
     ethQueueNoFunds := true;
     spareFundsAmount := 0;
     noFundsBalance := 100;
     lowFundsBalance := 1000;
     lowFundsWarning := OptStr "low: {1}";
     noFundsError := OptBool false;
     rpcConnectionError := OptBool true;
     faucetCoinType := ERC20;
     faucetCoinContract := "0xToken";
     ethRefillContract := None |}.

Definition lib : Libs :=
  {| signTx := fun tx => "f86b" +:+ Js.bigint_toString (tx_nonce tx);
     getTransferData := fun addr amt => "a9059cbb" +:+ addr;
     encodeABI := fun fn args => fn |}.

Definition addr : string := "0xFaucet".

Definition loaded (nativeBal txCount tokenBal : Z) : LoadReply :=
  {| load_now := 1700000000000;
     load_result := LoadOk nativeBal txCount tokenBal |}.

Definition rejected (msg : string) : Js.Error := Js.mkError "Error" msg.

(** The node accepts the transaction at once. *)
Definition accepts (hash : string) : Z -> AttemptReply :=
  fun _ => {| at_build := BuildGasPrice 5;
              at_send := SendHash hash;
              at_reload := loaded 0 0 0 |}.

(** The node rejects every submission; the reloads see nonce [7]. *)
Definition refuses : Z -> AttemptReply :=
  fun i => {| at_build := BuildGasPrice 5;
              at_send :=
                SendThrows (rejected ("nonce too low #" +:+ Js.bigint_toString i));
              at_reload := loaded 10000000 7 10000000 |}.

(** The first submission is rejected, the second accepted. *)
Definition retries (hash : string) : Z -> AttemptReply :=
  fun i => if i =? 0 then refuses i else accepts hash i.

Definition receipt : TransactionReceipt :=
  {| blockNumber := 100; effectiveGasPrice := 3; gasUsed := 21000;
     rc_status := true |}.

Definition notMined : Js.Thrown :=
  Js.ErrorObj (rejected "Transaction was not mined within 750 seconds").

Definition noVault : VaultReply :=
  {| vr_allowance := inr 0; vr_contractBalance := inr 0;
     vr_build := BuildThrows (rejected "unused");
     vr_send := SendThrows (rejected "unused") |}.

Definition noRefill : RefillReply :=
  {| rf_now := 1700000000000; rf_unclaimed := 0; rf_vault := noVault;
     rf_now2 := 1700000000000; rf_receipt := Rejected notMined;
     rf_polls := []; rf_reload := loaded 0 0 0 |}.

(** A manager holding one queued claim of [amt] for session ["s1"], its
    wallet loaded with the given balances. *)
Definition withClaim (cfg : FaucetConfig) (nativeBal txCount tokenBal amt : Z)
    : Manager :=
  let m := startWeb3 cfg (initial []) in
  let m := loadWalletState cfg (loaded nativeBal txCount tokenBal) m in
  fst (addClaimTransaction 1700000000000 "0xAa" amt "s1" m).

(** The same manager with the claim taken off the queue, as
    [processQueue] does before it calls [processQueueTx]. *)
Definition dequeued (cfg : FaucetConfig) (nativeBal txCount tokenBal amt : Z)
    : Manager :=
  set_claimTxQueue [] (withClaim cfg nativeBal txCount tokenBal amt).

(** The manager after its one claim was submitted under hash ["0xh1"], and
the claim as it then is. *)
Definition pendingOne : Manager :=
  final (processQueueTx native lib 0 (accepts "0xh1")
           (dequeued native 10000000 5 0 1000)).


(** A native faucet whose wallet holds less than the refill trigger. *)
Definition poor : Manager :=
  loadWalletState native (loaded 500 5 0) (startWeb3 native (initial [])).

(** The vault accepts the withdraw transaction. *)
Definition vaultOk : VaultReply :=
  {| vr_allowance := inr 3000; vr_contractBalance := inr 5000000000;
     vr_build := BuildGasPrice 5; vr_send := SendHash "0xr1" |}.

(** A refill whose receipt promise resolves. *)
Definition refillMined : RefillReply :=
  {| rf_now := 1700000000000; rf_unclaimed := 0; rf_vault := vaultOk;
     rf_now2 := 1700000001000; rf_receipt := Resolved receipt;
     rf_polls := []; rf_reload := loaded 2500 6 0 |}.

(** A refill whose receipt promise rejects with "not mined within" and
whose receipt is then found by the second poll. *)
Definition refillUnmined : RefillReply :=
  {| rf_now := 1700000000000; rf_unclaimed := 0; rf_vault := vaultOk;
     rf_now2 := 1700000001000; rf_receipt := Rejected notMined;
     rf_polls := [PollNull; PollReceipt receipt];
     rf_reload := loaded 2500 6 0 |}.

(** A tick in which every dequeued claim is accepted at once and the
vault is out of reach. *)
Definition tick : TickReply :=
  {| tk_claims := fun k => accepts (if (k =? 0)%nat then "0xh1" else "0xh2");
     tk_now := 1700000002000;
     tk_reload := loaded 10000000 5 0;
     tk_refill := noRefill |}.

(** Two claims of different sessions go through the pipeline: added,
submitted by one tick, the first confirmed, recorded and evicted. *)
Definition twoSessions : list (Op) :=
  [OpLoad (loaded 10000000 5 0);
   OpAdd 1700000000000 "0xAa" 1000 "s1";
   OpAdd 1700000000500 "0xBb" 2000 "s2";
   OpTick tick;
   OpReceipt 0 (Resolved receipt) [];
   OpHistory 0;
   OpTimer 0].

(** The same session id is added twice. *)
Definition sameSession : list (Op) :=
  [OpAdd 1700000000000 "0xAa" 1000 "s1";
   OpAdd 1700000000500 "0xBb" 2000 "s1"].

(** A native faucet with two queued claims, of sessions ["s1"] and
["s2"]. *)
Definition twoQueued : Manager :=
  fst (addClaimTransaction 1700000000500 "0xBb" 2000 "s2"
         (withClaim native 10000000 5 0 1000)).

(** A vault without allowance function whose balance is read at another
address. *)
Definition plainVault : RefillContractConfig :=
  {| contract := "0xVault";
     triggerBalance := 1000;
     overflowBalance := None;
     cooldownTime := None;
     requestAmount := 2000;
     allowanceFn := None;
     allowanceFnArgs := None;
     checkContractBalance := OptStr "0xTreasury";
     contractDustBalance := Some 0;
     withdrawFn := "withdraw";
     withdrawFnArgs := None;
     depositFn := None;
     depositFnArgs := None;
     withdrawGasLimit := None |}.

(** The reads of the wallet load fail. *)
Definition unreachable : LoadReply :=
  {| load_now := 1700000000000;
     load_result :=
       LoadErr (Js.ErrorObj (rejected "CONNECTION ERROR: timeout")) |}.

(** A wallet load called while the provider is down: [this.web3] is
    [null] and the call throws. *)
Definition connectionLost : LoadReply :=
  {| load_now := 1700000002000;
     load_result :=
       LoadThrows
         (Js.TypeError "Cannot read properties of null (reading 'eth')") |}.

(** The connection to the node ends while the first submission is under
    way: the send is rejected, and the reload after the sleep finds the
    provider down. *)
Definition disconnects : Z -> AttemptReply :=
  fun _ => {| at_build := BuildGasPrice 5;
              at_send := SendThrows (rejected "connection not open on send()");
              at_reload := connectionLost |}.

(** From two queued claims: both are submitted by one tick, the first is
    confirmed, recorded and evicted, and then its session ["s1"] comes
    back with a new claim. *)
Definition sessionReturns : list (Op) :=
  [OpTick tick;
   OpReceipt 0 (Resolved receipt) [];
   OpHistory 0;
   OpTimer 0;
   OpAdd 1700001900000 "0xAa" 1500 "s1"].

(** The session ["s1"] comes back after the receipt of its claim has
    arrived and before the claim is entered into the history map. *)
Definition sessionReturnsEarly : list (Op) :=
  [OpLoad (loaded 10000000 5 0);
   OpAdd 1700000000000 "0xAa" 1000 "s1";
   OpTick tick;
   OpReceipt 0 (Resolved receipt) [];
   OpAdd 1700000003000 "0xAa" 1500 "s1";
   OpHistory 0].

(** Two adds made one after the other. *)
Definition twoAdds : list (Op) :=
  [OpAdd 1700000000000 "0xAa" 1000 "s1";
   OpAdd 1700000000500 "0xBb" 2000 "s2"].

End Sample.

(** ** Vocabulary of the statements *)

(** What a step of the pipeline leaves alone: everything but the claims'
    mutable fields, the wallet state, the refresh time and the log. *)
Definition sameRest (m m' : Manager) : Prop :=
  idents m' = idents m
  /\ tokenState m' = tokenState m
  /\ claimTxQueue m' = claimTxQueue m
  /\ pendingTxQueue m' = pendingTxQueue m
  /\ historyTxDict m' = historyTxDict m
  /\ queueStore m' = queueStore m
  /\ receiptWatchers m' = receiptWatchers m
  /\ historyJobs m' = historyJobs m
  /\ timers m' = timers m.


(** [m] with [evs] appended to its log. *)
Definition logged (m : Manager) (evs : list Event) : Manager :=
  set_events (events m ++ evs) m.

(** An event that is neither a send, nor a sleep, nor a wallet reload. *)
Definition quiet (e : Event) : Prop :=
  isSend e = false /\ isLoad e = false /\ forall ms, isSleep ms e = false.


(** No two claims created so far bear the same session id. *)
Definition sessionsDistinct (m : Manager) : bool :=
  bool_decide (NoDup (session <$> claims m)).

(** A poll after which [awaitTransactionReceipt] polls again: no receipt
    yet, or an exception whose text has "CONNECTION ERROR". *)
Definition retried (p : PollReply) : bool :=
  match p with
  | PollNull => true
  | PollReceipt _ => false
  | PollThrows ex => Js.contains "CONNECTION ERROR" (Js.toString ex)
  end.

(** How a poll that is not retried settles the promise. *)
Definition settles (p : PollReply) : option Settled :=
  match p with
  | PollNull => None
  | PollReceipt receipt => Some (Resolved receipt)
  | PollThrows ex => Some (Rejected ex)
  end.

Definition isPoll (e : Event) : bool :=
  match e with EvPollReceipt _ => true | _ => false end.

(** [m'] is [m] but for what the wallet loader and the refill controller
    write: the wallet state, the refresh time, the two refill times, the
    refill guard and the log. *)
Definition walletSide (m m' : Manager) : Prop :=
  m' = set_events (events m')
         (set_lastWalletRefillTry (lastWalletRefillTry m')
            (set_walletRefilling (walletRefilling m')
               (set_lastWalletRefill (lastWalletRefill m')
                  (set_lastWalletRefresh (lastWalletRefresh m')
                     (set_walletState (walletState m') m))))).

(** [m'] is [m] but for what building and sending a claim's transaction
    write: the fields of claims other than [queueIdx], the wallet state,
    the refresh time and the log. *)
Definition claimSide (m m' : Manager) : Prop :=
  queueIdx <$> claims m' = queueIdx <$> claims m
  /\ m' = set_events (events m')
            (set_lastWalletRefresh (lastWalletRefresh m')
               (set_walletState (walletState m')
                  (set_claims (claims m') m))).

(** The queue as its users see it: the claims' queue indices, the queue,
    and the two counters. *)
Definition sameQueueView (m m' : Manager) : Prop :=
  queueIdx <$> claims m' = queueIdx <$> claims m
  /\ claimTxQueue m' = claimTxQueue m
  /\ lastClaimTxIdx m' = lastClaimTxIdx m
  /\ lastProcessedClaimTxIdx m' = lastProcessedClaimTxIdx m.

(** The claim at position [i] of the queue bears the queue index
    [getLastProcessedClaimIdx() + 1 + i], and [lastClaimTxIdx] is the
    index the next claim will get. *)
Definition queueNumbered (m : Manager) : Prop :=
  exists k,
    getLastProcessedClaimIdx m = Some k
    /\ lastClaimTxIdx m = k + 1 + Z.of_nat (length (claimTxQueue m))
    /\ forall i r,
         claimTxQueue m !! i = Some r ->
         queueIdx <$> claims m !! r = Some (Some (k + 1 + Z.of_nat i)).

(** An [addClaimTransaction] made at a clock reading other than 0. *)
Definition isAdd (op : Op) : bool :=
  match op with
  | OpAdd now _ _ _ => negb (now =? 0)
  | _ => false
  end.

(** The manager runs without token state and its wallet, once loaded,
    holds one number as balance and as native balance. *)
Definition nativeBalanced (m : Manager) : Prop :=
  tokenState m = None
  /\ forall w, walletState m = Some w -> balance w = nativeBalance w.

(** ** Theorems *)

Lemma string_of_int_head (d : Decimal.int) :
  exists a s, NilZero.string_of_int d = String a s /\ a <> "+"%char.
Proof.
  destruct d as [u|u]; [destruct u|]; simpl; eauto 10.
Qed.

Lemma to_int_proper (z : Z) :
  Z.to_int z <> Decimal.Pos Decimal.Nil /\ Z.to_int z <> Decimal.Neg Decimal.Nil.
Proof.
  assert (Hnn : forall p, Pos.to_uint p <> Decimal.Nil).
  { intros p H. apply (f_equal Pos.of_uint) in H.
    rewrite DecimalPos.Unsigned.of_to in H. discriminate. }
  destruct z as [|p|p]; simpl; split; try discriminate;
    intros [= H]; exact (Hnn _ H).
Qed.

Lemma BigInt_bigint_toString (z : Z) :
  Js.BigInt (Js.bigint_toString z) = Some z.
Proof.
  unfold Js.BigInt, Js.bigint_toString.
  destruct (string_of_int_head (Z.to_int z)) as (a & s & Hs & Ha).
  destruct (to_int_proper z) as [Hp Hn].
  rewrite Hs.
  destruct (Ascii.eqb_spec a "+"%char) as [->|_]; [done|].
  rewrite <- Hs, NilZero.isi by assumption.
  simpl. f_equal. apply DecimalZ.of_to.
Qed.


(** *** Reading fields through the assignments *)

(** Project a field out of a chain of assignments. *)
Ltac fields :=
  cbn [claims walletState tokenState claimTxQueue pendingTxQueue
       historyTxDict lastWalletRefresh queueProcessing lastClaimTxIdx
       lastProcessedClaimTxIdx lastWalletRefill lastWalletRefillTry
       walletRefilling queueStore receiptWatchers historyJobs timers events
       set_claims set_walletState set_tokenState set_claimTxQueue
       set_pendingTxQueue set_historyTxDict set_lastWalletRefresh
       set_queueProcessing set_lastClaimTxIdx set_lastProcessedClaimTxIdx
       set_lastWalletRefill set_lastWalletRefillTry set_walletRefilling
       set_queueStore set_receiptWatchers set_historyJobs set_timers
       set_events emit claimEmit updClaim updWallet removeQueuedClaimTx
       addQueuedClaimTx logged final fst snd] in *.

Ltac claim_fields :=
  cbn [queueIdx status time target amount session c_nonce txhex txhash
       txblock txfee retryCount failReason set_queueIdx set_status
       set_c_nonce set_txhex set_txhash set_txblock set_txfee
       set_failReason] in *.

Ltac wallet_fields :=
  cbn [ready nonce balance nativeBalance set_nonce set_balance
       set_nativeBalance fmap option_fmap option_map] in *.

Lemma fmap_alter_keeps {A B} (f : A -> B) (g : A -> A) (l : list A) (i : nat) :
  (forall x, f (g x) = f x) -> f <$> alter g i l = f <$> l.
Proof.
  intros Hg. revert i. induction l as [|x l IH]; intros [|i]; cbn; try done.
  - by rewrite Hg.
  - by rewrite IH.
Qed.

Lemma alter_alter {A} (f g : A -> A) (l : list A) (i : nat) :
  alter g i (alter f i l) = alter (g ∘ f) i l.
Proof.
  revert i. induction l as [|x l IH]; intros [|i]; cbn; try done.
  by rewrite IH.
Qed.

Lemma filter_none {A} (P : A -> Prop) `{forall x, Decision (P x)} (l : list A) :
  Forall (fun x => ~ P x) l -> filter P l = [].
Proof.
  induction 1 as [|x l Hx _ IH]; [done|].
  by rewrite filter_cons_False.
Qed.

Lemma idents_updClaim (r : nat) (f : ClaimTx -> ClaimTx) (m : Manager) :
  keepsIdent f -> idents (updClaim r f m) = idents m.
Proof. intros Hf. unfold idents; fields. by apply fmap_alter_keeps. Qed.

Lemma keepsIdent_status s : keepsIdent (set_status s).
Proof. by intros []. Qed.
Lemma keepsIdent_failReason s : keepsIdent (set_failReason s).
Proof. by intros []. Qed.
Lemma keepsIdent_nonce s : keepsIdent (set_c_nonce s).
Proof. by intros []. Qed.
Lemma keepsIdent_txhex s : keepsIdent (set_txhex s).
Proof. by intros []. Qed.
Lemma keepsIdent_txhash s : keepsIdent (set_txhash s).
Proof. by intros []. Qed.
Lemma keepsIdent_txblock s : keepsIdent (set_txblock s).
Proof. by intros []. Qed.
Lemma keepsIdent_txfee s : keepsIdent (set_txfee s).
Proof. by intros []. Qed.

Create HintDb ident.

#[local] Hint Resolve keepsIdent_status keepsIdent_failReason keepsIdent_nonce
  keepsIdent_txhex keepsIdent_txhash keepsIdent_txblock keepsIdent_txfee
  : ident.

(** Same identities, same lookups up to identity. *)
Lemma idents_lookup (m m' : Manager) (r : nat) (c : ClaimTx) :
  idents m' = idents m -> claims m !! r = Some c ->
  exists c', claims m' !! r = Some c' /\ ident c' = ident c.
Proof.
  unfold idents. intros Hi Hc.
  assert (H : (ident <$> claims m') !! r = Some (ident c))
    by (rewrite Hi, list_lookup_fmap, Hc; done).
  rewrite list_lookup_fmap in H.
  destruct (claims m' !! r) as [c'|]; [|done].
  exists c'. split; [done|]. cbn in H. congruence.
Qed.

Ltac solve_quiet :=
  repeat (apply Forall_cons_2; [by repeat split|]); apply Forall_nil_2.

Lemma filter_false {A} (p : A -> bool) (l : list A) :
  Forall (fun x => p x = false) l -> List.filter p l = [].
Proof. induction 1 as [|x l Hx _ IH]; cbn; [done|]. by rewrite Hx. Qed.

Lemma quiet_filter (evs : list Event) :
  Forall quiet evs ->
  List.filter isSend evs = []
  /\ List.filter isLoad evs = []
  /\ forall ms, List.filter (isSleep ms) evs = [].
Proof.
  intros H. repeat split; [| |intros ms]; apply filter_false;
    (eapply Forall_impl; [exact H|]); by intros e (?&?&?).
Qed.

Lemma logged_nil (m : Manager) : logged m [] = m.
Proof. destruct m; unfold logged; cbn. by rewrite app_nil_r. Qed.

Lemma emit_logged1 (e : Event) (m : Manager) : emit e m = logged m [e].
Proof. reflexivity. Qed.

Lemma logged_logged (m : Manager) (evs evs' : list Event) :
  logged (logged m evs) evs' = logged m (evs ++ evs').
Proof. destruct m; unfold logged; cbn. by rewrite app_assoc. Qed.

Lemma set_walletState_logged (v : option WalletState) (m : Manager)
    (evs : list Event) :
  set_walletState v (logged m evs) = logged (set_walletState v m) evs.
Proof. reflexivity. Qed.

Lemma emit_logged (e : Event) (m : Manager) (evs : list Event) :
  emit e (logged m evs) = logged m (evs ++ [e]).
Proof. by rewrite emit_logged1, logged_logged. Qed.

(** *** Round trip of the stored form *)

(** C9 (as amended): serialising a claim and rebuilding it with the
    constructor's restore step always succeeds and returns the same target,
    amount and session; it returns the same time unless the claim's time
    value is 0, which the constructor's [date ? ... : ...] test takes for an
    absent date and replaces by the current clock reading. *)
Theorem serialize_restore (now : Z) (c : ClaimTx) :
  exists c',
    restoreClaimTx now (serialize c) = Some c'
    /\ target c' = target c
    /\ amount c' = amount c
    /\ session c' = session c
    /\ time c' = (if time c =? 0 then now else time c).
Proof.
  unfold restoreClaimTx, serialize; cbn [q_amount q_target q_session q_time].
  rewrite BigInt_bigint_toString; cbn [mbind option_bind].
  eexists; split; [reflexivity|].
  cbn [newClaimTx target amount session time Js.truthyOptZ Js.truthyZ default].
  repeat split. unfold Js.truthyZ. by destruct (time c =? 0).
Qed.

(** C9, the claim as stated fails: a claim created at the epoch comes back
    with the time of the restore. *)
Lemma serialize_restore_epoch :
  let c := newClaimTx 0 "0xAa" 5 "s1" None in
  exists c',
    restoreClaimTx 1700000000000 (serialize c) = Some c'
    /\ time c = 0
    /\ time c' = 1700000000000.
Proof. eexists; repeat split. Qed.

Section Properties.

Context (cfg : FaucetConfig) (lib : Libs) (walletAddr : string).

(** *** Status publisher *)

(** C3: for every wallet state the publisher's status is [OFFLINE] when the
    wallet is not ready; otherwise [NOFUNDS] when the token balance is at
    most [noFundsBalance] or the native balance is at most
    [ethTxGasLimit * ethTxMaxFee]; otherwise [LOWFUNDS] when the token
    balance is at most [lowFundsBalance]; otherwise [NORMAL]; and this is
    the status whose message [updateFaucetStatus] publishes. *)
Theorem walletStatus_tiers (m : Manager) (w : WalletState) :
  let st := walletStatus cfg (Some w) in
  let gasReserve := ethTxGasLimit cfg * ethTxMaxFee cfg in
  (ready w = false -> st = OFFLINE)
  /\ (ready w = true ->
      balance w <= noFundsBalance cfg \/ nativeBalance w <= gasReserve ->
      st = NOFUNDS)
  /\ (ready w = true ->
      ~ (balance w <= noFundsBalance cfg \/ nativeBalance w <= gasReserve) ->
      balance w <= lowFundsBalance cfg ->
      st = LOWFUNDS)
  /\ (ready w = true ->
      ~ (balance w <= noFundsBalance cfg \/ nativeBalance w <= gasReserve) ->
      ~ balance w <= lowFundsBalance cfg ->
      st = NORMAL)
  /\ events (updateFaucetStatus cfg (set_walletState (Some w) m))
     = events m
       ++ [EvSetFaucetStatus "wallet" (statusMessage cfg st).1
             (statusMessage cfg st).2].
Proof.
  cbv zeta. unfold walletStatus.
  repeat split.
  - by intros ->.
  - intros -> [H|H]; cbn [negb];
      repeat (case_match; try done); lia.
  - intros -> H1 H2; cbn [negb]; repeat (case_match; try done); lia.
  - intros -> H1 H2; cbn [negb]; repeat (case_match; try done); lia.
  - unfold updateFaucetStatus; cbn [walletState set_walletState].
    by destruct (statusMessage cfg _).
Qed.

(** *** Balances *)

(** C10: when the stored balance that [getFaucetBalance(native?)] reads is
    exactly zero it returns [null], for the native and for the token
    variant alike, which is also what it returns while the wallet state is
    unassigned. *)
Theorem getFaucetBalance_zero (native : bool) (m : Manager) (w : WalletState) :
  walletState m = Some w ->
  (if native then nativeBalance w else balance w) = 0 ->
  getFaucetBalance native m = None
  /\ getFaucetBalance native m
     = getFaucetBalance native (set_walletState None m).
Proof.
  intros Hw Hz. unfold getFaucetBalance.
  rewrite Hw, Hz. by cbn.
Qed.

(** *** Claims refused before submission *)

Lemma failClaim_lookup (r : nat) (reason : string) (m : Manager) (c : ClaimTx) :
  claims m !! r = Some c ->
  claims (failClaim r reason m) !! r
  = Some (set_status FAILED (set_failReason (Some reason) c)).
Proof.
  intros Hc. unfold failClaim; fields.
  by rewrite !list_lookup_alter_eq, Hc.
Qed.

Lemma cannotPay_true (w : WalletState) (amt : Z) :
  ready w = false
  \/ balance w - spareFundsAmount cfg < amt
  \/ nativeBalance w <= ethTxGasLimit cfg * ethTxMaxFee cfg ->
  ready w = true -> cannotPay cfg w amt = true.
Proof.
  unfold cannotPay. intros Hcase Hr. rewrite Hr.
  destruct Hcase as [H|[H|H]]; [congruence| |]; cbn [negb orb].
  - apply Z.ltb_lt in H. by rewrite H.
  - apply Z.leb_le in H. rewrite H. by destruct (_ <? _).
Qed.

(** C8: a claim handed to [processQueueTx] while the wallet is not ready,
    or while [tokenBalance - spareFundsAmount < amount], or while
    [nativeBalance <= ethTxGasLimit * ethTxMaxFee], ends [FAILED] with a
    reason, [removeQueuedClaimTx] is called with its session and no entry
    of that session is left in the durable store; the only events are the
    emitted ["failed"] and that call (no ["processing"], no signing, no
    send, no reload), the claim's nonce, hex and hash stay as they were,
    and the wallet state, the queue and both maps are unchanged. *)
Theorem processQueueTx_refuses (r : nat) (replies : Z -> AttemptReply)
    (m : Manager) (w : WalletState) (c : ClaimTx) :
  walletState m = Some w ->
  claims m !! r = Some c ->
  ready w = false
  \/ balance w - spareFundsAmount cfg < amount c
  \/ nativeBalance w <= ethTxGasLimit cfg * ethTxMaxFee cfg ->
  exists m' reason,
    processQueueTx cfg lib r replies m = Returned m'
    /\ claims m' !! r
       = Some (set_status FAILED (set_failReason (Some reason) c))
    /\ queueStore m'
       = filter (fun q => q_session q <> session c) (queueStore m)
    /\ (forall q, q ∈ queueStore m' -> q_session q <> session c)
    /\ events m'
       = events m ++ [EvEmit r "failed"; EvRemoveQueuedClaimTx (session c)]
    /\ walletState m' = walletState m
    /\ claimTxQueue m' = claimTxQueue m
    /\ pendingTxQueue m' = pendingTxQueue m
    /\ historyTxDict m' = historyTxDict m.
Proof.
  intros Hw Hc Hcase. unfold processQueueTx. rewrite Hw, Hc.
  pose proof (cannotPay_true w (amount c) Hcase) as Hcp.
  destruct (ready w) eqn:Hr; cbn [negb].
  - rewrite Hcp by done.
    eexists _, _. split; [reflexivity|].
    split; [fields; by apply failClaim_lookup|].
    split; [reflexivity|].
    split; [intros q Hq; fields; by apply list_elem_of_filter in Hq as [? _]|].
    split; [|done].
    unfold failClaim; fields. by rewrite <- app_assoc.
  - eexists _, _. split; [reflexivity|].
    split; [fields; by apply failClaim_lookup|].
    split; [reflexivity|].
    split; [intros q Hq; fields; by apply list_elem_of_filter in Hq as [? _]|].
    split; [|done].
    unfold failClaim; fields. by rewrite <- app_assoc.
Qed.

(** *** The submission loop *)

Lemma sameRest_refl (m : Manager) : sameRest m m.
Proof. by repeat split. Qed.

Lemma sameRest_trans (m1 m2 m3 : Manager) :
  sameRest m1 m2 -> sameRest m2 m3 -> sameRest m1 m3.
Proof.
  unfold sameRest. intros H1 H2.
  destruct H1 as (?&?&?&?&?&?&?&?&?), H2 as (?&?&?&?&?&?&?&?&?).
  repeat split; congruence.
Qed.

Lemma sameRest_events (m : Manager) (e : Event) : sameRest m (emit e m).
Proof. by repeat split. Qed.

Lemma sameRest_updClaim (r : nat) (f : ClaimTx -> ClaimTx) (m : Manager) :
  keepsIdent f -> sameRest m (updClaim r f m).
Proof.
  intros Hf. split; [by apply idents_updClaim|]. by repeat split.
Qed.

Lemma updateFaucetStatus_events (m : Manager) :
  exists e, updateFaucetStatus cfg m = emit e m.
Proof.
  unfold updateFaucetStatus. destruct (statusMessage cfg _); eauto.
Qed.

Lemma updateFaucetStatus_logged (m : Manager) :
  exists e, quiet e /\ updateFaucetStatus cfg m = logged m [e].
Proof.
  unfold updateFaucetStatus. destruct (statusMessage cfg _).
  eexists; split; [|reflexivity]. by repeat split.
Qed.

(** A wallet load that throws has written the refresh time only. *)
Lemma loadWalletState_throws (reply : LoadReply) (m : Manager)
    (ex : Js.Thrown) :
  loadThrows reply = Some ex ->
  loadWalletState cfg reply m
  = set_lastWalletRefresh (Some (load_now reply / 1000)) m.
Proof.
  unfold loadThrows, loadWalletState, loadWalletFinish, loadWalletStart.
  by destruct (load_result reply).
Qed.

Lemma buildEthTx_fst (tgt : string) (amt n : Z) (data : option string)
    (gasLimit : option Z) (reply : BuildReply) (m : Manager) :
  exists evs,
    Forall quiet evs
    /\ (buildEthTx cfg lib tgt amt n data gasLimit reply m).1 = logged m evs.
Proof.
  unfold buildEthTx.
  destruct reply, (ethLegacyTx cfg); cbn [fst];
    rewrite ?emit_logged1, ?logged_logged;
    eexists; (split; [|first [reflexivity | symmetry; apply logged_nil]]);
    solve_quiet.
Qed.

Lemma buildEthTx_snd (tgt : string) (amt n : Z) (data : option string)
    (gasLimit : option Z) (reply : BuildReply) (m : Manager) :
  match reply with
  | BuildThrows e =>
      (buildEthTx cfg lib tgt amt n data gasLimit reply m).2 = inl e
  | BuildGasPrice _ =>
      exists hex,
        (buildEthTx cfg lib tgt amt n data gasLimit reply m).2 = inr hex
  end.
Proof. unfold buildEthTx. destruct reply; cbn [snd]; eauto. Qed.

Lemma updClaim_logged (r : nat) (f : ClaimTx -> ClaimTx) (m : Manager)
    (evs : list Event) :
  updClaim r f (logged m evs) = logged (updClaim r f m) evs.
Proof. reflexivity. Qed.

Lemma updClaim_updClaim (r : nat) (f g : ClaimTx -> ClaimTx) (m : Manager) :
  updClaim r g (updClaim r f m) = updClaim r (g ∘ f) m.
Proof.
  unfold updClaim; fields. by rewrite alter_alter.
Qed.

Lemma keepsIdent_compose (f g : ClaimTx -> ClaimTx) :
  keepsIdent f -> keepsIdent g -> keepsIdent (g ∘ f).
Proof. intros Hf Hg c. cbn. by rewrite Hg, Hf. Qed.

(** The [try] block, for a loaded wallet and an allocated claim: it
    assigns to the claim, logs, and fails exactly when the replies say so. *)
Lemma trySubmit_form (r : nat) (reply : AttemptReply) (m : Manager)
    (w : WalletState) (c : ClaimTx) :
  walletState m = Some w ->
  claims m !! r = Some c ->
  exists f evs res,
    trySubmit cfg lib r reply m = (logged (updClaim r f m) evs, res)
    /\ keepsIdent f
    /\ c_nonce (f c) = Some (nonce w)
    /\ status (f c) = status c
    /\ (length (List.filter isSend evs) <= 1)%nat
    /\ List.filter isLoad evs = []
    /\ (forall ms, List.filter (isSleep ms) evs = [])
    /\ res = match attemptError reply, at_send reply with
             | Some e, _ => inl e
             | None, SendHash h => inr h
             | None, SendThrows e => inl e
             end
    /\ (forall h, res = inr h -> txhash (f c) = Some h).
Proof.
  intros Hw Hc. unfold trySubmit, buildTx, attemptError. rewrite Hw, Hc.
  fields.
  set (m0 := updClaim r (set_c_nonce (Some (nonce w))) m).
  assert (Hgoal : forall tgt amt data,
    exists f evs res,
      match buildEthTx cfg lib tgt amt (nonce w) data None (at_build reply) m0
      with
      | (m1, inl ex) => (m1, inl ex)
      | (m1, inr hex) =>
          match sendTransaction hex (at_send reply)
                  (updClaim r (set_txhex (Some hex)) m1) with
          | (m2, inl ex) => (m2, inl ex)
          | (m2, inr hash) =>
              (updClaim r (set_txhash (Some hash)) m2, inr hash)
          end
      end = (logged (updClaim r f m) evs, res)
      /\ keepsIdent f
      /\ c_nonce (f c) = Some (nonce w)
      /\ status (f c) = status c
      /\ (length (List.filter isSend evs) <= 1)%nat
      /\ List.filter isLoad evs = []
      /\ (forall ms, List.filter (isSleep ms) evs = [])
      /\ res = match
                 match at_build reply with
                 | BuildThrows e => Some e
                 | BuildGasPrice _ =>
                     match at_send reply with
                     | SendThrows e => Some e
                     | SendHash _ => None
                     end
                 end, at_send reply with
               | Some e, _ => inl e
               | None, SendHash h => inr h
               | None, SendThrows e => inl e
               end
      /\ (forall h, res = inr h -> txhash (f c) = Some h)).
  { intros tgt amt data.
    destruct (buildEthTx_fst tgt amt (nonce w) data None (at_build reply) m0)
      as (evs & Hq & Hfst).
    pose proof (buildEthTx_snd tgt amt (nonce w) data None (at_build reply) m0)
      as Hsnd.
    destruct (quiet_filter evs Hq) as (Hq1 & Hq2 & Hq3).
    destruct (buildEthTx cfg lib tgt amt (nonce w) data None (at_build reply) m0)
      as [m1 rb].
    cbn [fst snd] in *. subst m1 m0.
    destruct (at_build reply) as [g|e].
    - destruct Hsnd as [hex ->]. unfold sendTransaction.
      rewrite updClaim_logged, updClaim_updClaim, emit_logged.
      destruct (at_send reply) as [h|e].
      + rewrite updClaim_logged, updClaim_updClaim.
        eexists _, _, _. split; [reflexivity|].
        split; [by intros []|]. split; [done|]. split; [done|].
        rewrite !List.filter_app, Hq1, Hq2. cbn.
        split; [lia|]. split; [done|].
        split; [intros ms; by rewrite List.filter_app, Hq3|].
        split; [done|]. intros h' [= ->]. done.
      + eexists _, _, _. split; [reflexivity|].
        split; [by intros []|]. split; [done|]. split; [done|].
        rewrite !List.filter_app, Hq1, Hq2. cbn.
        split; [lia|]. split; [done|].
        split; [intros ms; by rewrite List.filter_app, Hq3|].
        split; [done|]. intros h' [=].
    - rewrite Hsnd. eexists _, _, _. split; [reflexivity|].
      split; [by intros []|]. split; [done|]. split; [done|].
      rewrite Hq1, Hq2. cbn.
      split; [lia|]. split; [done|]. split; [done|].
      split; [done|]. intros h' [=]. }
  destruct (tokenState m); apply Hgoal.
Qed.

Lemma countEvents_logged (p : Event -> bool) (m : Manager)
    (evs : list Event) :
  countEvents p (logged m evs)
  = (countEvents p m + length (List.filter p evs))%nat.
Proof.
  unfold countEvents, logged; fields.
  by rewrite List.filter_app, length_app.
Qed.

(** Reloading the wallet reads nothing but the token mode, and writes the
    wallet state, the refresh time and three quiet events around one
    [EvLoadWallet]. *)
Lemma loadWalletState_form (reply : LoadReply) (m : Manager) :
  loadThrows reply = None ->
  exists w e1 e2,
    quiet e1 /\ quiet e2
    /\ loadWalletState cfg reply m
       = logged
           (set_walletState (Some w)
              (set_lastWalletRefresh (Some (load_now reply / 1000)) m))
           [EvLoadWallet; e1; e2].
Proof.
  unfold loadThrows, loadWalletState, loadWalletFinish, loadWalletStart.
  destruct (load_result reply) as [nb tc tb|err|err]; [| |done]; intros _;
    match goal with
    | |- context [updateFaucetStatus cfg ?X] =>
        destruct (updateFaucetStatus_logged X) as (e & He & ->)
    end.
  - exists {| ready := true; nonce := tc;
              balance := match tokenState m with
                         | Some _ => tb
                         | None => nb
                         end;
              nativeBalance := nb |}, (EvLog LogInfo), e.
    split; [by repeat split|]. split; [done|].
    rewrite !emit_logged1, set_walletState_logged, !logged_logged.
    reflexivity.
  - exists {| ready := false; nonce := 0; balance := 0; nativeBalance := 0 |},
      (EvLog LogError), e.
    split; [by repeat split|]. split; [done|].
    rewrite !emit_logged1, set_walletState_logged, !logged_logged.
    reflexivity.
Qed.

(** A failed pass keeps the wallet loaded and the claim allocated, sleeps
    once for two seconds, sends at most once, and issues the reads of one
    reload unless the reload throws. *)
Lemma failedPass_facts (r : nat) (reply : AttemptReply) (m : Manager)
    (w : WalletState) (c : ClaimTx) :
  walletState m = Some w ->
  claims m !! r = Some c ->
  let m' := failedPass cfg lib r reply m in
  sameRest m m'
  /\ (exists w', walletState m' = Some w')
  /\ (exists c', claims m' !! r = Some c' /\ ident c' = ident c
                 /\ c_nonce c' = Some (nonce w) /\ status c' = status c)
  /\ countEvents (isSleep 2000) m' = S (countEvents (isSleep 2000) m)
  /\ countEvents isLoad m'
     = match loadThrows (at_reload reply) with
       | None => S (countEvents isLoad m)
       | Some _ => countEvents isLoad m
       end
  /\ (countEvents isSend m' <= S (countEvents isSend m))%nat.
Proof.
  intros Hw Hc. cbv zeta. unfold failedPass.
  destruct (trySubmit_form r reply m w c Hw Hc)
    as (f & evs & res & -> & Hf & Hn & Hs & Hsend & Hload & Hsleep & _ & _).
  cbn [fst]. rewrite !emit_logged.
  destruct (loadThrows (at_reload reply)) as [ex|] eqn:Hthrows.
  - rewrite (loadWalletState_throws _ _ ex Hthrows).
    split; [split; [by apply idents_updClaim|by repeat split]|].
    split; [fields; eauto|].
    split.
    { fields. rewrite list_lookup_alter_eq, Hc.
      eexists; split; [reflexivity|]. by rewrite Hf. }
    unfold countEvents; fields.
    rewrite !List.filter_app, !length_app, Hload, !Hsleep.
    cbn [List.filter isSleep isLoad isSend]. cbn. lia.
  - destruct (loadWalletState_form (at_reload reply)
                (logged (updClaim r f m)
                   ((evs ++ [EvLog LogError]) ++ [EvSleep 2000])) Hthrows)
      as (w' & e1 & e2 & (Ha1 & Ha2 & Ha3) & (Hb1 & Hb2 & Hb3) & ->).
    split; [split; [by apply idents_updClaim|by repeat split]|].
    split; [fields; eauto|].
    split.
    { fields. rewrite list_lookup_alter_eq, Hc.
      eexists; split; [reflexivity|]. by rewrite Hf. }
    unfold countEvents; fields.
    rewrite !List.filter_app, !length_app, Hload, !Hsleep.
    cbn [List.filter isSleep isLoad isSend].
    rewrite Ha1, Ha2, Ha3, Hb1, Hb2, Hb3. cbn. lia.
Qed.

(** One unfolding of the loop when the pass fails. *)
Lemma submitLoop_fails (fuel : nat) (replies : Z -> AttemptReply) (r : nat)
    (k : Z) (txError : option Js.Error) (m : Manager) (ex : Js.Error) :
  (trySubmit cfg lib r (replies k) m).2 = inl ex ->
  submitLoop cfg lib (S fuel) replies r k txError m
  = match loadThrows (at_reload (replies k)) with
    | Some ex' =>
        Some (failedPass cfg lib r (replies k) m, ReloadThrew ex')
    | None =>
        if k <? 3
        then submitLoop cfg lib fuel replies r (k + 1)
               (Some (default ex txError))
               (failedPass cfg lib r (replies k) m)
        else Some (failedPass cfg lib r (replies k) m,
                   GaveUp (Some (default ex txError)))
    end.
Proof.
  intros H. cbn [submitLoop]. unfold failedPass.
  destruct (trySubmit cfg lib r (replies k) m) as [m1 res].
  cbn [fst snd] in *. subst res. by destruct txError.
Qed.

(** One unfolding of the loop when the pass obtains a hash. *)
Lemma submitLoop_succeeds (fuel : nat) (replies : Z -> AttemptReply)
    (r : nat) (k : Z) (txError : option Js.Error) (m : Manager) (h : string) :
  (trySubmit cfg lib r (replies k) m).2 = inr h ->
  submitLoop cfg lib (S fuel) replies r k txError m
  = Some ((trySubmit cfg lib r (replies k) m).1, Submitted).
Proof.
  intros H. cbn [submitLoop].
  destruct (trySubmit cfg lib r (replies k) m) as [m1 res].
  cbn [fst snd] in *. by subst res.
Qed.

(** The loop ends within the fuel [processQueueTx] gives it. *)
Lemma submitLoop_total (fuel : nat) (replies : Z -> AttemptReply) (r : nat)
    (k : Z) (txError : option Js.Error) (m : Manager) :
  0 <= k -> (1 <= fuel)%nat -> 4 - k <= Z.of_nat fuel ->
  is_Some (submitLoop cfg lib fuel replies r k txError m).
Proof.
  revert k txError m.
  induction fuel as [|fuel IH]; intros k txError m Hk H1 Hf.
  - lia.
  - cbn [submitLoop].
    destruct (trySubmit cfg lib r (replies k) m) as [m1 [ex|h]]; [|eauto].
    destruct (loadThrows (at_reload (replies k))); [eauto|].
    destruct (k <? 3) eqn:E; [|eauto].
    apply IH; lia.
Qed.

(** When the loop ends with a hash, the wallet is loaded and the claim
    carries the hash and the nonce of that wallet state. *)
Lemma submitLoop_submitted (fuel : nat) (replies : Z -> AttemptReply)
    (r : nat) (k : Z) (txError : option Js.Error) (m m1 : Manager)
    (w : WalletState) (c : ClaimTx) :
  walletState m = Some w ->
  claims m !! r = Some c ->
  submitLoop cfg lib fuel replies r k txError m = Some (m1, Submitted) ->
  sameRest m m1
  /\ exists w1 c1 h,
       walletState m1 = Some w1
       /\ claims m1 !! r = Some c1
       /\ txhash c1 = Some h
       /\ c_nonce c1 = Some (nonce w1)
       /\ ident c1 = ident c
       /\ status c1 = status c.
Proof.
  revert k txError m w c.
  induction fuel as [|fuel IH]; intros k txError m w c Hw Hc Hloop; [done|].
  destruct (trySubmit_form r (replies k) m w c Hw Hc)
    as (f & evs & res & Htry & Hf & Hn & Hs & _ & _ & _ & _ & Hh).
  destruct res as [ex|h].
  - rewrite (submitLoop_fails _ _ _ _ _ _ ex) in Hloop by by rewrite Htry.
    destruct (loadThrows (at_reload (replies k))); [done|].
    destruct (k <? 3); [|done].
    destruct (failedPass_facts r (replies k) m w c Hw Hc)
      as (Hrest & [w' Hw'] & (c' & Hc' & Hid & _ & Hst) & _).
    destruct (IH _ _ _ _ _ Hw' Hc' Hloop)
      as (Hrest' & w1 & c1 & h & ? & ? & ? & ? & ? & ?).
    split; [by eapply sameRest_trans|].
    exists w1, c1, h. repeat split; try done; congruence.
  - rewrite (submitLoop_succeeds _ _ _ _ _ _ h) in Hloop by by rewrite Htry.
    injection Hloop as <-. rewrite Htry. cbn [fst].
    split; [split; [by apply idents_updClaim|by repeat split]|].
    exists w, (f c), h. fields.
    rewrite list_lookup_alter_eq, Hc. repeat split; auto.
Qed.

(** *** Submission *)

(** [startWeb3] leaves the token state absent exactly in native mode. *)
Lemma startWeb3_tokenState (m : Manager) :
  tokenState (startWeb3 cfg m) = None <-> faucetCoinType cfg = NATIVE.
Proof.
  unfold startWeb3, initWeb3Token.
  destruct (faucetCoinType cfg); cbn; split; done.
Qed.

(** C1: when the submission loop of [processQueueTx] ends with a hash,
    the method returns, and relative to the wallet state in which the hash
    was obtained the nonce is one higher, the token balance is lower by the
    claim's amount, and the native balance is lower by the amount exactly
    when the coin type is native; the pending map holds the claim at its
    hash, [removeQueuedClaimTx] has been called with its session and the
    durable store holds no entry of it, the claim's status is [PENDING]
    (set after the status was published and the store entry removed, and
    followed by the emitted ["pending"]) and its receipt watcher is
    registered. The token
    state is absent exactly in native mode, as [startWeb3] leaves it. *)
Theorem processQueueTx_submits (r : nat) (replies : Z -> AttemptReply)
    (m m1 : Manager) (w : WalletState) (c : ClaimTx) :
  walletState m = Some w ->
  claims m !! r = Some c ->
  ready w = true ->
  cannotPay cfg w (amount c) = false ->
  (tokenState m = None <-> faucetCoinType cfg = NATIVE) ->
  submitLoop cfg lib 4 replies r 0 None
    (claimEmit r "processing" (updClaim r (set_status PROCESSING) m))
  = Some (m1, Submitted) ->
  exists m' w1 c1 h,
    processQueueTx cfg lib r replies m = Returned m'
    /\ walletState m1 = Some w1
    /\ claims m1 !! r = Some c1
    /\ txhash c1 = Some h
    /\ amount c1 = amount c
    /\ session c1 = session c
    /\ walletState m'
       = Some {| ready := ready w1;
                 nonce := nonce w1 + 1;
                 balance := balance w1 - amount c;
                 nativeBalance :=
                   if decide (faucetCoinType cfg = NATIVE)
                   then nativeBalance w1 - amount c
                   else nativeBalance w1 |}
    /\ pendingTxQueue m' !! Some h = Some r
    /\ queueStore m'
       = filter (fun q => q_session q <> session c) (queueStore m)
    /\ (forall q, q ∈ queueStore m' -> q_session q <> session c)
    /\ claims m' !! r = Some (set_status PENDING c1)
    /\ r ∈ receiptWatchers m'
    /\ exists published,
         events m'
         = events m1
           ++ [published; EvRemoveQueuedClaimTx (session c);
               EvLog LogInfo; EvEmit r "pending"].
Proof.
  intros Hw Hc Hr Hpay Htok Hloop.
  unfold processQueueTx. rewrite Hw, Hc, Hr, Hpay. cbn [negb].
  rewrite Hloop.
  set (m0 := claimEmit r "processing"
                (updClaim r (set_status PROCESSING) m)) in *.
  assert (Hw0 : walletState m0 = Some w) by exact Hw.
  assert (Hc0 : claims m0 !! r = Some (set_status PROCESSING c))
    by (subst m0; fields; by rewrite list_lookup_alter_eq, Hc).
  destruct (submitLoop_submitted 4 replies r 0 None m0 m1 w _ Hw0 Hc0 Hloop)
    as (Hrest & w1 & c1 & h & Hw1 & Hc1 & Hh & Hn & Hid & Hst).
  subst m0.
  destruct Hrest as (_ & Ht & _ & _ & _ & Hstore & _).
  fields.
  assert (Hamt : amount c1 = amount c /\ session c1 = session c)
    by (unfold ident in Hid; claim_fields; split; congruence).
  destruct Hamt as [Hamt Hsess].
  unfold afterSubmit. rewrite Hw1, Hc1.
  destruct (updateFaucetStatus_logged
              (match tokenState
                       (updWallet
                          (fun w0 => set_balance (balance w0 - amount c1) w0)
                          (updWallet (fun w0 => set_nonce (nonce w0 + 1) w0)
                             m1)) with
               | Some _ =>
                   updWallet
                     (fun w0 => set_balance (balance w0 - amount c1) w0)
                     (updWallet (fun w0 => set_nonce (nonce w0 + 1) w0) m1)
               | None =>
                   updWallet
                     (fun w0 =>
                        set_nativeBalance (nativeBalance w0 - amount c1) w0)
                     (updWallet
                        (fun w0 => set_balance (balance w0 - amount c1) w0)
                        (updWallet (fun w0 => set_nonce (nonce w0 + 1) w0)
                           m1))
               end)) as (e & _ & ->).
  eexists _, w1, c1, h. split; [reflexivity|].
  do 5 (split; [done|]).
  fields. rewrite Hh, Hsess, Hamt.
  assert (Hcoin : tokenState m1 = None <-> faucetCoinType cfg = NATIVE)
    by (rewrite Ht; fields; exact Htok).
  split.
  { destruct (tokenState m1) eqn:E; fields; rewrite Hw1; wallet_fields;
      case_decide; try done; f_equal.
    - exfalso. apply Hcoin in H. done.
    - exfalso. apply H, Hcoin. done. }
  split.
  { destruct (tokenState m1); fields; by rewrite lookup_insert_eq. }
  split.
  { destruct (tokenState m1); fields; by rewrite Hstore. }
  split.
  { intros q Hq. destruct (tokenState m1); fields;
      by apply list_elem_of_filter in Hq as [? _]. }
  split.
  { destruct (tokenState m1); fields;
      by rewrite list_lookup_alter_eq, Hc1. }
  split.
  { destruct (tokenState m1); fields;
      rewrite elem_of_app, list_elem_of_singleton; by right. }
  exists e. destruct (tokenState m1); fields; by rewrite <- !app_assoc.
Qed.

(** *** Giving up *)


(** *** Receipt watcher *)

Lemma awaitTransactionReceipt_logged (polls : list PollReply)
    (h : option string) (m : Manager) :
  exists evs, (awaitTransactionReceipt polls h m).1 = logged m evs.
Proof.
  revert m.
  induction polls as [|p polls IH]; intros m; cbn [awaitTransactionReceipt].
  - exists []. by rewrite logged_nil.
  - destruct p as [|receipt|ex].
    + destruct (IH (emit (EvLog LogWarning)
                      (emit (EvPollReceipt h) (emit (EvSleep 30000) m))))
        as [evs ->].
      rewrite !emit_logged1, !logged_logged. eauto.
    + cbn [fst]. rewrite !emit_logged1, !logged_logged. eauto.
    + destruct (Js.contains _ _).
      * destruct (IH (emit (EvPollReceipt h) (emit (EvSleep 30000) m)))
          as [evs ->].
        rewrite !emit_logged1, !logged_logged. eauto.
      * cbn [fst]. rewrite !emit_logged1, !logged_logged. eauto.
Qed.

Lemma orPolled_logged (outcome : Settled) (polls : list PollReply)
    (h : option string) (m : Manager) :
  exists evs, (orPolled outcome polls h m).1 = logged m evs.
Proof.
  unfold orPolled. destruct outcome as [receipt|ex].
  - exists []. by rewrite logged_nil.
  - destruct (Js.contains _ _).
    + apply awaitTransactionReceipt_logged.
    + exists []. by rewrite logged_nil.
Qed.

Lemma hashOf_logged (m : Manager) (evs : list Event) (r : nat) :
  hashOf (logged m evs) r = hashOf m r.
Proof. reflexivity. Qed.





Lemma lookup_snoc {A} (l : list A) (x : A) : (l ++ [x]) !! length l = Some x.
Proof. rewrite lookup_app_r by lia. by rewrite Nat.sub_diag. Qed.



(** *** Refill controller *)



(** C6, what the code does: a refill whose receipt promise rejects with
    "Transaction was not mined within" and whose receipt is then obtained
    by polling (status true) completes with [walletRefilling] still set,
    because the callback that clears it is attached to the rejected
    promise; every later call of [tryRefillWallet] returns at the guard.
    The same refill with a resolving receipt promise clears the flag. *)
Theorem tryRefillWallet_guard_stuck (later : RefillReply) :
  let run := tryRefillWallet Sample.native Sample.lib Sample.addr in
  let stuck := final (run Sample.refillUnmined Sample.poor) in
  walletRefilling Sample.poor = false
  /\ walletRefilling stuck = true
  /\ lastWalletRefill stuck = Some 1700000001
  /\ run later stuck = Returned stuck
  /\ walletRefilling (final (run Sample.refillMined Sample.poor)) = false.
Proof.
  cbv zeta.
  split; [vm_compute; reflexivity|].
  assert (Hs : walletRefilling
                 (final (tryRefillWallet Sample.native Sample.lib Sample.addr
                           Sample.refillUnmined Sample.poor)) = true)
    by (vm_compute; reflexivity).
  split; [exact Hs|].
  split; [vm_compute; reflexivity|].
  split; [|vm_compute; reflexivity].
  unfold tryRefillWallet at 1. cbn [ethRefillContract Sample.native].
  unfold refillGuarded. by rewrite Hs.
Qed.

(** *** Claim identities are never reassigned *)

Lemma idents_logged (m : Manager) (evs : list Event) :
  idents (logged m evs) = idents m.
Proof. reflexivity. Qed.

Lemma idents_updateFaucetStatus (m : Manager) :
  idents (updateFaucetStatus cfg m) = idents m.
Proof. by destruct (updateFaucetStatus_logged m) as (e & _ & ->). Qed.

Lemma idents_loadWalletState (reply : LoadReply) (m : Manager) :
  idents (loadWalletState cfg reply m) = idents m.
Proof.
  destruct (loadThrows reply) as [ex|] eqn:Hthrows.
  - by rewrite (loadWalletState_throws _ _ ex Hthrows).
  - by destruct (loadWalletState_form reply m Hthrows)
      as (w & e1 & e2 & _ & _ & ->).
Qed.

Lemma idents_failClaim (r : nat) (reason : string) (m : Manager) :
  idents (failClaim r reason m) = idents m.
Proof.
  unfold failClaim, claimEmit.
  change (idents (emit ?e ?m0)) with (idents m0).
  rewrite !idents_updClaim; auto with ident.
Qed.

Lemma idents_buildEthTx (tgt : string) (amt n : Z) (data : option string)
    (gasLimit : option Z) (reply : BuildReply) (m : Manager) :
  idents (buildEthTx cfg lib tgt amt n data gasLimit reply m).1 = idents m.
Proof.
  by destruct (buildEthTx_fst tgt amt n data gasLimit reply m)
    as (evs & _ & ->).
Qed.

Lemma idents_sendTransaction (hex : string) (reply : SendReply) (m : Manager) :
  idents (sendTransaction hex reply m).1 = idents m.
Proof. unfold sendTransaction. by destruct reply. Qed.

Lemma idents_trySubmit (r : nat) (reply : AttemptReply) (m : Manager) :
  idents (trySubmit cfg lib r reply m).1 = idents m.
Proof.
  unfold trySubmit, buildTx.
  destruct (walletState m) as [w|]; [|done].
  destruct (claims m !! r) as [c|]; [|done].
  assert (H : forall bt : Manager * (Js.Error + string),
            idents bt.1 = idents m ->
            idents
              (match bt with
               | (m0, inl ex) => (m0, inl ex)
               | (m0, inr hex) =>
                   match sendTransaction hex (at_send reply)
                           (updClaim r (set_txhex (Some hex)) m0) with
                   | (m1, inl ex) => (m1, inl ex)
                   | (m1, inr hash) =>
                       (updClaim r (set_txhash (Some hash)) m1, inr hash)
                   end
               end).1 = idents m).
  { intros [m0 [ex|hex]] H0; [done|]. cbn [fst] in H0.
    pose proof (idents_sendTransaction hex (at_send reply)
                  (updClaim r (set_txhex (Some hex)) m0)) as Hs.
    destruct (sendTransaction _ _ _) as [m1 [ex|hash]]; cbn [fst] in *.
    - rewrite Hs, idents_updClaim; auto with ident.
    - rewrite idents_updClaim, Hs, idents_updClaim; auto with ident. }
  fields.
  destruct (tokenState m); apply H;
    rewrite idents_buildEthTx, idents_updClaim; auto with ident.
Qed.

Lemma idents_submitLoop (fuel : nat) (replies : Z -> AttemptReply) (r : nat)
    (k : Z) (txError : option Js.Error) (m m' : Manager) (e : LoopExit) :
  submitLoop cfg lib fuel replies r k txError m = Some (m', e) ->
  idents m' = idents m.
Proof.
  revert k txError m.
  induction fuel as [|fuel IH]; intros k txError m H; [done|].
  cbn [submitLoop] in H.
  pose proof (idents_trySubmit r (replies k) m) as Ht.
  destruct (trySubmit cfg lib r (replies k) m) as [m1 [ex|h]];
    cbn [fst] in Ht.
  - destruct (loadThrows (at_reload (replies k))); [|destruct (k <? 3)].
    + injection H as <- _. rewrite idents_loadWalletState. exact Ht.
    + apply IH in H. rewrite H, idents_loadWalletState. exact Ht.
    + injection H as <- _. rewrite idents_loadWalletState. exact Ht.
  - by injection H as <- _.
Qed.

Lemma idents_afterSubmit (r : nat) (m m' : Manager) :
  afterSubmit cfg r m = inr m' -> idents m' = idents m.
Proof.
  unfold afterSubmit.
  destruct (walletState m) as [w|]; [|done].
  destruct (claims m !! r) as [c|]; [|done].
  intros [= <-]. unfold idents. fields.
  rewrite fmap_alter_keeps by apply keepsIdent_status.
  match goal with
  | |- context [updateFaucetStatus cfg ?X] =>
      destruct (updateFaucetStatus_logged X) as (e & _ & ->)
  end.
  fields. by destruct (tokenState m).
Qed.

Lemma idents_processQueueTx (r : nat) (replies : Z -> AttemptReply)
    (m : Manager) :
  idents (final (processQueueTx cfg lib r replies m)) = idents m.
Proof.
  unfold processQueueTx.
  destruct (walletState m) as [w|]; [|done].
  destruct (claims m !! r) as [c|]; [|done].
  destruct (negb (ready w)).
  { cbn [final].
    change (idents (removeQueuedClaimTx ?e ?m0)) with (idents m0).
    apply idents_failClaim. }
  destruct (cannotPay cfg w (amount c)).
  { cbn [final].
    change (idents (removeQueuedClaimTx ?e ?m0)) with (idents m0).
    apply idents_failClaim. }
  set (m0 := claimEmit r "processing"
               (updClaim r (set_status PROCESSING) m)).
  assert (H0 : idents m0 = idents m)
    by (subst m0; apply idents_updClaim; auto with ident).
  destruct (submitLoop cfg lib 4 replies r 0 None m0)
    as [[m1 [|[txError|]|ex']]|] eqn:Hloop; [| | | |done].
  - apply idents_submitLoop in Hloop.
    destruct (afterSubmit cfg r m1) as [ex|m2] eqn:Ha; cbn [final].
    + unfold processingException. rewrite idents_failClaim. congruence.
    + apply idents_afterSubmit in Ha. congruence.
  - apply idents_submitLoop in Hloop. cbn [final].
    unfold processingException. rewrite idents_failClaim. congruence.
  - apply idents_submitLoop in Hloop. cbn [final]. congruence.
  - apply idents_submitLoop in Hloop. cbn [final].
    unfold processingException. rewrite idents_failClaim. congruence.
Qed.

Lemma idents_drainQueue (fuel : nat) (replies : nat -> Z -> AttemptReply)
    (k : nat) (m : Manager) (res : Completion) :
  drainQueue cfg lib fuel replies k m = Some res ->
  idents (final res) = idents m.
Proof.
  revert k m. induction fuel as [|fuel IH]; intros k m H.
  - cbn [drainQueue] in H.
    destruct (_ <? _); [|by injection H as <-].
    destruct (claimTxQueue m) as [|r rest]; [by injection H as <-|].
    destruct (pauseForFunds cfg r m) as [ex|[|]];
      [by injection H as <-|by injection H as <-|done].
  - cbn [drainQueue] in H.
    destruct (_ <? _); [|by injection H as <-].
    destruct (claimTxQueue m) as [|r rest]; [by injection H as <-|].
    destruct (pauseForFunds cfg r m) as [ex|[|]];
      [by injection H as <-|by injection H as <-|].
    match type of H with
    | context [processQueueTx cfg lib r (replies k) ?M] =>
        pose proof (idents_processQueueTx r (replies k) M) as Hp;
        destruct (processQueueTx cfg lib r (replies k) M) as [m1|m1 ex]
    end; cbn [final] in Hp.
    + apply IH in H. by rewrite H, Hp.
    + injection H as <-. cbn [final]. by rewrite Hp.
Qed.

Lemma idents_vaultTx (rc : RefillContractConfig) (value : Z)
    (data : option string) (reply : VaultReply) (m : Manager) :
  idents (vaultTx cfg lib rc value data reply m).1 = idents m.
Proof.
  unfold vaultTx. destruct (walletState m) as [w|]; [|done].
  pose proof (idents_buildEthTx (contract rc) value (nonce w) data
                (withdrawGasLimit rc) (vr_build reply) m) as Hb.
  destruct (buildEthTx _ _ _ _ _ _ _ _ _) as [m1 [ex|hex]];
    cbn [fst] in *; [done|].
  pose proof (idents_sendTransaction hex (vr_send reply) m1) as Hs.
  destruct (sendTransaction _ _ _) as [m2 [ex|h]]; cbn [fst] in *;
    unfold idents in *; fields; congruence.
Qed.

Lemma idents_refillWallet (rc : RefillContractConfig) (reply : VaultReply)
    (m : Manager) :
  idents (refillWallet cfg lib walletAddr rc reply m).1 = idents m.
Proof.
  unfold refillWallet.
  repeat match goal with
         | |- context [if ?b then _ else _] => destruct b
         | |- context [match ?x with inl _ => _ | inr _ => _ end] =>
             destruct x
         end; cbn [fst]; rewrite ?idents_vaultTx; done.
Qed.

Lemma idents_overflowWallet (rc : RefillContractConfig) (amt : Z)
    (reply : VaultReply) (m : Manager) :
  idents (overflowWallet cfg lib walletAddr rc amt reply m).1 = idents m.
Proof. unfold overflowWallet. apply idents_vaultTx. Qed.

Lemma idents_orPolled (outcome : Settled) (polls : list PollReply)
    (h : option string) (m : Manager) :
  idents (orPolled outcome polls h m).1 = idents m.
Proof. by destruct (orPolled_logged outcome polls h m) as [evs ->]. Qed.

Lemma idents_refillAttempt (rc : RefillContractConfig) (action : string)
    (walletBalance : Z) (reply : RefillReply) (m : Manager) :
  idents (refillAttempt cfg lib walletAddr rc action walletBalance reply m)
  = idents m.
Proof.
  unfold refillAttempt.
  assert (Hv : idents (vaultAction cfg lib walletAddr rc action walletBalance
                         (rf_vault reply) m).1 = idents m).
  { unfold vaultAction. repeat case_decide; [apply idents_refillWallet| |done].
    destruct (overflowBalance rc); [apply idents_overflowWallet|done]. }
  destruct (vaultAction _ _ _ _ _ _ _ _) as [m1 [ex|h]]; cbn [fst] in Hv;
    unfold awaitRefill; [exact Hv|].
  match goal with
  | |- context [orPolled ?o ?p ?h ?M] =>
      pose proof (idents_orPolled o p h M) as Ho;
      destruct (orPolled o p h M) as [m2 [[receipt|ex]|]]
  end; cbn [fst] in Ho;
    (assert (Ho' : idents m2 = idents m) by (rewrite Ho; exact Hv)).
  - destruct (negb (rc_status receipt)); [exact Ho'|].
    unfold refillReceiptCallbacks.
    destruct (rf_receipt reply) as [receipt'|ex]; [|exact Ho'].
    destruct (negb (rc_status receipt')); [exact Ho'|].
    unfold loadThrows, loadWalletFinish, loadWalletStart.
    destruct (load_result _); rewrite ?idents_updateFaucetStatus; exact Ho'.
  - exact Ho'.
  - exact Ho'.
Qed.

Lemma idents_tryRefillWallet (reply : RefillReply) (m : Manager) :
  idents (final (tryRefillWallet cfg lib walletAddr reply m)) = idents m.
Proof.
  unfold tryRefillWallet.
  destruct (ethRefillContract cfg) as [rc|]; [|done].
  destruct (refillGuarded _ _ _); [done|].
  fields. destruct (walletState m) as [w|]; [|done].
  destruct (refillAction _ _) as [action|]; [|done].
  cbn [final]. by rewrite idents_refillAttempt.
Qed.

Lemma idents_afterDrain (reply : TickReply) (m : Manager) :
  idents (final (afterDrain cfg lib walletAddr reply m)) = idents m.
Proof.
  unfold afterDrain.
  destruct (walletState m) as [w|]; [|done].
  cbv zeta.
  match goal with
  | |- context [if ?b then loadWalletState cfg ?l m else m] =>
      generalize b; intros reloads;
      set (m1 := if reloads then loadWalletState cfg l m else m);
      assert (H1 : idents m1 = idents m)
        by (subst m1; destruct reloads; [apply idents_loadWalletState|done])
  end.
  destruct (if reloads then loadThrows _ else None); [done|].
  destruct (ethRefillContract cfg); [|done].
  destruct (walletState m1) as [w1|]; [|done].
  destruct (ready w1); [|done].
  by rewrite idents_tryRefillWallet.
Qed.

Lemma idents_processQueue (reply : TickReply) (m : Manager) :
  idents (processQueue cfg lib walletAddr reply m) = idents m.
Proof.
  unfold processQueue. destruct (queueProcessing m); [done|].
  change (idents (set_queueProcessing false ?M)) with (idents M).
  destruct (drainQueue _ _ _ _ _ _) as [res|] eqn:Hd; [|done].
  apply idents_drainQueue in Hd.
  destruct res as [m1|m1 ex]; cbn [final] in Hd.
  - pose proof (idents_afterDrain reply m1) as Ha.
    destruct (afterDrain _ _ _ _ _) as [m2|m2 ex]; cbn [final] in Ha;
      (transitivity (idents m1); [exact Ha|exact Hd]).
  - exact Hd.
Qed.

Lemma idents_receiptSettled (r : nat) (outcome : Settled)
    (polls : list PollReply) (m : Manager) :
  idents (receiptSettled r outcome polls m) = idents m.
Proof.
  unfold receiptSettled.
  pose proof (idents_orPolled outcome polls (hashOf m r) m) as Ho.
  destruct (orPolled _ _ _ _) as [m1 [[receipt|ex]|]]; cbn [fst] in Ho.
  - rewrite <- Ho. unfold queueHistoryJob, onReceipt, idents. fields.
    destruct (tokenState m1); fields;
      rewrite !fmap_alter_keeps; auto with ident.
  - rewrite <- Ho. unfold queueHistoryJob, onError, failClaim, idents. fields.
    rewrite !fmap_alter_keeps; auto with ident.
  - exact Ho.
Qed.

Lemma idents_step (op : Op) (m : Manager) :
  match op with
  | OpAdd now tgt amt sessId =>
      idents (step cfg lib walletAddr op m)
      = idents m ++ [(now, tgt, amt, sessId)]
  | _ => idents (step cfg lib walletAddr op m) = idents m
  end.
Proof.
  destruct op as [now tgt amt sessId|reply|r outcome polls|r|i|reply|];
    cbn [step].
  - unfold addClaimTransaction, pushClaim, idents. fields.
    rewrite fmap_app. cbn [fmap list_fmap ident]. claim_fields.
    unfold ident. claim_fields. unfold newClaimTx. by claim_fields.
  - apply idents_processQueue.
  - case_decide; [apply idents_receiptSettled|done].
  - unfold runHistoryJob. by case_decide.
  - unfold fireTimer. by destruct (timers m !! i).
  - apply idents_loadWalletState.
  - unfold onReload, startWeb3, initWeb3Token.
    case_decide; [|done]. by destruct (faucetCoinType cfg).
Qed.

(** *** The dequeuing loop ends

    [processQueueTx] never writes [claimTxQueue], so each turn of the
    [while] loop of [processQueue] shortens the queue by one. *)

Lemma queue_loadWalletState (reply : LoadReply) (m : Manager) :
  claimTxQueue (loadWalletState cfg reply m) = claimTxQueue m.
Proof.
  destruct (loadThrows reply) as [ex|] eqn:Hthrows.
  - by rewrite (loadWalletState_throws _ _ ex Hthrows).
  - by destruct (loadWalletState_form reply m Hthrows)
      as (w & e1 & e2 & _ & _ & ->).
Qed.

Lemma queue_buildEthTx (tgt : string) (amt n : Z) (data : option string)
    (gasLimit : option Z) (reply : BuildReply) (m : Manager) :
  claimTxQueue (buildEthTx cfg lib tgt amt n data gasLimit reply m).1
  = claimTxQueue m.
Proof.
  by destruct (buildEthTx_fst tgt amt n data gasLimit reply m)
    as (evs & _ & ->).
Qed.

Lemma queue_sendTransaction (hex : string) (reply : SendReply) (m : Manager) :
  claimTxQueue (sendTransaction hex reply m).1 = claimTxQueue m.
Proof. unfold sendTransaction. by destruct reply. Qed.

Lemma queue_trySubmit (r : nat) (reply : AttemptReply) (m : Manager) :
  claimTxQueue (trySubmit cfg lib r reply m).1 = claimTxQueue m.
Proof.
  unfold trySubmit, buildTx.
  destruct (walletState m) as [w|]; [|done].
  destruct (claims m !! r) as [c|]; [|done].
  assert (H : forall bt : Manager * (Js.Error + string),
            claimTxQueue bt.1 = claimTxQueue m ->
            claimTxQueue
              (match bt with
               | (m0, inl ex) => (m0, inl ex)
               | (m0, inr hex) =>
                   match sendTransaction hex (at_send reply)
                           (updClaim r (set_txhex (Some hex)) m0) with
                   | (m1, inl ex) => (m1, inl ex)
                   | (m1, inr hash) =>
                       (updClaim r (set_txhash (Some hash)) m1, inr hash)
                   end
               end).1 = claimTxQueue m).
  { intros [m0 [ex|hex]] H0; [done|]. cbn [fst] in H0.
    pose proof (queue_sendTransaction hex (at_send reply)
                  (updClaim r (set_txhex (Some hex)) m0)) as Hs.
    destruct (sendTransaction _ _ _) as [m1 [ex|hash]]; cbn [fst] in *;
      fields; by rewrite Hs. }
  fields. destruct (tokenState m); apply H; by rewrite queue_buildEthTx.
Qed.

Lemma queue_submitLoop (fuel : nat) (replies : Z -> AttemptReply) (r : nat)
    (k : Z) (txError : option Js.Error) (m m' : Manager) (e : LoopExit) :
  submitLoop cfg lib fuel replies r k txError m = Some (m', e) ->
  claimTxQueue m' = claimTxQueue m.
Proof.
  revert k txError m.
  induction fuel as [|fuel IH]; intros k txError m H; [done|].
  cbn [submitLoop] in H.
  pose proof (queue_trySubmit r (replies k) m) as Ht.
  destruct (trySubmit cfg lib r (replies k) m) as [m1 [ex|h]];
    cbn [fst] in Ht.
  - destruct (loadThrows (at_reload (replies k))); [|destruct (k <? 3)].
    + injection H as <- _. rewrite queue_loadWalletState. exact Ht.
    + apply IH in H. rewrite H, queue_loadWalletState. exact Ht.
    + injection H as <- _. rewrite queue_loadWalletState. exact Ht.
  - by injection H as <- _.
Qed.

Lemma queue_afterSubmit (r : nat) (m m' : Manager) :
  afterSubmit cfg r m = inr m' -> claimTxQueue m' = claimTxQueue m.
Proof.
  unfold afterSubmit.
  destruct (walletState m) as [w|]; [|done].
  destruct (claims m !! r) as [c|]; [|done].
  intros [= <-]. fields.
  match goal with
  | |- context [updateFaucetStatus cfg ?X] =>
      destruct (updateFaucetStatus_logged X) as (e & _ & ->)
  end.
  fields. by destruct (tokenState m).
Qed.

Lemma queue_processQueueTx (r : nat) (replies : Z -> AttemptReply)
    (m : Manager) :
  claimTxQueue (final (processQueueTx cfg lib r replies m)) = claimTxQueue m.
Proof.
  unfold processQueueTx.
  destruct (walletState m) as [w|]; [|done].
  destruct (claims m !! r) as [c|]; [|done].
  destruct (negb (ready w)); [done|].
  destruct (cannotPay cfg w (amount c)); [done|].
  set (m0 := claimEmit r "processing"
               (updClaim r (set_status PROCESSING) m)).
  assert (H0 : claimTxQueue m0 = claimTxQueue m) by done.
  destruct (submitLoop cfg lib 4 replies r 0 None m0)
    as [[m1 [|[txError|]|ex']]|] eqn:Hloop; [| | | |done].
  - apply queue_submitLoop in Hloop.
    destruct (afterSubmit cfg r m1) as [ex|m2] eqn:Ha; cbn [final].
    + unfold processingException, failClaim. fields. congruence.
    + apply queue_afterSubmit in Ha. congruence.
  - apply queue_submitLoop in Hloop. cbn [final].
    unfold processingException, failClaim. fields. congruence.
  - apply queue_submitLoop in Hloop. cbn [final]. congruence.
  - apply queue_submitLoop in Hloop. cbn [final].
    unfold processingException, failClaim. fields. congruence.
Qed.

(** The fuel [processQueue] gives the loop, the length of the queue, is
    enough for it to end. *)
Lemma drainQueue_total (fuel : nat) (replies : nat -> Z -> AttemptReply)
    (k : nat) (m : Manager) :
  (length (claimTxQueue m) <= fuel)%nat ->
  is_Some (drainQueue cfg lib fuel replies k m).
Proof.
  revert k m. induction fuel as [|fuel IH]; intros k m Hlen.
  - cbn [drainQueue]. destruct (_ <? _); [|eauto].
    destruct (claimTxQueue m) as [|r rest]; [eauto|].
    cbn [length] in Hlen. lia.
  - cbn [drainQueue]. destruct (_ <? _); [|eauto].
    destruct (claimTxQueue m) as [|r rest] eqn:Hq; [eauto|].
    destruct (pauseForFunds cfg r m) as [ex|[|]]; [eauto|eauto|].
    match goal with
    | |- context [processQueueTx cfg lib r (replies k) ?M] =>
        pose proof (queue_processQueueTx r (replies k) M) as Hp;
        destruct (processQueueTx cfg lib r (replies k) M) as [m1|m1 ex]
    end; [|eauto].
    cbn [final] in Hp. apply IH. rewrite Hp. cbn [length] in Hlen.
    change (claimTxQueue (set_lastProcessedClaimTxIdx ?x ?M))
      with (claimTxQueue M).
    change (claimTxQueue (set_claimTxQueue rest m)) with rest. lia.
Qed.

(** A tick always runs its loop to the end: [processQueue] never falls
    back on the exhausted-fuel branch. *)
Lemma processQueue_drains (reply : TickReply) (m : Manager) :
  is_Some
    (drainQueue cfg lib (length (claimTxQueue m)) (tk_claims reply) O
       (set_queueProcessing true m)).
Proof. by apply drainQueue_total. Qed.

(** *** Session ids of the claims created in a run *)

Lemma sessions_idents (m : Manager) :
  session <$> claims m = snd <$> idents m.
Proof.
  unfold idents. rewrite <- list_fmap_compose. by apply list_fmap_ext.
Qed.

Lemma sessionUnused_spec (s : string) (m : Manager) :
  sessionUnused s m = true -> s ∉ session <$> claims m.
Proof.
  unfold sessionUnused. intros H Hin.
  apply list_elem_of_fmap in Hin as (c & -> & Hc).
  rewrite forallb_forall in H. apply list_elem_of_In in Hc.
  apply H in Hc. rewrite String.eqb_refl in Hc. done.
Qed.

Lemma sessionsDistinct_step (op : Op) (m : Manager) :
  NoDup (session <$> claims m) ->
  match op with
  | OpAdd _ _ _ sessId => sessionUnused sessId m = true
  | _ => True
  end ->
  NoDup (session <$> claims (step cfg lib walletAddr op m)).
Proof.
  intros Hnd Hfresh. pose proof (idents_step op m) as Hi.
  rewrite sessions_idents.
  destruct op; rewrite Hi; rewrite <- ?sessions_idents; try done.
  rewrite fmap_app, <- sessions_idents. cbn [fmap list_fmap snd].
  apply NoDup_app. split; [done|]. split; [|apply NoDup_singleton].
  intros s Hs Hs'. apply list_elem_of_singleton in Hs' as ->.
  by apply sessionUnused_spec in Hfresh.
Qed.

Lemma sessionsDistinct_run (ops : list Op) (m : Manager) :
  NoDup (session <$> claims m) ->
  addsFresh cfg lib walletAddr ops m = true ->
  NoDup (session <$> claims (run cfg lib walletAddr ops m)).
Proof.
  revert m. induction ops as [|op ops IH]; intros m Hnd Hf; [done|].
  cbn [run addsFresh] in *. apply andb_true_iff in Hf as [Hop Hf].
  apply IH; [|done]. apply sessionsDistinct_step; [done|].
  by destruct op.
Qed.

(** The restored queue bears the stored session ids in order. *)
Lemma restoreQueue_sessions (now : Z) (stored : list IQueuedClaimTx)
    (m m' : Manager) :
  restoreQueue now stored m = Some m' ->
  session <$> claims m' = (session <$> claims m) ++ (q_session <$> stored).
Proof.
  revert m. induction stored as [|q stored IH]; intros m H; cbn in H.
  - injection H as <-. cbn. by rewrite app_nil_r.
  - unfold restoreClaimTx in H.
    destruct (Js.BigInt (q_amount q)) as [a|]; [|done]. cbn in H.
    apply IH in H. rewrite H. unfold pushClaim. fields.
    rewrite fmap_app. cbn. by rewrite <- app_assoc.
Qed.

(** ** Further properties of the code *)

(** *** Looking a claim up by its session *)

Lemma findSession_Some (s : string) (m : Manager) (txs : list nat) (r : nat) :
  findSession s m txs = Some r ->
  r ∈ txs /\ session <$> claims m !! r = Some s.
Proof.
  unfold findSession. intros H. apply List.find_some in H as [Hin Hb].
  split; [by apply list_elem_of_In|]. by apply bool_decide_eq_true in Hb.
Qed.

Lemma findSession_None (s : string) (m : Manager) (txs : list nat) :
  findSession s m txs = None ->
  forall r, r ∈ txs -> session <$> claims m !! r <> Some s.
Proof.
  unfold findSession. intros H r Hin Hs.
  apply list_elem_of_In in Hin.
  pose proof (List.find_none _ _ H r Hin) as Hb. cbn in Hb.
  by apply bool_decide_eq_false in Hb.
Qed.

Lemma findSession_app (s : string) (m : Manager) (l1 l2 : list nat) :
  findSession s m (l1 ++ l2)
  = match findSession s m l1 with
    | Some r => Some r
    | None => findSession s m l2
    end.
Proof.
  unfold findSession. induction l1 as [|x l1 IH]; cbn; [done|].
  by destruct (bool_decide _).
Qed.

Lemma getClaimTransaction_app (s : string) (m : Manager) :
  getClaimTransaction s m = findSession s m (getTransactionQueue false m).
Proof.
  unfold getClaimTransaction, getTransactionQueue. cbn [negb].
  by rewrite !findSession_app.
Qed.

(** X1: the claim [getClaimTransaction(sessId)] returns bears the session
    id and is one of the claims [getTransactionQueue()] lists; it returns
    [null] only when no claim of the queue, of the pending map or of the
    history map bears the session id. *)
Theorem getClaimTransaction_found (sessId : string) (m : Manager) :
  match getClaimTransaction sessId m with
  | Some r =>
      r ∈ getTransactionQueue false m
      /\ session <$> claims m !! r = Some sessId
  | None =>
      forall r, r ∈ getTransactionQueue false m ->
                session <$> claims m !! r <> Some sessId
  end.
Proof.
  rewrite getClaimTransaction_app.
  destruct (findSession sessId m (getTransactionQueue false m)) as [r|] eqn:H.
  - by apply findSession_Some.
  - by apply findSession_None.
Qed.

(** X2: a claim added for a session id that no queued claim bears is the
    claim [getClaimTransaction] returns for that session id from then on,
    also when the pending map or the history map holds an older claim of
    the session: the queue is searched first. *)
Theorem getClaimTransaction_add (now : Z) (tgt : string) (amt : Z)
    (sessId : string) (m : Manager) :
  Forall (fun r => session <$> claims m !! r <> Some sessId)
    (claimTxQueue m) ->
  let added := addClaimTransaction now tgt amt sessId m in
  getClaimTransaction sessId added.1 = Some added.2
  /\ claims added.1 !! added.2
     = Some (set_queueIdx (Some (lastClaimTxIdx m))
               (newClaimTx now tgt amt sessId None)).
Proof.
  intros Hq. rewrite Forall_forall in Hq. cbv zeta.
  set (added := addClaimTransaction now tgt amt sessId m).
  set (new := set_queueIdx (Some (lastClaimTxIdx m))
                (newClaimTx now tgt amt sessId None)).
  assert (Hc : claims added.1 = claims m ++ [new]) by reflexivity.
  assert (Hqueue : claimTxQueue added.1
                   = claimTxQueue m ++ [length (claims m)]) by reflexivity.
  assert (Hr : added.2 = length (claims m)) by reflexivity.
  rewrite Hr, Hc. split; [|apply lookup_snoc].
  assert (Hnew : findSession sessId added.1 [length (claims m)]
                 = Some (length (claims m))).
  { unfold findSession. cbn [List.find]. rewrite Hc, lookup_snoc.
    cbn. by rewrite bool_decide_eq_true_2. }
  unfold getClaimTransaction. rewrite Hqueue, findSession_app.
  destruct (findSession sessId added.1 (claimTxQueue m)) as [r|] eqn:Hf;
    [|by rewrite Hnew].
  apply findSession_Some in Hf as [Hin Hs]. rewrite Hc in Hs.
  destruct (decide (r < length (claims m))%nat) as [Hlt|Hge].
  - rewrite lookup_app_l in Hs by done. by apply Hq in Hin.
  - destruct (decide (r = length (claims m))) as [->|Hne]; [done|].
    rewrite lookup_ge_None_2 in Hs; [done|].
    rewrite length_app. cbn. lia.
Qed.

(** X3: [addClaimTransaction] does not look for a queued claim of the
    session: when the queue already holds one, the claim added second is
    not the one [getClaimTransaction] returns; the lookup keeps returning
    the first queued claim of the session. *)
Theorem getClaimTransaction_shadowed (now : Z) (tgt : string) (amt : Z)
    (sessId : string) (m : Manager) (r0 : nat) :
  Forall (fun r => is_Some (claims m !! r)) (claimTxQueue m) ->
  r0 ∈ claimTxQueue m ->
  getClaimTransaction sessId m = Some r0 ->
  let added := addClaimTransaction now tgt amt sessId m in
  getClaimTransaction sessId added.1 = Some r0
  /\ added.2 <> r0
  /\ session <$> claims added.1 !! added.2 = Some sessId.
Proof.
  intros Hwf Hin Hget. rewrite Forall_forall in Hwf. cbv zeta.
  set (added := addClaimTransaction now tgt amt sessId m).
  set (new := set_queueIdx (Some (lastClaimTxIdx m))
                (newClaimTx now tgt amt sessId None)).
  assert (Hc : claims added.1 = claims m ++ [new]) by reflexivity.
  assert (Hqueue : claimTxQueue added.1
                   = claimTxQueue m ++ [length (claims m)]) by reflexivity.
  assert (Hr : added.2 = length (claims m)) by reflexivity.
  assert (Hsame : forall l,
            (forall r, r ∈ l -> is_Some (claims m !! r)) ->
            findSession sessId added.1 l = findSession sessId m l).
  { intros l Hl. unfold findSession. rewrite Hc.
    induction l as [|x l IH]; [done|]. cbn [List.find].
    rewrite lookup_app_l
      by (apply lookup_lt_is_Some, Hl, elem_of_cons; by left).
    rewrite IH; [done|]. intros r Hr'. apply Hl, elem_of_cons. by right. }
  assert (Hs : session <$> claims m !! r0 = Some sessId).
  { rewrite getClaimTransaction_app in Hget.
    by apply findSession_Some in Hget as [_ ?]. }
  assert (Hfirst : findSession sessId m (claimTxQueue m) = Some r0).
  { destruct (findSession sessId m (claimTxQueue m)) as [r|] eqn:Hf.
    - unfold getClaimTransaction in Hget. by rewrite Hf in Hget.
    - exfalso. by apply (findSession_None _ _ _ Hf r0 Hin). }
  split; [|split].
  - unfold getClaimTransaction.
    by rewrite Hqueue, findSession_app, Hsame, Hfirst.
  - rewrite Hr. intros <-. apply Hwf, lookup_lt_is_Some in Hin. lia.
  - by rewrite Hr, Hc, lookup_snoc.
Qed.

(** X4: as long as every [addClaimTransaction] is called with a session
    id that no earlier claim bears, after any run of adds, ticks, receipt
    settlements, history jobs, timers, loads and reloads every claim that
    [getTransactionQueue()] lists is the one [getClaimTransaction]
    returns for its session id, whichever of the three containers holds
    it. *)
Theorem getClaimTransaction_run (ops : list Op) (m : Manager) (r : nat)
    (c : ClaimTx) :
  sessionsDistinct m = true ->
  addsFresh cfg lib walletAddr ops m = true ->
  r ∈ getTransactionQueue false (run cfg lib walletAddr ops m) ->
  claims (run cfg lib walletAddr ops m) !! r = Some c ->
  getClaimTransaction (session c) (run cfg lib walletAddr ops m) = Some r.
Proof.
  intros Hnd Hf Hin Hc. apply bool_decide_eq_true in Hnd.
  pose proof (sessionsDistinct_run ops m Hnd Hf) as H.
  set (m' := run cfg lib walletAddr ops m) in *.
  rewrite getClaimTransaction_app.
  destruct (findSession (session c) m' (getTransactionQueue false m'))
    as [r'|] eqn:Hfind.
  - apply findSession_Some in Hfind as [_ Hs]. f_equal.
    eapply (NoDup_lookup _ r' r (session c)); [exact H| |].
    + by rewrite list_lookup_fmap.
    + by rewrite list_lookup_fmap, Hc.
  - exfalso. apply (findSession_None _ _ _ Hfind r Hin). by rewrite Hc.
Qed.

(** *** Polling for a receipt *)

Lemma countEvents_emit (p : Event -> bool) (e : Event) (m : Manager) :
  countEvents p (emit e m)
  = (countEvents p m + if p e then 1 else 0)%nat.
Proof.
  rewrite emit_logged1, countEvents_logged. cbn [List.filter].
  by destruct (p e).
Qed.

(** X5: [awaitTransactionReceipt] polls again after every [null] reply
    and after every exception whose text has "CONNECTION ERROR", and
    settles with the first other reply: a receipt resolves it, any other
    exception rejects it. It sleeps 30 seconds before each poll, and polls
    no more once it has settled. *)
Theorem awaitTransactionReceipt_retries (before rest : list PollReply)
    (last : PollReply) (h : option string) (m : Manager) :
  forallb retried before = true ->
  retried last = false ->
  let res := awaitTransactionReceipt (before ++ last :: rest) h m in
  res.2 = settles last
  /\ countEvents (isSleep 30000) res.1
     = (countEvents (isSleep 30000) m + S (length before))%nat
  /\ countEvents isPoll res.1
     = (countEvents isPoll m + S (length before))%nat.
Proof.
  intros Hb Hl. cbv zeta. revert m.
  induction before as [|p before IH]; intros m.
  - cbn [app awaitTransactionReceipt length].
    destruct last as [|receipt|ex]; [done| |]; cbn [retried] in Hl.
    + cbn [fst snd settles]. rewrite !countEvents_emit. cbn.
      split; [done|lia].
    + rewrite Hl. cbn [fst snd settles]. rewrite !countEvents_emit. cbn.
      split; [done|lia].
  - cbn [forallb] in Hb. apply andb_true_iff in Hb as [Hp Hb].
    specialize (IH Hb).
    cbn [app awaitTransactionReceipt length].
    destruct p as [|receipt|ex]; [|done|]; cbn [retried] in Hp.
    + destruct (IH (emit (EvLog LogWarning)
                      (emit (EvPollReceipt h) (emit (EvSleep 30000) m))))
        as (-> & -> & ->).
      rewrite !countEvents_emit. cbn. split; [done|]. lia.
    + rewrite Hp.
      destruct (IH (emit (EvPollReceipt h) (emit (EvSleep 30000) m)))
        as (-> & -> & ->).
      rewrite !countEvents_emit. cbn. split; [done|]. lia.
Qed.

(** *** The refill controller *)

(** A vault transaction writes the log and, when it was sent, the nonce. *)
Lemma vaultTx_form (rc : RefillContractConfig) (value : Z)
    (data : option string) (reply : VaultReply) (m : Manager) :
  exists evs,
    (vaultTx cfg lib rc value data reply m).1
    = logged
        (match (vaultTx cfg lib rc value data reply m).2 with
         | inr _ => updWallet (fun w => set_nonce (nonce w + 1) w) m
         | inl _ => m
         end) evs.
Proof.
  unfold vaultTx. destruct (walletState m) as [w|].
  2:{ exists []. cbn [fst snd]. by rewrite logged_nil. }
  destruct (buildEthTx_fst (contract rc) value (nonce w) data
              (withdrawGasLimit rc) (vr_build reply) m) as (evs & _ & Hb).
  destruct (buildEthTx _ _ _ _ _ _ _ _ _) as [m1 [ex|hex]];
    cbn [fst snd] in *; [by eauto|]. subst m1.
  unfold sendTransaction. rewrite emit_logged.
  destruct (vr_send reply); cbn [fst snd]; eauto.
Qed.

Lemma refillWallet_form (rc : RefillContractConfig) (reply : VaultReply)
    (m : Manager) :
  exists evs,
    (refillWallet cfg lib walletAddr rc reply m).1
    = logged
        (match (refillWallet cfg lib walletAddr rc reply m).2 with
         | inr _ => updWallet (fun w => set_nonce (nonce w + 1) w) m
         | inl _ => m
         end) evs.
Proof.
  assert (Hv : forall data evs0,
    exists evs,
      (vaultTx cfg lib rc 0 data reply (logged m evs0)).1
      = logged
          (match (vaultTx cfg lib rc 0 data reply (logged m evs0)).2 with
           | inr _ => updWallet (fun w => set_nonce (nonce w + 1) w) m
           | inl _ => m
           end) evs).
  { intros data evs0.
    destruct (vaultTx_form rc 0 data reply (logged m evs0)) as [evs ->].
    destruct (vaultTx _ _ _ _ _ _ _).2;
      [|change (updWallet ?f (logged m evs0))
          with (logged (updWallet f m) evs0)];
      rewrite logged_logged; eauto. }
  unfold refillWallet. cbv zeta.
  destruct (truthyStr (allowanceFn rc)).
  - destruct (vr_allowance reply) as [ex|a]; cbn [fst snd]; [by eauto|].
    destruct (a =? 0); cbn [fst snd]; [by eauto|].
    destruct (a <? requestAmount rc);
      (destruct (truthyOpt (checkContractBalance rc));
       [destruct (vr_contractBalance reply) as [ex|b]; cbn [fst snd];
        [rewrite !emit_logged1, !logged_logged; by eauto|];
        destruct (b <=? _); cbn [fst snd];
        [rewrite !emit_logged1, !logged_logged; by eauto|];
        destruct (b <? _); rewrite !emit_logged1, !logged_logged; apply Hv
       |rewrite !emit_logged1; apply Hv]).
  - destruct (truthyOpt (checkContractBalance rc)).
    + destruct (vr_contractBalance reply) as [ex|b]; cbn [fst snd];
        [by eauto|].
      destruct (b <=? _); cbn [fst snd]; [by eauto|].
      destruct (b <? _); rewrite !emit_logged1; apply Hv.
    + match goal with
      | |- context [vaultTx cfg lib rc 0 ?d reply m] =>
          destruct (Hv d []) as [evs H]
      end.
      rewrite logged_nil in H. eauto.
Qed.

Lemma overflowWallet_form (rc : RefillContractConfig) (amt : Z)
    (reply : VaultReply) (m : Manager) :
  exists evs,
    (overflowWallet cfg lib walletAddr rc amt reply m).1
    = logged
        (match (overflowWallet cfg lib walletAddr rc amt reply m).2 with
         | inr _ => updWallet (fun w => set_nonce (nonce w + 1) w) m
         | inl _ => m
         end) evs.
Proof. unfold overflowWallet. apply vaultTx_form. Qed.

Lemma vaultAction_form (rc : RefillContractConfig) (action : string)
    (walletBalance : Z) (reply : VaultReply) (m : Manager) :
  exists evs,
    (vaultAction cfg lib walletAddr rc action walletBalance reply m).1
    = logged
        (match (vaultAction cfg lib walletAddr rc action walletBalance
                  reply m).2 with
         | inr _ => updWallet (fun w => set_nonce (nonce w + 1) w) m
         | inl _ => m
         end) evs.
Proof.
  unfold vaultAction.
  destruct (decide (action = "refill")); [apply refillWallet_form|].
  destruct (decide (action = "overflow")).
  - destruct (overflowBalance rc); [apply overflowWallet_form|].
    exists []. cbn [fst snd]. by rewrite logged_nil.
  - exists []. cbn [fst snd]. by rewrite logged_nil.
Qed.

(** How the polling ends does not depend on the manager. *)
Lemma awaitTransactionReceipt_snd (polls : list PollReply)
    (h h' : option string) (m m' : Manager) :
  (awaitTransactionReceipt polls h m).2
  = (awaitTransactionReceipt polls h' m').2.
Proof.
  revert m m'.
  induction polls as [|p polls IH]; intros m m'; [done|].
  cbn [awaitTransactionReceipt].
  destruct p as [|receipt|ex]; [apply IH|done|].
  destruct (Js.contains _ _); [apply IH|done].
Qed.

(** *** What the wallet loader and the refill controller leave alone *)

Lemma walletSide_fields (m m' : Manager) :
  walletSide m m' <->
  claims m' = claims m /\ tokenState m' = tokenState m
  /\ claimTxQueue m' = claimTxQueue m
  /\ pendingTxQueue m' = pendingTxQueue m
  /\ historyTxDict m' = historyTxDict m
  /\ queueProcessing m' = queueProcessing m
  /\ lastClaimTxIdx m' = lastClaimTxIdx m
  /\ lastProcessedClaimTxIdx m' = lastProcessedClaimTxIdx m
  /\ queueStore m' = queueStore m
  /\ receiptWatchers m' = receiptWatchers m
  /\ historyJobs m' = historyJobs m
  /\ timers m' = timers m.
Proof.
  unfold walletSide. split.
  - intros ->. by repeat split.
  - intros (?&?&?&?&?&?&?&?&?&?&?&?). destruct m, m'; fields.
    by simplify_eq.
Qed.

Lemma walletSide_refl (m : Manager) : walletSide m m.
Proof. apply walletSide_fields. by repeat split. Qed.

Lemma walletSide_trans (m1 m2 m3 : Manager) :
  walletSide m1 m2 -> walletSide m2 m3 -> walletSide m1 m3.
Proof.
  rewrite !walletSide_fields.
  intros (?&?&?&?&?&?&?&?&?&?&?&?) (?&?&?&?&?&?&?&?&?&?&?&?).
  repeat split; congruence.
Qed.

Lemma walletSide_logged (m m' : Manager) (evs : list Event) :
  walletSide m m' -> walletSide m (logged m' evs).
Proof. rewrite !walletSide_fields. intros H. exact H. Qed.

Lemma walletSide_loadWalletState (reply : LoadReply) (m : Manager) :
  walletSide m (loadWalletState cfg reply m).
Proof.
  destruct (loadThrows reply) as [ex|] eqn:Hthrows.
  - rewrite (loadWalletState_throws _ _ ex Hthrows).
    apply walletSide_fields. by repeat split.
  - destruct (loadWalletState_form reply m Hthrows)
      as (w & e1 & e2 & _ & _ & ->).
    apply walletSide_fields. by repeat split.
Qed.

Lemma walletSide_vaultAction (rc : RefillContractConfig) (action : string)
    (walletBalance : Z) (reply : VaultReply) (m : Manager) :
  walletSide m
    (vaultAction cfg lib walletAddr rc action walletBalance reply m).1.
Proof.
  destruct (vaultAction_form rc action walletBalance reply m) as [evs ->].
  apply walletSide_fields. by destruct (vaultAction _ _ _ _ _ _ _ _).2.
Qed.

Lemma walletSide_orPolled (outcome : Settled) (polls : list PollReply)
    (h : option string) (m : Manager) :
  walletSide m (orPolled outcome polls h m).1.
Proof.
  destruct (orPolled_logged outcome polls h m) as [evs ->].
  apply walletSide_logged, walletSide_refl.
Qed.

Lemma walletSide_refillReceiptCallbacks (settled : Settled)
    (reload : LoadReply) (m : Manager) :
  walletSide m (refillReceiptCallbacks cfg settled reload m).
Proof.
  unfold refillReceiptCallbacks.
  destruct settled as [receipt|ex]; [|by apply walletSide_fields].
  destruct (negb (rc_status receipt)); [by apply walletSide_fields|].
  unfold loadThrows, loadWalletFinish, loadWalletStart.
  destruct (load_result reload);
    try match goal with
    | |- context [updateFaucetStatus cfg ?X] =>
        destruct (updateFaucetStatus_logged X) as (ev & _ & ->)
    end;
    by apply walletSide_fields.
Qed.

Lemma walletSide_awaitRefill (reply : RefillReply) (m m1 : Manager)
    (res : Js.Thrown + string) :
  walletSide m m1 -> walletSide m (awaitRefill cfg reply (m1, res)).
Proof.
  intros H. eapply walletSide_trans; [exact H|].
  unfold awaitRefill. destruct res as [ex|hash];
    [by apply walletSide_fields|].
  match goal with
  | |- context [orPolled ?o ?p ?h ?M] =>
      pose proof (walletSide_orPolled o p h M) as Ho;
      destruct (orPolled o p h M) as [m2 [[receipt|ex]|]]
  end; cbn [fst] in Ho.
  - destruct (negb (rc_status receipt)).
    + eapply walletSide_trans;
        [|eapply walletSide_trans; [exact Ho|by apply walletSide_fields]].
      by apply walletSide_fields.
    + eapply walletSide_trans;
        [|eapply walletSide_trans;
           [exact Ho|apply walletSide_refillReceiptCallbacks]].
      by apply walletSide_fields.
  - eapply walletSide_trans;
      [|eapply walletSide_trans; [exact Ho|by apply walletSide_fields]].
    by apply walletSide_fields.
  - eapply walletSide_trans; [|exact Ho]. by apply walletSide_fields.
Qed.

Lemma walletSide_tryRefillWallet (reply : RefillReply) (m : Manager) :
  walletSide m (final (tryRefillWallet cfg lib walletAddr reply m)).
Proof.
  unfold tryRefillWallet.
  destruct (ethRefillContract cfg) as [rc|]; [|apply walletSide_refl].
  destruct (refillGuarded _ _ _); [apply walletSide_refl|]. fields.
  destruct (walletState m) as [w|]; [|by apply walletSide_fields].
  destruct (refillAction _ _) as [action|]; [|by apply walletSide_fields].
  cbn [final]. unfold refillAttempt.
  match goal with
  | |- context [vaultAction cfg lib walletAddr ?r ?a ?b ?rp ?M] =>
      pose proof (walletSide_vaultAction r a b rp M) as Hv;
      destruct (vaultAction cfg lib walletAddr r a b rp M) as [m1 res]
  end.
  cbn [fst] in Hv. apply walletSide_awaitRefill.
  eapply walletSide_trans; [|exact Hv]. by apply walletSide_fields.
Qed.

Lemma walletSide_afterDrain (reply : TickReply) (m : Manager) :
  walletSide m (final (afterDrain cfg lib walletAddr reply m)).
Proof.
  unfold afterDrain.
  destruct (walletState m) as [w|]; [|apply walletSide_refl].
  cbv zeta.
  match goal with
  | |- context [if ?b then loadWalletState cfg ?rp m else m] =>
      generalize b; intros reloads;
      set (m1 := if reloads then loadWalletState cfg rp m else m);
      assert (H : walletSide m m1)
        by (subst m1; destruct reloads;
            [apply walletSide_loadWalletState|apply walletSide_refl])
  end.
  clearbody m1.
  destruct (if reloads then loadThrows _ else None); [exact H|].
  destruct (ethRefillContract cfg); [|exact H].
  destruct (walletState m1) as [w1|]; [|exact H].
  destruct (ready w1); [|exact H].
  eapply walletSide_trans; [exact H|apply walletSide_tryRefillWallet].
Qed.

(** X6: [getFaucetRefillCooldown()] is never negative, and it is 0 as long
    as no vault transaction has been sent. *)
Theorem getFaucetRefillCooldown_nonneg (now : Z) (m : Manager) :
  0 <= getFaucetRefillCooldown cfg now m
  /\ (lastWalletRefill m = None -> getFaucetRefillCooldown cfg now m = 0).
Proof.
  unfold getFaucetRefillCooldown.
  destruct (ethRefillContract cfg) as [rc|]; [|done].
  destruct (negb (Js.truthyOptZ (cooldownTime rc))); [done|].
  split.
  - destruct (negb (Js.truthyOptZ (lastWalletRefill m))); [done|].
    destruct (Z.ltb_spec
                (default 0 (cooldownTime rc)
                 - (now / 1000 - default 0 (lastWalletRefill m))) 0); lia.
  - by intros ->.
Qed.

(** X7: while [getFaucetRefillCooldown()] is positive, [tryRefillWallet]
    read at the same clock returns at its cooldown guard and changes
    nothing. *)
Theorem tryRefillWallet_cooldown (reply : RefillReply) (m : Manager) :
  0 < getFaucetRefillCooldown cfg (rf_now reply) m ->
  tryRefillWallet cfg lib walletAddr reply m = Returned m.
Proof.
  unfold getFaucetRefillCooldown, tryRefillWallet.
  destruct (ethRefillContract cfg) as [rc|]; [|done].
  unfold refillGuarded.
  destruct (Js.truthyOptZ (cooldownTime rc)); cbn [negb]; [|lia].
  destruct (Js.truthyOptZ (lastWalletRefill m)); cbn [negb]; [|lia].
  destruct (Z.ltb_spec
              (default 0 (cooldownTime rc)
               - (rf_now reply / 1000 - default 0 (lastWalletRefill m))) 0);
    [lia|].
  intros Hpos.
  destruct (Z.ltb_spec (rf_now reply / 1000 - default 0 (lastWalletRefill m))
              (default 0 (cooldownTime rc))); [|lia].
  cbn [andb]. by rewrite orb_true_r.
Qed.

Lemma try_awaitRefill (reply : RefillReply) (m : Manager)
    (res : Js.Thrown + string) :
  lastWalletRefillTry (awaitRefill cfg reply (m, res))
  = lastWalletRefillTry m.
Proof.
  unfold awaitRefill. destruct res as [ex|hash]; [done|].
  match goal with
  | |- context [orPolled ?o ?p ?h ?M] =>
      destruct (orPolled_logged o p h M) as [evs Ho];
      destruct (orPolled o p h M) as [m2 [[receipt|ex]|]]
  end; cbn [fst] in Ho; subst m2; [|done|done].
  destruct (negb (rc_status receipt)); [done|].
  unfold refillReceiptCallbacks.
  destruct (rf_receipt reply) as [receipt'|ex]; [|done].
  destruct (negb (rc_status receipt')); [done|].
  unfold loadThrows, loadWalletFinish, loadWalletStart.
  destruct (load_result (rf_reload reply));
    try match goal with
    | |- context [updateFaucetStatus cfg ?X] =>
        destruct (updateFaucetStatus_logged X) as (ev & _ & ->)
    end;
    done.
Qed.

Lemma try_tryRefillWallet (reply : RefillReply) (m : Manager)
    (rc : RefillContractConfig) :
  ethRefillContract cfg = Some rc ->
  refillGuarded rc (rf_now reply / 1000) m = false ->
  lastWalletRefillTry (final (tryRefillWallet cfg lib walletAddr reply m))
  = Some (rf_now reply / 1000).
Proof.
  intros Hrc Hg. unfold tryRefillWallet. rewrite Hrc, Hg. fields.
  destruct (walletState m) as [w|]; [|done].
  destruct (refillAction _ _) as [action|]; [|done].
  cbn [final]. unfold refillAttempt.
  match goal with
  | |- context [vaultAction cfg lib walletAddr ?r ?a ?b ?rp ?M] =>
      destruct (vaultAction_form r a b rp M) as [evs Hv];
      destruct (vaultAction cfg lib walletAddr r a b rp M) as [m1 res]
  end.
  cbn [fst snd] in Hv. rewrite try_awaitRefill, Hv. by destruct res.
Qed.

(** X8: once [tryRefillWallet] has got past its guards at a clock reading
    other than second 0, a call made less than 60 seconds later returns at
    the retry guard and changes nothing, however the first call ended. *)
Theorem tryRefillWallet_retry_window (first second : RefillReply)
    (m : Manager) (rc : RefillContractConfig) :
  ethRefillContract cfg = Some rc ->
  refillGuarded rc (rf_now first / 1000) m = false ->
  rf_now first / 1000 <> 0 ->
  rf_now second / 1000 - rf_now first / 1000 < 60 ->
  let m1 := final (tryRefillWallet cfg lib walletAddr first m) in
  tryRefillWallet cfg lib walletAddr second m1 = Returned m1.
Proof.
  intros Hrc Hg Hnz Hlt. cbv zeta.
  pose proof (try_tryRefillWallet first m rc Hrc Hg) as Ht.
  set (m1 := final (tryRefillWallet cfg lib walletAddr first m)) in *.
  unfold tryRefillWallet at 1. rewrite Hrc. unfold refillGuarded.
  rewrite Ht. cbn [Js.truthyOptZ default id]. unfold Js.truthyZ.
  destruct (Z.eqb_spec (rf_now first / 1000) 0) as [?|_]; [done|].
  destruct (Z.ltb_spec (rf_now second / 1000 - rf_now first / 1000) 60);
    [|lia].
  cbn [negb andb]. by rewrite orb_true_r.
Qed.

Lemma set_walletRefilling_false (m : Manager) :
  walletRefilling m = false ->
  set_walletRefilling false (set_walletRefilling true m) = m.
Proof. destruct m; fields. by intros ->. Qed.

Lemma refillGuarded_walletRefilling (rc : RefillContractConfig) (now : Z)
    (m : Manager) :
  refillGuarded rc now m = false -> walletRefilling m = false.
Proof.
  unfold refillGuarded. intros H.
  apply orb_false_iff in H as [H _]. by apply orb_false_iff in H as [H _].
Qed.

(** X9: when the vault call of [tryRefillWallet] throws (the allowance or
    balance check, the build or the send), the method returns with the
    refill guard cleared and a warning logged last; the wallet state, the
    nonce with it, is as before and [lastWalletRefill] is not set, so no
    cooldown starts: only the time of the try is recorded. *)
Theorem tryRefillWallet_failure (reply : RefillReply) (m : Manager)
    (rc : RefillContractConfig) (w : WalletState) (action : string)
    (ex : Js.Thrown) :
  ethRefillContract cfg = Some rc ->
  refillGuarded rc (rf_now reply / 1000) m = false ->
  walletState m = Some w ->
  let m1 := set_lastWalletRefillTry (Some (rf_now reply / 1000)) m in
  let walletBalance := effectiveBalance (rf_unclaimed reply) m w in
  refillAction rc walletBalance = Some action ->
  (vaultAction cfg lib walletAddr rc action walletBalance (rf_vault reply)
     (set_walletRefilling true m1)).2 = inl ex ->
  exists evs,
    tryRefillWallet cfg lib walletAddr reply m
    = Returned (logged m1 (evs ++ [EvLog LogWarning])).
Proof.
  intros Hrc Hg Hw. cbv zeta. intros Ha Hv.
  unfold tryRefillWallet. rewrite Hrc, Hg. fields. rewrite Hw.
  change (effectiveBalance (rf_unclaimed reply)
            (set_lastWalletRefillTry (Some (rf_now reply / 1000)) m) w)
    with (effectiveBalance (rf_unclaimed reply) m w).
  rewrite Ha. unfold refillAttempt.
  match goal with
  | |- context [vaultAction cfg lib walletAddr ?r ?a ?b ?rp ?M] =>
      destruct (vaultAction_form r a b rp M) as [evs Hf];
      destruct (vaultAction cfg lib walletAddr r a b rp M) as [m2 res]
  end.
  cbn [fst snd] in *. subst res m2. exists evs.
  unfold awaitRefill, refillFailed. rewrite emit_logged. f_equal.
  change (set_walletRefilling false (logged ?M ?e))
    with (logged (set_walletRefilling false M) e).
  rewrite set_walletRefilling_false; [done|].
  by apply refillGuarded_walletRefilling in Hg.
Qed.

(** X10: after the vault transaction of [tryRefillWallet] has been sent,
    [lastWalletRefill] holds the clock reading, and the refill guard is
    cleared when the receipt promise resolves, when it rejects with any
    error other than "Transaction was not mined within", and when the
    polling that follows such a rejection fails or returns a receipt of
    status false. When the polling returns a receipt of status true the
    guard stays set: the callback that clears it hangs on the rejected
    promise. *)
Theorem tryRefillWallet_guard (reply : RefillReply) (m : Manager)
    (rc : RefillContractConfig) (w : WalletState) (action hash : string) :
  ethRefillContract cfg = Some rc ->
  refillGuarded rc (rf_now reply / 1000) m = false ->
  walletState m = Some w ->
  let m1 := set_lastWalletRefillTry (Some (rf_now reply / 1000)) m in
  let walletBalance := effectiveBalance (rf_unclaimed reply) m w in
  refillAction rc walletBalance = Some action ->
  (vaultAction cfg lib walletAddr rc action walletBalance (rf_vault reply)
     (set_walletRefilling true m1)).2 = inr hash ->
  let m' := final (tryRefillWallet cfg lib walletAddr reply m) in
  lastWalletRefill m' = Some (rf_now2 reply / 1000)
  /\ walletRefilling m'
     = match rf_receipt reply with
       | Resolved _ => false
       | Rejected e =>
           if Js.contains "Transaction was not mined within" (Js.toString e)
           then
             match (awaitTransactionReceipt (rf_polls reply) (Some hash)
                      m).2 with
             | Some (Resolved receipt) => rc_status receipt
             | Some (Rejected _) => false
             | None => true
             end
           else false
       end.
Proof.
  intros Hrc Hg Hw. cbv zeta. intros Ha Hv.
  unfold tryRefillWallet. rewrite Hrc, Hg. fields. rewrite Hw.
  change (effectiveBalance (rf_unclaimed reply)
            (set_lastWalletRefillTry (Some (rf_now reply / 1000)) m) w)
    with (effectiveBalance (rf_unclaimed reply) m w).
  rewrite Ha. unfold refillAttempt. cbn [final].
  match goal with
  | |- context [vaultAction cfg lib walletAddr ?r ?a ?b ?rp ?M] =>
      destruct (vaultAction_form r a b rp M) as [evs Hf];
      destruct (vaultAction cfg lib walletAddr r a b rp M) as [m2 res]
  end.
  cbn [fst snd] in *. subst res m2.
  unfold awaitRefill, orPolled.
  assert (Hload : forall reload M,
            lastWalletRefill (loadWalletFinish cfg reload M)
            = lastWalletRefill M
            /\ walletRefilling (loadWalletFinish cfg reload M)
               = walletRefilling M).
  { intros reload M. unfold loadWalletFinish.
    destruct (load_result reload);
      try match goal with
      | |- context [updateFaucetStatus cfg ?X] =>
          destruct (updateFaucetStatus_logged X) as (ev & _ & ->)
      end;
      done. }
  assert (Hstart : forall reload M,
            lastWalletRefill (loadWalletStart reload M)
            = lastWalletRefill M
            /\ walletRefilling (loadWalletStart reload M)
               = walletRefilling M).
  { intros reload M. unfold loadWalletStart.
    by destruct (load_result reload). }
  destruct (rf_receipt reply) as [receipt|e].
  - destruct (negb (rc_status receipt)); [done|].
    unfold refillReceiptCallbacks.
    destruct (negb (rc_status receipt)); [done|].
    destruct (loadThrows (rf_reload reply)).
    { change (lastWalletRefill (emit ?e ?M)) with (lastWalletRefill M).
      change (walletRefilling (emit ?e ?M)) with (walletRefilling M).
      match goal with
      | |- context [loadWalletStart ?l ?M] =>
          destruct (Hstart l M) as [-> ->]
      end.
      done. }
    destruct (Hload (rf_reload reply)
                (emit (EvLog LogInfo)
                   (loadWalletStart (rf_reload reply)
                      (set_walletRefilling false
                         (emit (EvLog LogInfo)
                            (set_lastWalletRefill
                               (Some (rf_now2 reply / 1000))
                               (logged
                                  (updWallet
                                     (fun w0 => set_nonce (nonce w0 + 1) w0)
                                     (set_walletRefilling true
                                        (set_lastWalletRefillTry
                                           (Some (rf_now reply / 1000)) m)))
                                  evs)))))))
      as [-> ->].
    change (lastWalletRefill (emit ?e ?M)) with (lastWalletRefill M).
    change (walletRefilling (emit ?e ?M)) with (walletRefilling M).
    match goal with
    | |- context [loadWalletStart ?l ?M] =>
        destruct (Hstart l M) as [-> ->]
    end.
    done.
  - destruct (Js.contains _ _); [|done].
    match goal with
    | |- context [awaitTransactionReceipt ?p ?h ?M] =>
        rewrite (awaitTransactionReceipt_snd p (Some hash) h m M);
        destruct (awaitTransactionReceipt_logged p h M) as [evs' Hp];
        destruct (awaitTransactionReceipt p h M) as [m3 [[receipt|e']|]]
    end; cbn [fst snd] in *; subst m3; [|done|done].
    by destruct (rc_status receipt).
Qed.

(** X11: with the allowance check and the balance check both configured,
    a non-zero allowance and a contract balance above the dust balance,
    [refillWallet] withdraws the smallest of the configured request
    amount, the allowance and the contract balance: that amount is what
    the [{amount}] placeholder of the withdraw call stands for. *)
Theorem refillWallet_amount (rc : RefillContractConfig) (reply : VaultReply)
    (m : Manager) (a b : Z) :
  truthyStr (allowanceFn rc) = true ->
  truthyOpt (checkContractBalance rc) = true ->
  vr_allowance reply = inr a ->
  a <> 0 ->
  vr_contractBalance reply = inr b ->
  (if Js.truthyOptZ (contractDustBalance rc)
   then default 0 (contractDustBalance rc) else 1000000000) < b ->
  let m1 :=
    logged m [EvCall (default "" (allowanceFn rc)); EvCall "getBalance"] in
  let refillAmount := Z.min (Z.min (requestAmount rc) a) b in
  refillWallet cfg lib walletAddr rc reply m
  = vaultTx cfg lib rc 0
      (Some (encodeABI lib (withdrawFn rc)
               (getCallArgs walletAddr refillAmount m1
                  (default ["{amount}"] (withdrawFnArgs rc)))))
      reply m1.
Proof.
  intros Hal Hcb Ha Hnz Hb Hdust. cbv zeta.
  unfold refillWallet. rewrite Hal, Hcb, Ha, Hb. cbv zeta.
  destruct (Z.eqb_spec a 0) as [?|_]; [done|].
  destruct (Z.leb_spec b
              (if Js.truthyOptZ (contractDustBalance rc)
               then default 0 (contractDustBalance rc)
               else 1000000000)) as [?|_]; [lia|].
  destruct (Z.ltb_spec a (requestAmount rc)) as [Hlt|Hge].
  - destruct (Z.ltb_spec b a); rewrite !emit_logged1, logged_logged;
      cbn [app]; do 3 f_equal; f_equal; lia.
  - destruct (Z.ltb_spec b (requestAmount rc));
      rewrite !emit_logged1, logged_logged;
      cbn [app]; do 3 f_equal; f_equal; lia.
Qed.

(** X12: [refillWallet] throws before anything is signed or sent when
    there is nothing to withdraw: with the allowance check configured and
    an allowance of 0 it throws "no withdrawable funds from refill
    contract" after the allowance call; with the balance check configured
    (and no allowance check) and a contract balance at or below the dust
    balance, which is 1000000000 when none is configured, it throws
    "refill contract is out of funds" after the balance read. *)
Theorem refillWallet_refuses (rc : RefillContractConfig)
    (reply : VaultReply) (m : Manager) :
  (truthyStr (allowanceFn rc) = true ->
   vr_allowance reply = inr 0 ->
   refillWallet cfg lib walletAddr rc reply m
   = (logged m [EvCall (default "" (allowanceFn rc))],
      inl (Js.ThrownStr "no withdrawable funds from refill contract")))
  /\ (forall b,
        truthyStr (allowanceFn rc) = false ->
        truthyOpt (checkContractBalance rc) = true ->
        vr_contractBalance reply = inr b ->
        b <= (if Js.truthyOptZ (contractDustBalance rc)
              then default 0 (contractDustBalance rc) else 1000000000) ->
        refillWallet cfg lib walletAddr rc reply m
        = (logged m [EvCall "getBalance"],
           inl (Js.ThrownStr "refill contract is out of funds"))).
Proof.
  split.
  - intros Hal Ha. unfold refillWallet. by rewrite Hal, Ha.
  - intros b Hal Hcb Hb Hdust. unfold refillWallet.
    rewrite Hal, Hcb, Hb. cbv zeta.
    destruct (Z.leb_spec b
                (if Js.truthyOptZ (contractDustBalance rc)
                 then default 0 (contractDustBalance rc)
                 else 1000000000)) as [_|?]; [done|lia].
Qed.

(** X13: [refillWallet] and [overflowWallet] raise the wallet's nonce by
    one exactly when their transaction was sent (they return a hash), and
    leave the wallet state alone when they throw; the balances are never
    adjusted for the amount moved. *)
Theorem vault_nonce (rc : RefillContractConfig) (amt : Z)
    (reply : VaultReply) (m : Manager) :
  let bump (res : Manager * (Js.Thrown + string)) :=
    walletState res.1
    = match res.2 with
      | inr _ => (fun w => set_nonce (nonce w + 1) w) <$> walletState m
      | inl _ => walletState m
      end in
  bump (refillWallet cfg lib walletAddr rc reply m)
  /\ bump (overflowWallet cfg lib walletAddr rc amt reply m).
Proof.
  cbv zeta. split.
  - destruct (refillWallet_form rc reply m) as [evs ->].
    by destruct (refillWallet _ _ _ _ _ _).2.
  - destruct (overflowWallet_form rc amt reply m) as [evs ->].
    by destruct (overflowWallet _ _ _ _ _ _ _).2.
Qed.

(** *** What the submission of a claim leaves alone *)

Lemma claimSide_fields (m m' : Manager) :
  claimSide m m' <->
  queueIdx <$> claims m' = queueIdx <$> claims m
  /\ tokenState m' = tokenState m
  /\ claimTxQueue m' = claimTxQueue m
  /\ pendingTxQueue m' = pendingTxQueue m
  /\ historyTxDict m' = historyTxDict m
  /\ queueProcessing m' = queueProcessing m
  /\ lastClaimTxIdx m' = lastClaimTxIdx m
  /\ lastProcessedClaimTxIdx m' = lastProcessedClaimTxIdx m
  /\ lastWalletRefill m' = lastWalletRefill m
  /\ lastWalletRefillTry m' = lastWalletRefillTry m
  /\ walletRefilling m' = walletRefilling m
  /\ queueStore m' = queueStore m
  /\ receiptWatchers m' = receiptWatchers m
  /\ historyJobs m' = historyJobs m
  /\ timers m' = timers m.
Proof.
  unfold claimSide. split.
  - intros [Hq ->]. by repeat split.
  - intros (?&?&?&?&?&?&?&?&?&?&?&?&?&?&?). split; [done|].
    destruct m, m'; fields. by simplify_eq.
Qed.

Lemma claimSide_refl (m : Manager) : claimSide m m.
Proof. apply claimSide_fields. by repeat split. Qed.

Lemma claimSide_trans (m1 m2 m3 : Manager) :
  claimSide m1 m2 -> claimSide m2 m3 -> claimSide m1 m3.
Proof.
  rewrite !claimSide_fields.
  intros (?&?&?&?&?&?&?&?&?&?&?&?&?&?&?) (?&?&?&?&?&?&?&?&?&?&?&?&?&?&?).
  repeat split; congruence.
Qed.

Lemma claimSide_logged (m : Manager) (evs : list Event) :
  claimSide m (logged m evs).
Proof. apply claimSide_fields. by repeat split. Qed.

Lemma claimSide_updClaim (r : nat) (f : ClaimTx -> ClaimTx) (m : Manager) :
  (forall c, queueIdx (f c) = queueIdx c) -> claimSide m (updClaim r f m).
Proof.
  intros Hf. apply claimSide_fields.
  split; [fields; by apply fmap_alter_keeps|]. by repeat split.
Qed.

Ltac side_step :=
  first [ apply claimSide_updClaim; by intros []
        | apply claimSide_logged
        | apply claimSide_refl ].

Lemma claimSide_loadWalletState (reply : LoadReply) (m : Manager) :
  claimSide m (loadWalletState cfg reply m).
Proof.
  destruct (loadThrows reply) as [ex|] eqn:Hthrows.
  - rewrite (loadWalletState_throws _ _ ex Hthrows).
    apply claimSide_fields. by repeat split.
  - destruct (loadWalletState_form reply m Hthrows)
      as (w & e1 & e2 & _ & _ & ->).
    apply claimSide_fields. by repeat split.
Qed.

Lemma claimSide_failClaim (r : nat) (reason : string) (m : Manager) :
  claimSide m (failClaim r reason m).
Proof.
  unfold failClaim, claimEmit. rewrite emit_logged1.
  eapply claimSide_trans; [|apply claimSide_logged].
  eapply claimSide_trans; [|side_step]. side_step.
Qed.

Lemma claimSide_buildEthTx (tgt : string) (amt n : Z) (data : option string)
    (gasLimit : option Z) (reply : BuildReply) (m : Manager) :
  claimSide m (buildEthTx cfg lib tgt amt n data gasLimit reply m).1.
Proof.
  destruct (buildEthTx_fst tgt amt n data gasLimit reply m)
    as (evs & _ & ->).
  apply claimSide_logged.
Qed.

Lemma claimSide_sendTransaction (hex : string) (reply : SendReply)
    (m : Manager) :
  claimSide m (sendTransaction hex reply m).1.
Proof.
  unfold sendTransaction. destruct reply; cbn [fst]; rewrite emit_logged1;
    apply claimSide_logged.
Qed.

Lemma claimSide_trySubmit (r : nat) (reply : AttemptReply) (m : Manager) :
  claimSide m (trySubmit cfg lib r reply m).1.
Proof.
  unfold trySubmit, buildTx.
  destruct (walletState m) as [w|]; [|apply claimSide_refl].
  destruct (claims m !! r) as [c|]; [|apply claimSide_refl].
  assert (H : forall bt : Manager * (Js.Error + string),
            claimSide m bt.1 ->
            claimSide m
              (match bt with
               | (m0, inl ex) => (m0, inl ex)
               | (m0, inr hex) =>
                   match sendTransaction hex (at_send reply)
                           (updClaim r (set_txhex (Some hex)) m0) with
                   | (m1, inl ex) => (m1, inl ex)
                   | (m1, inr hash) =>
                       (updClaim r (set_txhash (Some hash)) m1, inr hash)
                   end
               end).1).
  { intros [m0 [ex|hex]] H0; [done|]. cbn [fst] in H0.
    pose proof (claimSide_sendTransaction hex (at_send reply)
                  (updClaim r (set_txhex (Some hex)) m0)) as Hs.
    assert (H1 : claimSide m (updClaim r (set_txhex (Some hex)) m0))
      by (eapply claimSide_trans; [exact H0|side_step]).
    destruct (sendTransaction _ _ _) as [m1 [ex|hash]]; cbn [fst] in *.
    - eapply claimSide_trans; [exact H1|exact Hs].
    - eapply claimSide_trans; [|side_step].
      eapply claimSide_trans; [exact H1|exact Hs]. }
  fields.
  destruct (tokenState m); apply H;
    (eapply claimSide_trans; [|apply claimSide_buildEthTx]); side_step.
Qed.

Lemma claimSide_submitLoop (fuel : nat) (replies : Z -> AttemptReply)
    (r : nat) (k : Z) (txError : option Js.Error) (m m' : Manager)
    (e : LoopExit) :
  submitLoop cfg lib fuel replies r k txError m = Some (m', e) ->
  claimSide m m'.
Proof.
  revert k txError m.
  induction fuel as [|fuel IH]; intros k txError m H; [done|].
  cbn [submitLoop] in H.
  pose proof (claimSide_trySubmit r (replies k) m) as Ht.
  destruct (trySubmit cfg lib r (replies k) m) as [m1 [ex|h]];
    cbn [fst] in Ht.
  - assert (Hl : claimSide m
                   (loadWalletState cfg (at_reload (replies k))
                      (emit (EvSleep 2000) (emit (EvLog LogError) m1)))).
    { eapply claimSide_trans; [exact Ht|].
      eapply claimSide_trans; [|apply claimSide_loadWalletState].
      rewrite !emit_logged1, logged_logged. apply claimSide_logged. }
    destruct (loadThrows (at_reload (replies k))); [|destruct (k <? 3)].
    + by injection H as <- _.
    + apply IH in H. eapply claimSide_trans; [exact Hl|exact H].
    + by injection H as <- _.
  - by injection H as <- _.
Qed.

(** What [processQueueTx] does to the pending map: nothing, or one entry
    for the claim it processed. The queue, the queue indices and the two
    counters stay as they are. *)
Lemma processQueueTx_sides (r : nat) (replies : Z -> AttemptReply)
    (m : Manager) :
  let m' := final (processQueueTx cfg lib r replies m) in
  sameQueueView m m'
  /\ historyTxDict m' = historyTxDict m
  /\ (pendingTxQueue m' = pendingTxQueue m
      \/ exists h, pendingTxQueue m' = <[h := r]> (pendingTxQueue m)).
Proof.
  cbv zeta.
  assert (Hcs : forall m1, claimSide m m1 ->
            sameQueueView m m1
            /\ historyTxDict m1 = historyTxDict m
            /\ (pendingTxQueue m1 = pendingTxQueue m
                \/ exists h, pendingTxQueue m1 = <[h := r]> (pendingTxQueue m))).
  { intros m1 H. apply claimSide_fields in H
      as (?&?&?&?&?&?&?&?&?&?&?&?&?&?&?).
    split; [by repeat split|]. split; [done|by left]. }
  unfold processQueueTx.
  destruct (walletState m) as [w|]; [|apply Hcs, claimSide_refl].
  destruct (claims m !! r) as [c|]; [|apply Hcs, claimSide_refl].
  assert (Hfail : forall reason m1, claimSide m m1 ->
            claimSide m (failClaim r reason m1)).
  { intros reason m1 H. eapply claimSide_trans; [exact H|].
    apply claimSide_failClaim. }
  destruct (negb (ready w)).
  { cbn [final].
    pose proof (Hfail "Network RPC is currently unreachable." m
                  (claimSide_refl m)) as H.
    apply claimSide_fields in H as (?&?&?&?&?&?&?&?&?&?&?&?&?&?&?).
    split; [by repeat split|]. split; [done|by left]. }
  destruct (cannotPay cfg w (amount c)).
  { cbn [final].
    pose proof (Hfail "Faucet wallet is out of funds." m
                  (claimSide_refl m)) as H.
    apply claimSide_fields in H as (?&?&?&?&?&?&?&?&?&?&?&?&?&?&?).
    split; [by repeat split|]. split; [done|by left]. }
  set (m0 := claimEmit r "processing"
               (updClaim r (set_status PROCESSING) m)).
  assert (H0 : claimSide m m0).
  { subst m0. unfold claimEmit. rewrite emit_logged1.
    eapply claimSide_trans; [|apply claimSide_logged]. side_step. }
  destruct (submitLoop cfg lib 4 replies r 0 None m0)
    as [[m1 [|[txError|]|ex']]|] eqn:Hloop; [| | | |by apply Hcs].
  - apply claimSide_submitLoop in Hloop.
    assert (H1 : claimSide m m1) by (eapply claimSide_trans; eauto).
    destruct (afterSubmit cfg r m1) as [ex|m2] eqn:Ha; cbn [final].
    + apply Hcs. unfold processingException. by apply Hfail.
    + unfold afterSubmit in Ha.
      destruct (walletState m1) as [w1|]; [|done].
      destruct (claims m1 !! r) as [c1|]; [|done].
      injection Ha as <-.
      apply claimSide_fields in H1 as (Hq&?&?&Hp&?&?&?&?&?&?&?&?&?&?&?).
      match goal with
      | |- context [updateFaucetStatus cfg ?X] =>
          destruct (updateFaucetStatus_logged X) as (e & _ & He)
      end.
      split; [|split].
      * unfold sameQueueView. fields. rewrite He. fields.
        rewrite fmap_alter_keeps by (by intros []).
        by destruct (tokenState m1).
      * fields. rewrite He. by destruct (tokenState m1).
      * right. exists (txhash c1). fields. rewrite He. fields.
        rewrite <- Hp. by destruct (tokenState m1).
  - apply claimSide_submitLoop in Hloop. cbn [final].
    apply Hcs. unfold processingException. apply Hfail.
    eapply claimSide_trans; eauto.
  - apply claimSide_submitLoop in Hloop. cbn [final].
    apply Hcs. eapply claimSide_trans; eauto.
  - apply claimSide_submitLoop in Hloop. cbn [final].
    apply Hcs. unfold processingException. apply Hfail.
    eapply claimSide_trans; eauto.
Qed.

(** *** The tick *)

(** [processQueue] does not run twice at once, and it lets go of its
    lock on every path. *)
Lemma processQueue_lock (reply : TickReply) (m : Manager) :
  if queueProcessing m
  then processQueue cfg lib walletAddr reply m = m
  else queueProcessing (processQueue cfg lib walletAddr reply m) = false.
Proof.
  unfold processQueue. by destruct (queueProcessing m).
Qed.

Lemma walletSide_processQueue_idle (reply : TickReply) (m : Manager) :
  drainQueue cfg lib (length (claimTxQueue m)) (tk_claims reply) 0
    (set_queueProcessing true m)
  = Some (Returned (set_queueProcessing true m)) ->
  walletSide m (processQueue cfg lib walletAddr reply m).
Proof.
  intros Hd. unfold processQueue.
  destruct (queueProcessing m) eqn:Hq; [apply walletSide_refl|].
  fields. rewrite Hd.
  pose proof (walletSide_afterDrain reply (set_queueProcessing true m)) as H.
  destruct (afterDrain _ _ _ _ _) as [m1|m1 ex]; cbn [final] in H;
    apply walletSide_fields in H as (?&?&?&?&?&?&?&?&?&?&?&?);
    apply walletSide_fields; fields; by repeat split.
Qed.

(** X14: a tick takes no claim from the queue while the pending map holds
    [ethMaxPending] entries or more, or, with [ethQueueNoFunds] set,
    while the wallet cannot pay the claim at the head of the queue: the
    claims (none is failed), the queue, the pending and history maps and
    the durable store are after the tick as they were before it. *)
Theorem processQueue_waits (reply : TickReply) (m : Manager) :
  ethMaxPending cfg <= Z.of_nat (size (pendingTxQueue m))
  \/ (ethQueueNoFunds cfg = true
      /\ exists w r rest,
           walletState m = Some w
           /\ claimTxQueue m = r :: rest
           /\ cannotPay cfg w (amountOf m r) = true) ->
  let m' := processQueue cfg lib walletAddr reply m in
  claims m' = claims m
  /\ claimTxQueue m' = claimTxQueue m
  /\ pendingTxQueue m' = pendingTxQueue m
  /\ historyTxDict m' = historyTxDict m
  /\ queueStore m' = queueStore m
  /\ lastProcessedClaimTxIdx m' = lastProcessedClaimTxIdx m.
Proof.
  intros H. cbv zeta.
  assert (Hd : drainQueue cfg lib (length (claimTxQueue m)) (tk_claims reply)
                 0 (set_queueProcessing true m)
               = Some (Returned (set_queueProcessing true m))).
  { destruct H as [Hfull|(Hflag & w & r & rest & Hw & Hq & Hpay)].
    - destruct (length (claimTxQueue m)); cbn [drainQueue]; fields;
        by destruct (Z.ltb_spec (Z.of_nat (size (pendingTxQueue m)))
                       (ethMaxPending cfg)); [lia|].
    - rewrite Hq. cbn [length drainQueue]. fields. rewrite Hq.
      unfold pauseForFunds. rewrite Hflag. fields. rewrite Hw.
      change (amountOf (set_queueProcessing true m) r) with (amountOf m r).
      rewrite Hpay. by destruct (_ <? _). }
  apply walletSide_processQueue_idle, walletSide_fields in Hd
    as (?&?&?&?&?&?&?&?&?&?&?&?).
  by repeat split.
Qed.

Lemma drainQueue_pending (fuel : nat) (replies : nat -> Z -> AttemptReply)
    (k : nat) (m : Manager) (res : Completion) :
  drainQueue cfg lib fuel replies k m = Some res ->
  Z.of_nat (size (pendingTxQueue (final res)))
  <= Z.max (Z.of_nat (size (pendingTxQueue m))) (ethMaxPending cfg)
  /\ historyTxDict (final res) = historyTxDict m.
Proof.
  revert k m. induction fuel as [|fuel IH]; intros k m H.
  - cbn [drainQueue] in H.
    destruct (_ <? _); [|injection H as <-; cbn [final]; split; [lia|done]].
    destruct (claimTxQueue m) as [|r rest];
      [injection H as <-; cbn [final]; split; [lia|done]|].
    destruct (pauseForFunds cfg r m) as [ex|[|]]; [| |done];
      injection H as <-; cbn [final]; (split; [lia|done]).
  - cbn [drainQueue] in H.
    destruct (Z.ltb_spec (Z.of_nat (size (pendingTxQueue m)))
                (ethMaxPending cfg)) as [Hlt|Hge];
      [|injection H as <-; cbn [final]; split; [lia|done]].
    destruct (claimTxQueue m) as [|r rest];
      [injection H as <-; cbn [final]; split; [lia|done]|].
    destruct (pauseForFunds cfg r m) as [ex|[|]];
      [injection H as <-; cbn [final]; split; [lia|done]
      |injection H as <-; cbn [final]; split; [lia|done]|].
    match type of H with
    | context [processQueueTx cfg lib r (replies k) ?M] =>
        destruct (processQueueTx_sides r (replies k) M) as (_ & Hh & Hp);
        destruct (processQueueTx cfg lib r (replies k) M) as [m1|m1 ex]
    end; cbn [final] in Hh, Hp; fields.
    + apply IH in H as [H Hh']. split; [|congruence].
      destruct Hp as [Hp|[h Hp]]; rewrite Hp in H; [lia|].
      pose proof (map_size_insert h r (pendingTxQueue m)) as Hs.
      destruct (pendingTxQueue m !! h); cbn in Hs; lia.
    + injection H as <-. cbn [final]. split; [|done].
      destruct Hp as [->|[h ->]]; [lia|].
      pose proof (map_size_insert h r (pendingTxQueue m)) as Hs.
      destruct (pendingTxQueue m !! h); cbn in Hs; lia.
Qed.

(** X15: a tick never brings the pending map above [ethMaxPending]
    entries: after it the map holds at most as many entries as before, or
    at most [ethMaxPending]; and a tick writes nothing into the history
    map. *)
Theorem processQueue_pending_bound (reply : TickReply) (m : Manager) :
  let m' := processQueue cfg lib walletAddr reply m in
  Z.of_nat (size (pendingTxQueue m'))
  <= Z.max (Z.of_nat (size (pendingTxQueue m))) (ethMaxPending cfg)
  /\ historyTxDict m' = historyTxDict m.
Proof.
  cbv zeta. unfold processQueue.
  destruct (queueProcessing m); [split; [lia|done]|]. fields.
  destruct (drainQueue _ _ _ _ _ _) as [res|] eqn:Hd;
    [|fields; split; [lia|done]].
  apply drainQueue_pending in Hd as [Hd Hh]. fields.
  destruct res as [m1|m1 ex]; cbn [final] in Hd, Hh; [|by fields].
  pose proof (walletSide_afterDrain reply m1) as Ha.
  apply walletSide_fields in Ha as (_&_&_&Hp&Hh'&_).
  destruct (afterDrain _ _ _ _ _) as [m2|m2 ex]; cbn [final] in Hp, Hh';
    fields; rewrite Hp, Hh'; by split.
Qed.

(** X16: the [while] loop of [processQueue] goes on taking claims from
    the head of the queue until the queue is empty, the pending map holds
    [ethMaxPending] entries, or (with [ethQueueNoFunds] set) the wallet
    cannot pay the claim now at the head. *)
Theorem drainQueue_stops (fuel : nat) (replies : nat -> Z -> AttemptReply)
    (k : nat) (m m' : Manager) :
  drainQueue cfg lib fuel replies k m = Some (Returned m') ->
  claimTxQueue m' = []
  \/ ethMaxPending cfg <= Z.of_nat (size (pendingTxQueue m'))
  \/ (ethQueueNoFunds cfg = true
      /\ exists w r rest,
           walletState m' = Some w
           /\ claimTxQueue m' = r :: rest
           /\ cannotPay cfg w (amountOf m' r) = true).
Proof.
  revert k m. induction fuel as [|fuel IH]; intros k m H;
    cbn [drainQueue] in H;
    (destruct (Z.ltb_spec (Z.of_nat (size (pendingTxQueue m)))
                 (ethMaxPending cfg)) as [Hlt|Hge];
     [|injection H as <-; right; by left]);
    (destruct (claimTxQueue m) as [|r rest] eqn:Hq;
     [injection H as <-; by left|]);
    unfold pauseForFunds in H;
    (destruct (ethQueueNoFunds cfg) eqn:Hflag;
     [destruct (walletState m) as [w|] eqn:Hw; [|done];
      destruct (cannotPay cfg w (amountOf m r)) eqn:Hpay;
      [injection H as <-; right; right; split; [done|]; by eauto 8|]|]);
    try done;
    (match type of H with
     | context [processQueueTx cfg lib r (replies k) ?M] =>
         destruct (processQueueTx cfg lib r (replies k) M) as [m1|m1 ex]
     end; [by apply IH in H|done]).
Qed.

(** *** Queue indices *)

Lemma sameQueueView_refl (m : Manager) : sameQueueView m m.
Proof. by repeat split. Qed.

Lemma sameQueueView_trans (m1 m2 m3 : Manager) :
  sameQueueView m1 m2 -> sameQueueView m2 m3 -> sameQueueView m1 m3.
Proof.
  intros (?&?&?&?) (?&?&?&?). repeat split; congruence.
Qed.

Lemma walletSide_view (m m' : Manager) :
  walletSide m m' -> sameQueueView m m'.
Proof.
  intros H. apply walletSide_fields in H as (Hc&?&?&?&?&?&?&?&?&?&?&?).
  repeat split; try done. by rewrite Hc.
Qed.

Lemma queueNumbered_view (m m' : Manager) :
  sameQueueView m m' -> queueNumbered m -> queueNumbered m'.
Proof.
  intros (Hc & Hq & Hl & Hp) (k & Hk & Hn & Hi).
  exists k. unfold getLastProcessedClaimIdx in *.
  rewrite Hp, Hl, Hq. repeat split; try done.
  intros i r Hr. rewrite <- list_lookup_fmap, Hc, list_lookup_fmap.
  by apply Hi.
Qed.

Lemma queueNumbered_pushClaim (c : ClaimTx) (m : Manager) :
  queueNumbered m -> queueNumbered (pushClaim c m).1.
Proof.
  intros (k & Hk & Hn & Hi). exists k. unfold pushClaim. fields.
  split; [done|]. split; [rewrite length_app; cbn; lia|].
  intros i r Hr.
  apply lookup_app_Some in Hr as [Hr|[Hlen Hr]].
  - pose proof (Hi i r Hr) as Hc.
    destruct (claims m !! r) as [c0|] eqn:Hc0; [|done].
    by rewrite (lookup_app_l_Some _ _ _ _ Hc0).
  - apply list_lookup_singleton_Some in Hr as [Hz <-].
    rewrite lookup_snoc. cbn. do 2 f_equal. lia.
Qed.

Lemma queueNumbered_restoreQueue (now : Z) (stored : list IQueuedClaimTx)
    (m m' : Manager) :
  restoreQueue now stored m = Some m' ->
  queueNumbered m -> queueNumbered m'.
Proof.
  revert m. induction stored as [|q stored IH]; intros m H Hm;
    cbn [restoreQueue] in H; [by injection H as <-|].
  destruct (restoreClaimTx now q) as [c|]; [|done]. cbn in H.
  eapply IH; [exact H|]. by apply queueNumbered_pushClaim.
Qed.

Lemma queueNumbered_drainQueue (fuel : nat)
    (replies : nat -> Z -> AttemptReply) (k : nat) (m : Manager)
    (res : Completion) :
  drainQueue cfg lib fuel replies k m = Some res ->
  queueNumbered m -> queueNumbered (final res).
Proof.
  revert k m. induction fuel as [|fuel IH]; intros k m H Hm;
    cbn [drainQueue] in H;
    (destruct (_ <? _); [|by injection H as <-]);
    (destruct (claimTxQueue m) as [|r rest] eqn:Hq;
     [by injection H as <-|]);
    (destruct (pauseForFunds cfg r m) as [ex|[|]];
     [by injection H as <-|by injection H as <-|]); [done|].
  match type of H with
  | context [processQueueTx cfg lib r (replies k) ?M] =>
      assert (Hpop : queueNumbered M);
      [|destruct (processQueueTx_sides r (replies k) M) as (Hv & _ & _);
        destruct (processQueueTx cfg lib r (replies k) M) as [m1|m1 ex]]
  end.
  - destruct Hm as (n & Hn & Hl & Hi). exists (n + 1).
    rewrite Hq in *. fields.
    pose proof (Hi 0%nat r eq_refl) as Hr.
    destruct (claims m !! r) as [c|]; [|done].
    cbn in Hr. injection Hr as Hr. cbn. rewrite Hr.
    split; [f_equal; lia|]. split; [cbn [length] in Hl; lia|].
    intros i r' Hr'. rewrite (Hi (S i) r' Hr'). do 2 f_equal. lia.
  - cbn [final] in Hv. apply IH in H; [done|].
    by apply (queueNumbered_view _ _ Hv).
  - injection H as <-. cbn [final] in *.
    by apply (queueNumbered_view _ _ Hv).
Qed.

Lemma sameQueueView_receiptSettled (r : nat) (outcome : Settled)
    (polls : list PollReply) (m : Manager) :
  sameQueueView m (receiptSettled r outcome polls m).
Proof.
  unfold receiptSettled.
  destruct (orPolled_logged outcome polls (hashOf m r) m) as [evs Ho].
  destruct (orPolled _ _ _ _) as [m1 [[receipt|ex]|]]; cbn [fst] in Ho;
    subst m1.
  - unfold queueHistoryJob, onReceipt, sameQueueView. fields.
    split; [|by destruct (tokenState m)].
    destruct (tokenState m); fields;
      rewrite !fmap_alter_keeps; by try intros [].
  - unfold queueHistoryJob, onError, failClaim, sameQueueView. fields.
    split; [|done]. rewrite !fmap_alter_keeps; by try intros [].
  - by repeat split.
Qed.

Lemma queueNumbered_step (op : Op) (m : Manager) :
  queueNumbered m -> queueNumbered (step cfg lib walletAddr op m).
Proof.
  intros Hm.
  destruct op as [now tgt amt sessId|reply|r outcome polls|r|i|reply|];
    cbn [step].
  - unfold addClaimTransaction.
    pose proof (queueNumbered_pushClaim
                  (newClaimTx now tgt amt sessId None) m Hm) as H.
    destruct (pushClaim _ m) as [m1 r]. cbn [fst] in *.
    eapply queueNumbered_view; [|exact H]. by repeat split.
  - unfold processQueue. destruct (queueProcessing m); [done|].
    assert (H1 : queueNumbered (set_queueProcessing true m))
      by (eapply queueNumbered_view; [|exact Hm]; by repeat split).
    destruct (drainQueue _ _ _ _ _ _) as [res|] eqn:Hd.
    2:{ eapply queueNumbered_view; [|exact Hm]. by repeat split. }
    apply queueNumbered_drainQueue in Hd; [|done].
    destruct res as [m1|m1 ex]; cbn [final] in Hd.
    + pose proof (walletSide_view _ _ (walletSide_afterDrain reply m1)) as Ha.
      apply (queueNumbered_view _ _ Ha) in Hd.
      destruct (afterDrain _ _ _ _ _) as [m2|m2 ex]; cbn [final] in Hd;
        (eapply queueNumbered_view; [|exact Hd]); by repeat split.
    + eapply queueNumbered_view; [|exact Hd]. by repeat split.
  - case_decide; [|done].
    eapply queueNumbered_view; [|exact Hm].
    apply sameQueueView_receiptSettled.
  - unfold runHistoryJob. case_decide; [|done].
    eapply queueNumbered_view; [|exact Hm]. by repeat split.
  - unfold fireTimer. destruct (timers m !! i); [|done].
    eapply queueNumbered_view; [|exact Hm]. by repeat split.
  - eapply queueNumbered_view; [|exact Hm].
    apply walletSide_view, walletSide_loadWalletState.
  - eapply queueNumbered_view; [|exact Hm].
    unfold onReload, startWeb3, initWeb3Token.
    case_decide; [|by repeat split].
    destruct (faucetCoinType cfg); by repeat split.
Qed.

(** X17: from the constructor on, through any run of adds, ticks, receipt
    settlements, history jobs, timers, loads and reloads, the claim at
    position [i] of the queue bears the queue index
    [getLastProcessedClaimIdx() + 1 + i], and the next claim added gets
    the index after the last one: a claim's place in the queue is its
    [queueIdx] minus the index of the last claim processed. *)
Theorem run_queueNumbered (now : Z) (stored : list IQueuedClaimTx)
    (ops : list Op) (m0 : Manager) :
  constructor cfg now stored = Some m0 ->
  queueNumbered (run cfg lib walletAddr ops m0).
Proof.
  intros Hc.
  assert (H0 : queueNumbered m0).
  { unfold constructor in Hc.
    eapply queueNumbered_restoreQueue; [exact Hc|].
    exists 0. unfold startWeb3, initWeb3Token.
    case_decide; [destruct (faucetCoinType cfg)|];
      (split; [done|]; split; [done|]; by intros [|i] r). }
  clear Hc. revert m0 H0.
  induction ops as [|op ops IH]; intros m0 H0; [done|].
  cbn [run]. by apply IH, queueNumbered_step.
Qed.

(** *** Restarting on the stored queue *)

Lemma restoreQueue_app (now : Z) (l1 l2 : list IQueuedClaimTx) (m : Manager) :
  restoreQueue now (l1 ++ l2) m
  = restoreQueue now l1 m ≫= restoreQueue now l2.
Proof.
  revert m. induction l1 as [|q l1 IH]; intros m; cbn; [done|].
  destruct (restoreClaimTx now q); cbn; [apply IH|done].
Qed.

Lemma restoreClaimTx_serialize (now now' : Z) (tgt : string) (amt : Z)
    (sessId : string) :
  now <> 0 ->
  restoreClaimTx now' (serialize (newClaimTx now tgt amt sessId None))
  = Some (newClaimTx now tgt amt sessId None).
Proof.
  intros Hnz. unfold restoreClaimTx, serialize.
  cbn [q_amount q_target q_session q_time amount newClaimTx].
  rewrite BigInt_bigint_toString. cbn [mbind option_bind].
  unfold newClaimTx. claim_fields.
  cbn [Js.truthyOptZ default id]. unfold Js.truthyZ.
  by destruct (Z.eqb_spec now 0).
Qed.

(** X18: claims that were added and not yet taken from the queue survive
    a restart: after any number of [addClaimTransaction] calls on a new
    manager (made at clock readings other than 0), a manager constructed
    on the durable store holds the same claims, with the same queue
    indices, in the same queue order, and will number the next claim as
    the old manager would have. *)
Theorem constructor_after_adds (adds : list Op) (now' : Z) :
  forallb isAdd adds = true ->
  let m := run cfg lib walletAddr adds (startWeb3 cfg (initial [])) in
  exists m',
    constructor cfg now' (queueStore m) = Some m'
    /\ claims m' = claims m
    /\ claimTxQueue m' = claimTxQueue m
    /\ lastClaimTxIdx m' = lastClaimTxIdx m.
Proof.
  cbv zeta. unfold constructor.
  assert (Hrun : forall ops op m0,
            run cfg lib walletAddr (ops ++ [op]) m0
            = step cfg lib walletAddr op (run cfg lib walletAddr ops m0)).
  { intros ops op. induction ops as [|o ops IH]; intros m0; [done|].
    cbn [app run]. apply IH. }
  assert (Hstart : forall st,
            claims (startWeb3 cfg (initial st)) = []
            /\ claimTxQueue (startWeb3 cfg (initial st)) = []
            /\ lastClaimTxIdx (startWeb3 cfg (initial st)) = 1
            /\ queueStore (startWeb3 cfg (initial st)) = st).
  { intros st. unfold startWeb3, initWeb3Token.
    case_decide; [destruct (faucetCoinType cfg)|]; by repeat split. }
  induction adds as [|op adds IH] using rev_ind; intros Hadds.
  - cbn [run].
    destruct (Hstart []) as (_ & _ & _ & ->).
    cbn [restoreQueue]. eexists. by split; [reflexivity|].
  - rewrite forallb_app in Hadds. apply andb_true_iff in Hadds as [Hadds Hop].
    cbn [forallb] in Hop. rewrite andb_true_r in Hop.
    destruct op as [now tgt amt sessId| | | | | |]; try done.
    cbn [isAdd] in Hop. apply negb_true_iff, Z.eqb_neq in Hop.
    destruct (IH Hadds) as (m' & Hm' & Hc & Hq & Hl).
    rewrite Hrun. cbn [step].
    set (m := run cfg lib walletAddr adds (startWeb3 cfg (initial []))) in *.
    assert (Hst : queueStore (addClaimTransaction now tgt amt sessId m).1
                  = queueStore m
                    ++ [serialize (newClaimTx now tgt amt sessId None)])
      by reflexivity.
    rewrite Hst, restoreQueue_app.
    assert (Hext : forall l st1 st2,
              restoreQueue now' l (startWeb3 cfg (initial st1)) = Some m' ->
              exists m2,
                restoreQueue now' l (startWeb3 cfg (initial st2)) = Some m2
                /\ claims m2 = claims m' /\ claimTxQueue m2 = claimTxQueue m'
                /\ lastClaimTxIdx m2 = lastClaimTxIdx m').
    { intros l st1 st2.
      assert (Hgen : forall l m1 m2 m1',
                claims m1 = claims m2 -> claimTxQueue m1 = claimTxQueue m2 ->
                lastClaimTxIdx m1 = lastClaimTxIdx m2 ->
                restoreQueue now' l m1 = Some m1' ->
                exists m2',
                  restoreQueue now' l m2 = Some m2'
                  /\ claims m2' = claims m1'
                  /\ claimTxQueue m2' = claimTxQueue m1'
                  /\ lastClaimTxIdx m2' = lastClaimTxIdx m1').
      { clear. intros l. induction l as [|q l IHl];
          intros m1 m2 m1' H1 H2 H3 Hr; cbn [restoreQueue] in *.
        - injection Hr as <-. eauto.
        - destruct (restoreClaimTx now' q) as [c|]; [|done]. cbn in *.
          eapply IHl; [| | |exact Hr]; unfold pushClaim; fields;
            congruence. }
      apply Hgen.
      - destruct (Hstart st1) as (-> & _), (Hstart st2) as (-> & _). done.
      - destruct (Hstart st1) as (_ & -> & _), (Hstart st2) as (_ & -> & _).
        done.
      - destruct (Hstart st1) as (_ & _ & -> & _),
                 (Hstart st2) as (_ & _ & -> & _). done. }
    destruct (Hext (queueStore m) (queueStore m)
                (queueStore m
                 ++ [serialize (newClaimTx now tgt amt sessId None)]) Hm')
      as (m2 & -> & Hc2 & Hq2 & Hl2).
    cbn [mbind option_bind restoreQueue].
    rewrite restoreClaimTx_serialize by done. cbn [mbind option_bind].
    eexists. split; [reflexivity|].
    unfold addClaimTransaction, pushClaim. fields.
    rewrite Hc2, Hq2, Hl2, Hc, Hq, Hl. by rewrite <- Hc, <- Hc2.
Qed.

(** *** Claims that fail while being submitted *)

(** X19: a claim that [processQueueTx] has begun to process (both its
    guards passed) and leaves [FAILED] is not put into the pending map,
    and its entry is not removed from the durable store: the [catch]
    that fails it makes no [removeQueuedClaimTx] call. *)
Theorem processQueueTx_failed_stays_stored (r : nat)
    (replies : Z -> AttemptReply) (m : Manager) (w : WalletState)
    (c c' : ClaimTx) :
  walletState m = Some w ->
  claims m !! r = Some c ->
  ready w = true ->
  cannotPay cfg w (amount c) = false ->
  claims (final (processQueueTx cfg lib r replies m)) !! r = Some c' ->
  status c' = FAILED ->
  queueStore (final (processQueueTx cfg lib r replies m)) = queueStore m
  /\ pendingTxQueue (final (processQueueTx cfg lib r replies m))
     = pendingTxQueue m.
Proof.
  intros Hw Hc Hr Hpay. unfold processQueueTx.
  rewrite Hw, Hc, Hr, Hpay. cbn [negb].
  set (m0 := claimEmit r "processing"
               (updClaim r (set_status PROCESSING) m)).
  assert (H0 : claimSide m m0).
  { subst m0. unfold claimEmit. rewrite emit_logged1.
    eapply claimSide_trans; [|apply claimSide_logged]. side_step. }
  assert (Hside : forall m1, claimSide m m1 ->
            queueStore m1 = queueStore m
            /\ pendingTxQueue m1 = pendingTxQueue m).
  { intros m1 H. by apply claimSide_fields in H
      as (?&?&?&?&?&?&?&?&?&?&?&?&?&?&?). }
  destruct (submitLoop cfg lib 4 replies r 0 None m0)
    as [[m1 [|[txError|]|ex']]|] eqn:Hloop; cbn [final].
  - apply claimSide_submitLoop in Hloop.
    assert (H1 : claimSide m m1) by (eapply claimSide_trans; eauto).
    destruct (afterSubmit cfg r m1) as [ex|m2] eqn:Ha; cbn [final].
    + intros _ _. apply Hside. unfold processingException.
      eapply claimSide_trans; [exact H1|apply claimSide_failClaim].
    + unfold afterSubmit in Ha.
      destruct (walletState m1) as [w1|]; [|done].
      destruct (claims m1 !! r) as [c1|] eqn:Hc1; [|done].
      injection Ha as <-. fields.
      match goal with
      | |- context [updateFaucetStatus cfg ?X] =>
          destruct (updateFaucetStatus_logged X) as (e & _ & ->)
      end.
      fields. rewrite list_lookup_alter_eq.
      match goal with
      | |- context [claims ?X !! r] =>
          assert (Hl : claims X !! r = Some c1)
            by (destruct (tokenState m1); exact Hc1);
          rewrite Hl
      end.
      cbn. intros [= <-]. done.
  - intros _ _. apply claimSide_submitLoop in Hloop. apply Hside.
    unfold processingException.
    eapply claimSide_trans; [|apply claimSide_failClaim].
    eapply claimSide_trans; eauto.
  - intros _ _. apply claimSide_submitLoop in Hloop. apply Hside.
    eapply claimSide_trans; eauto.
  - intros _ _. apply claimSide_submitLoop in Hloop. apply Hside.
    unfold processingException.
    eapply claimSide_trans; [|apply claimSide_failClaim].
    eapply claimSide_trans; eauto.
  - intros _ _. by apply Hside.
Qed.

(** X20: when the reads of [loadWalletState] fail, the wallet state is
    "not ready" with nonce and balances 0, the status published under
    "wallet" is the one configured for a connection error, and a claim
    taken for processing in that state is failed with "Network RPC is
    currently unreachable." and dropped from the durable store, nothing
    being signed or sent. *)
Theorem processQueueTx_after_failed_load (reply : LoadReply) (r : nat)
    (replies : Z -> AttemptReply) (m : Manager) (c : ClaimTx)
    (e : Js.Thrown) :
  load_result reply = LoadErr e ->
  claims m !! r = Some c ->
  let m1 := loadWalletState cfg reply m in
  let published :=
    statusText (rpcConnectionError cfg)
      "The faucet could not connect to the network RPC" ERROR in
  walletState m1
  = Some {| ready := false; nonce := 0; balance := 0; nativeBalance := 0 |}
  /\ last (events m1)
     = Some (EvSetFaucetStatus "wallet" published.1 published.2)
  /\ exists m',
       processQueueTx cfg lib r replies m1 = Returned m'
       /\ claims m' !! r
          = Some (set_status FAILED
                    (set_failReason
                       (Some "Network RPC is currently unreachable.") c))
       /\ walletState m' = walletState m1
       /\ events m'
          = events m1 ++ [EvEmit r "failed";
                          EvRemoveQueuedClaimTx (session c)].
Proof.
  intros Hl Hc. cbv zeta.
  unfold loadWalletState, loadWalletFinish, loadWalletStart. rewrite Hl.
  unfold updateFaucetStatus, walletStatus. fields. cbn [ready negb].
  cbn [statusMessage].
  destruct (statusText (rpcConnectionError cfg) _ _) as [msg lvl] eqn:Hst.
  split; [done|]. split; [fields; by rewrite last_snoc|].
  unfold processQueueTx. fields. rewrite Hc. cbn [ready negb].
  eexists. split; [reflexivity|].
  split; [unfold failClaim; fields;
          by rewrite list_lookup_alter_eq, list_lookup_alter_eq, Hc|].
  split; [done|].
  unfold failClaim. fields. by rewrite <- !app_assoc.
Qed.

(** *** Fees, decimals and the queued amount *)

(** Below [2^53] in magnitude every integer is a number. *)
Lemma toNumber_safe (z : Z) :
  - Js.MAX_SAFE_INTEGER <= z <= Js.MAX_SAFE_INTEGER -> Js.toNumber z = z.
Proof.
  unfold Js.MAX_SAFE_INTEGER, Js.toNumber. intros Hz. cbv zeta.
  destruct (Z.ltb_spec (Z.abs z) (2 ^ 53)); [done|lia].
Qed.

(** Rounding does not bring an integer from [2^53] on back below it. *)
Lemma toNumber_large (z : Z) :
  2 ^ 53 <= z -> 2 ^ 53 <= Js.toNumber z.
Proof.
  intros Hz. unfold Js.toNumber. cbv zeta.
  rewrite (Z.abs_eq z) by lia.
  destruct (Z.ltb_spec z (2 ^ 53)); [lia|].
  rewrite (Z.sgn_pos z) by lia. rewrite Z.mul_1_l.
  assert (Hlog : 53 <= Z.log2 z) by (by apply Z.log2_le_pow2; lia).
  set (e := Z.log2 z - 52).
  assert (He : 1 <= e) by (subst e; lia).
  assert (Hq : 2 ^ 52 <= Z.shiftr z e).
  { rewrite Z.shiftr_div_pow2 by lia.
    apply Z.div_le_lower_bound; [by apply Z.pow_pos_nonneg; lia|].
    rewrite <- Z.pow_add_r by lia.
    replace (e + 52) with (Z.log2 z) by (subst e; lia).
    apply Z.log2_spec. lia. }
  assert (Hp : 2 <= 2 ^ e).
  { change 2 with (2 ^ 1) at 1. apply Z.pow_le_mono_r; lia. }
  rewrite Z.shiftl_mul_pow2 by lia.
  change (2 ^ 53) with (2 ^ 52 * 2).
  apply Z.mul_le_mono_nonneg; [lia| |lia|lia].
  destruct (_ || _); lia.
Qed.

(** Beyond the safe integers a price and a sum are rounded: a node price
    of [2^53 + 1] with a priority fee of 2 gives [2^53 + 2]. *)
Lemma numAdd_rounds :
  Js.parseInt (2 ^ 53 + 1) = 2 ^ 53
  /\ Js.numAdd (Js.parseInt (2 ^ 53 + 1)) 2 = 2 ^ 53 + 2
  /\ Js.numAdd (2 ^ 53) 1 = 2 ^ 53
  /\ Js.numAdd (2 ^ 53) 3 = 2 ^ 53 + 4.
Proof. by vm_compute. Qed.

(** X21: in legacy mode [buildEthTx] asks the node for its gas price and
    signs with that price plus [ethTxPrioFee], capped at [ethTxMaxFee]
    when the latter is positive (a cap of 0 or less is no cap), provided
    the node's price is a safe integer and the price so computed is one
    the transaction library accepts, not negative and at most
    [Number.MAX_SAFE_INTEGER]: the price is parsed and added as a number,
    and beyond the safe integers it is rounded. In EIP-1559 mode
    [buildEthTx] asks nothing and signs with [ethTxPrioFee] and
    [ethTxMaxFee] as they are configured. *)
Theorem buildEthTx_fee (tgt : string) (amt n : Z) (data : option string)
    (gasLimit : option Z) (nodePrice : Z) (m : Manager) :
  let price :=
    if 0 <? ethTxMaxFee cfg
    then Z.min (nodePrice + ethTxPrioFee cfg) (ethTxMaxFee cfg)
    else nodePrice + ethTxPrioFee cfg in
  (ethLegacyTx cfg = true ->
   Z.abs nodePrice <= Js.MAX_SAFE_INTEGER
   /\ 0 <= price <= Js.MAX_SAFE_INTEGER) ->
  exists tx,
    (buildEthTx cfg lib tgt amt n data gasLimit (BuildGasPrice nodePrice) m).2
    = inr (signTx lib tx)
    /\ if ethLegacyTx cfg then
         events (buildEthTx cfg lib tgt amt n data gasLimit
                   (BuildGasPrice nodePrice) m).1
         = events m ++ [EvCall "getGasPrice"; EvSign tx]
         /\ tx_fee tx = LegacyFee price
       else
         events (buildEthTx cfg lib tgt amt n data gasLimit
                   (BuildGasPrice nodePrice) m).1
         = events m ++ [EvSign tx]
         /\ tx_fee tx = FeeMarket (ethTxPrioFee cfg) (ethTxMaxFee cfg).
Proof.
  cbv zeta. intros Hsafe.
  unfold buildEthTx. destruct (ethLegacyTx cfg); cbn [fst snd];
    eexists; (split; [reflexivity|]); cbn [tx_fee]; fields; [|done].
  destruct (Hsafe eq_refl) as [Hnode Hprice].
  unfold Js.MAX_SAFE_INTEGER in Hprice.
  split; [by rewrite <- app_assoc|]. f_equal. unfold Js.numAdd, Js.parseInt.
  rewrite (toNumber_safe nodePrice) by lia.
  set (s := nodePrice + ethTxPrioFee cfg) in *.
  destruct (Z.le_gt_cases (2 ^ 53) s) as [Hbig|Hsmall].
  - pose proof (toNumber_large s Hbig) as Hn.
    destruct (Z.ltb_spec 0 (ethTxMaxFee cfg)); cbn [andb]; [|lia].
    destruct (Z.ltb_spec (ethTxMaxFee cfg) (Js.toNumber s)); lia.
  - assert (Hs : 0 <= s) by (destruct (0 <? ethTxMaxFee cfg); lia).
    rewrite toNumber_safe by (unfold Js.MAX_SAFE_INTEGER; lia).
    destruct (Z.ltb_spec 0 (ethTxMaxFee cfg)); cbn [andb]; [|done].
    destruct (Z.ltb_spec (ethTxMaxFee cfg) s); lia.
Qed.

(** X22: [getFaucetDecimals] never returns 0: it is 18 for the native
    coin and for a faucet without a token, 18 for a token whose decimals
    are 0, as they are from [startWeb3] until the token contract has
    answered, and the token's decimals otherwise. *)
Theorem getFaucetDecimals_nonzero (native : bool) (m : Manager) :
  getFaucetDecimals native m <> 0
  /\ getFaucetDecimals true m = 18
  /\ getFaucetDecimals native (startWeb3 cfg m) = 18
  /\ forall tok,
       tokenState m = Some tok -> decimals tok <> 0 ->
       getFaucetDecimals false m = decimals tok.
Proof.
  unfold getFaucetDecimals, Js.truthyZ. repeat split.
  - destruct (tokenState m) as [tok|]; [|done].
    destruct native; cbn [negb]; [done|].
    by destruct (Z.eqb_spec (decimals tok) 0).
  - by destruct (tokenState m).
  - unfold startWeb3, initWeb3Token.
    case_decide; [|done].
    destruct (faucetCoinType cfg); [done|]. fields. by destruct native.
  - intros tok -> Hnz. cbn [negb].
    by destruct (Z.eqb_spec (decimals tok) 0).
Qed.

Lemma amountOf_snoc (m : Manager) (c : ClaimTx) (cs : list ClaimTx)
    (r : nat) :
  claims m = cs -> is_Some (cs !! r) ->
  forall m', claims m' = cs ++ [c] -> amountOf m' r = amountOf m r.
Proof.
  intros Hc Hr m' Hc'. unfold amountOf. rewrite Hc, Hc'.
  by rewrite lookup_app_l by (by apply lookup_lt_is_Some).
Qed.

(** X23: [addClaimTransaction] raises [getQueuedAmount()] by exactly the
    amount of the claim it adds. *)
Theorem getQueuedAmount_add (now : Z) (tgt : string) (amt : Z)
    (sessId : string) (m : Manager) :
  Forall (fun r => is_Some (claims m !! r)) (claimTxQueue m) ->
  getQueuedAmount (addClaimTransaction now tgt amt sessId m).1
  = getQueuedAmount m + amt.
Proof.
  intros Hwf. rewrite Forall_forall in Hwf.
  set (added := addClaimTransaction now tgt amt sessId m).
  set (new := set_queueIdx (Some (lastClaimTxIdx m))
                (newClaimTx now tgt amt sessId None)).
  assert (Hc : claims added.1 = claims m ++ [new]) by reflexivity.
  assert (Hqueue : claimTxQueue added.1
                   = claimTxQueue m ++ [length (claims m)]) by reflexivity.
  unfold getQueuedAmount. rewrite Hqueue, foldl_app. cbn [foldl].
  assert (Hnew : amountOf added.1 (length (claims m)) = amt).
  { unfold amountOf. by rewrite Hc, lookup_snoc. }
  rewrite Hnew. f_equal.
  assert (Hgen : forall l acc,
            (forall r, r ∈ l -> is_Some (claims m !! r)) ->
            foldl (fun totalPending r => totalPending + amountOf added.1 r)
              acc l
            = foldl (fun totalPending r => totalPending + amountOf m r)
                acc l).
  { intros l. induction l as [|x l IH]; intros acc Hl; [done|].
    cbn [foldl].
    rewrite (amountOf_snoc m new (claims m) x eq_refl
               (Hl x ltac:(apply elem_of_cons; by left)) added.1 Hc).
    apply IH. intros r' Hr'. apply Hl, elem_of_cons. by right. }
  by apply Hgen.
Qed.

(** *** Nonces of consecutive submissions *)

(** A claim whose first pass obtains a hash: what [processQueueTx] leaves
    behind. *)
Lemma processQueueTx_first_try (r : nat) (replies : Z -> AttemptReply)
    (m : Manager) (w : WalletState) (c : ClaimTx) (h : string) :
  walletState m = Some w ->
  claims m !! r = Some c ->
  ready w = true ->
  cannotPay cfg w (amount c) = false ->
  attemptError (replies 0) = None ->
  at_send (replies 0) = SendHash h ->
  exists m' c',
    processQueueTx cfg lib r replies m = Returned m'
    /\ tokenState m' = tokenState m
    /\ walletState m'
       = Some {| ready := ready w;
                 nonce := nonce w + 1;
                 balance := balance w - amount c;
                 nativeBalance :=
                   match tokenState m with
                   | None => nativeBalance w - amount c
                   | Some _ => nativeBalance w
                   end |}
    /\ claims m' !! r = Some c'
    /\ c_nonce c' = Some (nonce w)
    /\ txhash c' = Some h
    /\ status c' = PENDING
    /\ forall r', r' <> r -> claims m' !! r' = claims m !! r'.
Proof.
  intros Hw Hc Hr Hpay Herr Hsend.
  set (m0 := claimEmit r "processing"
               (updClaim r (set_status PROCESSING) m)).
  assert (Hw0 : walletState m0 = Some w) by exact Hw.
  assert (Hc0 : claims m0 !! r = Some (set_status PROCESSING c))
    by (subst m0; fields; by rewrite list_lookup_alter_eq, Hc).
  destruct (trySubmit_form r (replies 0) m0 w _ Hw0 Hc0)
    as (f & evs & res & Ht & Hf & Hn & _ & _ & _ & _ & Hres & Hh).
  rewrite Herr, Hsend in Hres. subst res.
  assert (Hloop : submitLoop cfg lib 4 replies r 0 None m0
                  = Some (logged (updClaim r f m0) evs, Submitted)).
  { rewrite (submitLoop_succeeds 3 replies r 0 None m0 h)
      by (by rewrite Ht).
    by rewrite Ht. }
  unfold processQueueTx. rewrite Hw, Hc, Hr, Hpay. cbn [negb].
  fold m0. rewrite Hloop.
  set (m1 := logged (updClaim r f m0) evs).
  assert (Hw1 : walletState m1 = Some w) by exact Hw.
  assert (Hc1 : claims m1 !! r = Some (f (set_status PROCESSING c)))
    by (subst m1; fields; by rewrite list_lookup_alter_eq, Hc0).
  assert (Htok : tokenState m1 = tokenState m) by reflexivity.
  assert (Hoth : forall r', r' <> r -> claims m1 !! r' = claims m !! r').
  { intros r' Hne. subst m1 m0. fields.
    by rewrite !list_lookup_alter_ne. }
  clearbody m1. clear Ht Hloop.
  pose proof (Hf (set_status PROCESSING c)) as Hid.
  unfold ident in Hid. claim_fields.
  assert (Ha : amount (f (set_status PROCESSING c)) = amount c)
    by congruence.
  unfold afterSubmit. rewrite Hw1, Hc1, Ha.
  match goal with
  | |- context [updateFaucetStatus cfg ?X] =>
      destruct (updateFaucetStatus_logged X) as (e & _ & ->)
  end.
  eexists _, _. split; [reflexivity|]. fields. rewrite Htok.
  split; [by destruct (tokenState m)|].
  split; [destruct (tokenState m); fields; rewrite Hw1; wallet_fields;
          unfold set_nativeBalance, set_balance, set_nonce; wallet_fields;
          by rewrite Hr|].
  rewrite list_lookup_alter_eq.
  assert (Hl : forall X : Manager,
            claims X = claims m1 -> claims X !! r
                                    = Some (f (set_status PROCESSING c)))
    by (intros X ->; exact Hc1).
  split.
  { match goal with
    | |- context [claims ?X !! r] =>
        rewrite (Hl X) by (by destruct (tokenState m))
    end.
    reflexivity. }
  claim_fields. split; [done|]. split; [by apply Hh|]. split; [done|].
  intros r' Hne. rewrite list_lookup_alter_ne by done.
  rewrite <- Hoth by done. by destruct (tokenState m).
Qed.

(** X24: two claims submitted one after the other, each accepted at its
    first pass, get consecutive nonces: the first the wallet's nonce, the
    second the next one, and the wallet's nonce ends two higher. *)
Theorem processQueueTx_consecutive_nonces (r1 r2 : nat)
    (replies1 replies2 : Z -> AttemptReply) (m : Manager) (w : WalletState)
    (c1 c2 : ClaimTx) (h1 h2 : string) :
  walletState m = Some w ->
  ready w = true ->
  r1 <> r2 ->
  claims m !! r1 = Some c1 ->
  claims m !! r2 = Some c2 ->
  attemptError (replies1 0) = None ->
  at_send (replies1 0) = SendHash h1 ->
  attemptError (replies2 0) = None ->
  at_send (replies2 0) = SendHash h2 ->
  cannotPay cfg w (amount c1) = false ->
  cannotPay cfg
    {| ready := ready w;
       nonce := nonce w + 1;
       balance := balance w - amount c1;
       nativeBalance :=
         match tokenState m with
         | None => nativeBalance w - amount c1
         | Some _ => nativeBalance w
         end |} (amount c2) = false ->
  let m2 :=
    final (processQueueTx cfg lib r2 replies2
             (final (processQueueTx cfg lib r1 replies1 m))) in
  c_nonce <$> claims m2 !! r1 = Some (Some (nonce w))
  /\ c_nonce <$> claims m2 !! r2 = Some (Some (nonce w + 1))
  /\ nonce <$> walletState m2 = Some (nonce w + 2).
Proof.
  intros Hw Hr Hne Hc1 Hc2 He1 Hs1 He2 Hs2 Hp1 Hp2. cbv zeta.
  destruct (processQueueTx_first_try r1 replies1 m w c1 h1
              Hw Hc1 Hr Hp1 He1 Hs1)
    as (m1 & c1' & -> & Htok & Hw1 & Hc1' & Hn1 & _ & _ & Hrest1).
  cbn [final].
  assert (Hc2' : claims m1 !! r2 = Some c2)
    by (rewrite Hrest1; [exact Hc2|by intros ->]).
  destruct (processQueueTx_first_try r2 replies2 m1 _ c2 h2
              Hw1 Hc2' Hr Hp2 He2 Hs2)
    as (m2 & c2' & -> & _ & Hw2 & Hc2'' & Hn2 & _ & _ & Hrest2).
  cbn [final].
  rewrite (Hrest2 r1 Hne), Hc1', Hc2'', Hw2. cbn.
  rewrite Hn1, Hn2. split; [done|]. split; [done|]. f_equal. lia.
Qed.

(** X25: without a deposit function, [overflowWallet(amount)] is a plain
    transfer: it signs, at the wallet's nonce, a transaction to the vault
    contract of value [amount] with empty data ("0x") and the configured
    withdraw gas limit (the faucet's own gas limit when none, or 0, is
    configured), sends it with a "0x" prefix, and raises the nonce. *)
Theorem overflowWallet_transfer (rc : RefillContractConfig) (amt : Z)
    (reply : VaultReply) (m : Manager) (w : WalletState) (p : Z)
    (h : string) :
  walletState m = Some w ->
  truthyStr (depositFn rc) = false ->
  vr_build reply = BuildGasPrice p ->
  vr_send reply = SendHash h ->
  exists tx m' evs,
    overflowWallet cfg lib walletAddr rc amt reply m = (m', inr h)
    /\ tx_value tx = amt
    /\ tx_data tx = "0x"
    /\ tx_nonce tx = nonce w
    /\ tx_gasLimit tx
       = (if Js.truthyOptZ (withdrawGasLimit rc)
          then default 0 (withdrawGasLimit rc)
          else ethTxGasLimit cfg)
    /\ (Js.is_prefix "0X" (contract rc) = false -> tx_to tx = contract rc)
    /\ events m'
       = events m ++ evs ++ [EvSign tx; EvSend ("0x" +:+ signTx lib tx)]
    /\ walletState m' = Some (set_nonce (nonce w + 1) w).
Proof.
  intros Hw Hd Hb Hs. unfold overflowWallet, vaultTx. rewrite Hw, Hd.
  unfold buildEthTx, sendTransaction. rewrite Hb, Hs.
  exists {| tx_nonce := nonce w;
            tx_gasLimit := orZ (withdrawGasLimit rc) (ethTxGasLimit cfg);
            tx_fee :=
              if ethLegacyTx cfg then
                LegacyFee
                  (if (0 <? ethTxMaxFee cfg)
                      && (ethTxMaxFee cfg
                          <? Js.numAdd (Js.parseInt p) (ethTxPrioFee cfg))
                   then ethTxMaxFee cfg
                   else Js.numAdd (Js.parseInt p) (ethTxPrioFee cfg))
              else FeeMarket (ethTxPrioFee cfg) (ethTxMaxFee cfg);
            tx_to :=
              if Js.is_prefix "0X" (contract rc)
              then "0x" +:+ String.substring 2
                              (String.length (contract rc) - 2) (contract rc)
              else contract rc;
            tx_value := amt;
            tx_data := "0x" |}.
  eexists _, (if ethLegacyTx cfg then [EvCall "getGasPrice"] else []).
  split; [reflexivity|]. cbn [tx_value tx_data tx_nonce tx_gasLimit tx_to].
  split; [done|]. split; [done|]. split; [done|].
  split; [unfold orZ; by destruct (withdrawGasLimit rc)|].
  split; [by intros ->|].
  split; [|fields; destruct (ethLegacyTx cfg); fields; by rewrite Hw].
  fields. destruct (ethLegacyTx cfg); fields; by rewrite <- !app_assoc.
Qed.

(** *** The two balances of a native faucet *)

Lemma nativeBalanced_same (m m' : Manager) :
  walletState m' = walletState m -> tokenState m' = tokenState m ->
  nativeBalanced m -> nativeBalanced m'.
Proof. intros Hw Ht [H1 H2]. split; [congruence|]. by rewrite Hw. Qed.

Lemma nativeBalanced_loadWalletFinish (reply : LoadReply) (m : Manager) :
  nativeBalanced m -> nativeBalanced (loadWalletFinish cfg reply m).
Proof.
  intros Hm. pose proof Hm as [Ht _]. unfold loadWalletFinish.
  destruct (load_result reply); [| |exact Hm];
    match goal with
    | |- context [updateFaucetStatus cfg ?X] =>
        destruct (updateFaucetStatus_logged X) as (ev & _ & ->)
    end;
    (split; [exact Ht|]); fields;
    intros w [= <-]; [by rewrite Ht|done].
Qed.

Lemma nativeBalanced_loadWalletStart (reply : LoadReply) (m : Manager) :
  nativeBalanced m -> nativeBalanced (loadWalletStart reply m).
Proof.
  intros Hm. unfold loadWalletStart.
  destruct (load_result reply); by apply (nativeBalanced_same m).
Qed.

Lemma nativeBalanced_loadWalletState (reply : LoadReply) (m : Manager) :
  nativeBalanced m -> nativeBalanced (loadWalletState cfg reply m).
Proof.
  intros Hm.
  by apply nativeBalanced_loadWalletFinish, nativeBalanced_loadWalletStart.
Qed.

Lemma wallet_trySubmit (r : nat) (reply : AttemptReply) (m : Manager) :
  walletState (trySubmit cfg lib r reply m).1 = walletState m
  /\ tokenState (trySubmit cfg lib r reply m).1 = tokenState m.
Proof.
  unfold trySubmit, buildTx.
  destruct (walletState m) as [w|] eqn:Hw; [|cbn [fst]; by rewrite Hw].
  destruct (claims m !! r) as [c|]; [|cbn [fst]; by rewrite Hw].
  assert (H : forall bt : Manager * (Js.Error + string),
            walletState bt.1 = Some w /\ tokenState bt.1 = tokenState m ->
            let res :=
              match bt with
              | (m0, inl ex) => (m0, inl ex)
              | (m0, inr hex) =>
                  match sendTransaction hex (at_send reply)
                          (updClaim r (set_txhex (Some hex)) m0) with
                  | (m1, inl ex) => (m1, inl ex)
                  | (m1, inr hash) =>
                      (updClaim r (set_txhash (Some hash)) m1, inr hash)
                  end
              end in
            walletState res.1 = Some w /\ tokenState res.1 = tokenState m).
  { intros [m0 [ex|hex]] H0; [done|]. cbn [fst] in H0. cbv zeta.
    unfold sendTransaction. by destruct (at_send reply). }
  fields.
  destruct (tokenState m) eqn:Ht; apply H;
    match goal with
    | |- context [buildEthTx cfg lib ?t ?a ?n ?d ?g ?rp ?M] =>
        destruct (buildEthTx_fst t a n d g rp M) as (evs & _ & ->)
    end; by fields.
Qed.

Lemma nativeBalanced_submitLoop (fuel : nat) (replies : Z -> AttemptReply)
    (r : nat) (k : Z) (txError : option Js.Error) (m m' : Manager)
    (e : LoopExit) :
  submitLoop cfg lib fuel replies r k txError m = Some (m', e) ->
  nativeBalanced m -> nativeBalanced m'.
Proof.
  revert k txError m.
  induction fuel as [|fuel IH]; intros k txError m H Hm; [done|].
  cbn [submitLoop] in H.
  destruct (wallet_trySubmit r (replies k) m) as [Hw Ht].
  destruct (trySubmit cfg lib r (replies k) m) as [m1 [ex|h]];
    cbn [fst] in Hw, Ht.
  - assert (Hl : nativeBalanced
                   (loadWalletState cfg (at_reload (replies k))
                      (emit (EvSleep 2000) (emit (EvLog LogError) m1)))).
    { apply nativeBalanced_loadWalletState.
      by apply (nativeBalanced_same m). }
    destruct (loadThrows (at_reload (replies k)));
      [by injection H as <- _|].
    destruct (k <? 3); [by apply IH in H|]. by injection H as <- _.
  - injection H as <- _. by apply (nativeBalanced_same m).
Qed.

Lemma nativeBalanced_processQueueTx (r : nat) (replies : Z -> AttemptReply)
    (m : Manager) :
  nativeBalanced m ->
  nativeBalanced (final (processQueueTx cfg lib r replies m)).
Proof.
  intros Hm. unfold processQueueTx.
  destruct (walletState m) as [w|] eqn:Hw; [|done].
  destruct (claims m !! r) as [c|]; [|done].
  destruct (negb (ready w));
    [by apply (nativeBalanced_same m)|].
  destruct (cannotPay cfg w (amount c));
    [by apply (nativeBalanced_same m)|].
  set (m0 := claimEmit r "processing"
               (updClaim r (set_status PROCESSING) m)).
  assert (H0 : nativeBalanced m0) by (by apply (nativeBalanced_same m)).
  destruct (submitLoop cfg lib 4 replies r 0 None m0)
    as [[m1 [|[txError|]|ex']]|] eqn:Hloop; cbn [final]; [| | | |done];
    (apply nativeBalanced_submitLoop in Hloop; [|done]);
    [|by apply (nativeBalanced_same m1)|done
     |by apply (nativeBalanced_same m1)].
  destruct (afterSubmit cfg r m1) as [ex|m2] eqn:Ha; cbn [final];
    [by apply (nativeBalanced_same m1)|].
  unfold afterSubmit in Ha.
  destruct (walletState m1) as [w1|] eqn:Hw1; [|done].
  destruct (claims m1 !! r) as [c1|]; [|done].
  injection Ha as <-. destruct Hloop as [Ht Hb].
  match goal with
  | |- context [updateFaucetStatus cfg ?X] =>
      destruct (updateFaucetStatus_logged X) as (e & _ & ->)
  end.
  split; [fields; by rewrite Ht|]. fields. rewrite Ht. fields.
  rewrite Hw1. wallet_fields. intros w' [= <-].
  unfold set_nativeBalance, set_balance, set_nonce. wallet_fields.
  by rewrite (Hb w1).
Qed.

Lemma nativeBalanced_drainQueue (fuel : nat)
    (replies : nat -> Z -> AttemptReply) (k : nat) (m : Manager)
    (res : Completion) :
  drainQueue cfg lib fuel replies k m = Some res ->
  nativeBalanced m -> nativeBalanced (final res).
Proof.
  revert k m. induction fuel as [|fuel IH]; intros k m H Hm;
    cbn [drainQueue] in H;
    (destruct (_ <? _); [|by injection H as <-]);
    (destruct (claimTxQueue m) as [|r rest] eqn:Hq;
     [by injection H as <-|]);
    (destruct (pauseForFunds cfg r m) as [ex|[|]];
     [by injection H as <-|by injection H as <-|]); [done|].
  match type of H with
  | context [processQueueTx cfg lib r (replies k) ?M] =>
      assert (Hp : nativeBalanced
                     (final (processQueueTx cfg lib r (replies k) M)))
        by (apply nativeBalanced_processQueueTx;
            by apply (nativeBalanced_same m));
      destruct (processQueueTx cfg lib r (replies k) M) as [m1|m1 ex]
  end; cbn [final] in Hp.
  - by apply IH in H.
  - by injection H as <-.
Qed.

Lemma nativeBalanced_tryRefillWallet (reply : RefillReply) (m : Manager) :
  nativeBalanced m ->
  nativeBalanced (final (tryRefillWallet cfg lib walletAddr reply m)).
Proof.
  intros Hm. unfold tryRefillWallet.
  destruct (ethRefillContract cfg) as [rc|]; [|done].
  destruct (refillGuarded _ _ _); [done|]. fields.
  destruct (walletState m) as [w|] eqn:Hw;
    [|by apply (nativeBalanced_same m)].
  destruct (refillAction _ _) as [action|];
    [|by apply (nativeBalanced_same m)].
  cbn [final]. unfold refillAttempt.
  match goal with
  | |- context [vaultAction cfg lib walletAddr ?r ?a ?b ?rp ?M] =>
      assert (Hv : nativeBalanced
                     (vaultAction cfg lib walletAddr r a b rp M).1);
      [destruct (vaultAction_form r a b rp M) as [evs ->]|
       destruct (vaultAction cfg lib walletAddr r a b rp M) as [m1 res]]
  end.
  { destruct Hm as [Ht Hb].
    destruct (vaultAction _ _ _ _ _ _ _ _).2;
      (split; [exact Ht|]); fields; [by apply Hb|].
    rewrite Hw. wallet_fields. intros w' [= <-].
    unfold set_nonce. wallet_fields. by apply Hb. }
  cbn [fst] in Hv. unfold awaitRefill.
  destruct res as [ex|hash]; [by apply (nativeBalanced_same m1)|].
  match goal with
  | |- context [orPolled ?o ?p ?h ?M] =>
      destruct (orPolled_logged o p h M) as [evs Ho];
      destruct (orPolled o p h M) as [m2 [[receipt|ex]|]]
  end; cbn [fst] in Ho; subst m2;
    [|by apply (nativeBalanced_same m1)|by apply (nativeBalanced_same m1)].
  destruct (negb (rc_status receipt)); [by apply (nativeBalanced_same m1)|].
  unfold refillReceiptCallbacks.
  destruct (rf_receipt reply) as [receipt'|ex];
    [|by apply (nativeBalanced_same m1)].
  destruct (negb (rc_status receipt')); [by apply (nativeBalanced_same m1)|].
  match goal with
  | |- context [loadWalletStart ?l ?M] =>
      assert (Hs : nativeBalanced (loadWalletStart l M))
        by (apply nativeBalanced_loadWalletStart;
            by apply (nativeBalanced_same m1))
  end.
  destruct (loadThrows (rf_reload reply)).
  - revert Hs. by apply nativeBalanced_same.
  - apply nativeBalanced_loadWalletFinish.
    revert Hs. by apply nativeBalanced_same.
Qed.

Lemma nativeBalanced_processQueue (reply : TickReply) (m : Manager) :
  nativeBalanced m ->
  nativeBalanced (processQueue cfg lib walletAddr reply m).
Proof.
  intros Hm. unfold processQueue. destruct (queueProcessing m); [done|].
  assert (H1 : nativeBalanced (set_queueProcessing true m))
    by (by apply (nativeBalanced_same m)).
  destruct (drainQueue _ _ _ _ _ _) as [res|] eqn:Hd;
    [|by apply (nativeBalanced_same m)].
  apply nativeBalanced_drainQueue in Hd; [|done].
  destruct res as [m1|m1 ex]; cbn [final] in Hd;
    [|by apply (nativeBalanced_same m1)].
  assert (Ha : nativeBalanced
                 (final (afterDrain cfg lib walletAddr reply m1))).
  { unfold afterDrain. destruct (walletState m1) as [w|]; [|done].
    cbv zeta.
    match goal with
    | |- context [if ?b then loadWalletState cfg ?rp m1 else m1] =>
        generalize b; intros reloads;
        set (m2 := if reloads then loadWalletState cfg rp m1 else m1);
        assert (H : nativeBalanced m2)
          by (subst m2; destruct reloads;
              [by apply nativeBalanced_loadWalletState|done])
    end.
    clearbody m2.
    destruct (if reloads then loadThrows _ else None); [exact H|].
    destruct (ethRefillContract cfg); [|exact H].
    destruct (walletState m2) as [w2|]; [|exact H].
    destruct (ready w2); [|exact H].
    by apply nativeBalanced_tryRefillWallet. }
  destruct (afterDrain _ _ _ _ _) as [m2|m2 ex]; cbn [final] in Ha;
    by apply (nativeBalanced_same m2).
Qed.

Lemma nativeBalanced_receiptSettled (r : nat) (outcome : Settled)
    (polls : list PollReply) (m : Manager) :
  nativeBalanced m -> nativeBalanced (receiptSettled r outcome polls m).
Proof.
  intros [Ht Hb]. unfold receiptSettled.
  destruct (orPolled_logged outcome polls (hashOf m r) m) as [evs Ho].
  destruct (orPolled _ _ _ _) as [m1 [[receipt|ex]|]]; cbn [fst] in Ho;
    subst m1; [|by split|by split].
  unfold queueHistoryJob, onReceipt. split; [fields; by rewrite Ht|].
  fields. rewrite Ht. fields.
  destruct (walletState m) as [w|]; [|done]. wallet_fields.
  intros w' [= <-]. unfold set_nativeBalance, set_balance. wallet_fields.
  by rewrite (Hb w).
Qed.

Lemma nativeBalanced_step (op : Op) (m : Manager) :
  faucetCoinType cfg = NATIVE ->
  nativeBalanced m -> nativeBalanced (step cfg lib walletAddr op m).
Proof.
  intros Hn Hm.
  destruct op as [now tgt amt sessId|reply|r outcome polls|r|i|reply|];
    cbn [step].
  - by apply (nativeBalanced_same m).
  - by apply nativeBalanced_processQueue.
  - case_decide; [by apply nativeBalanced_receiptSettled|done].
  - unfold runHistoryJob. case_decide; [|done].
    by apply (nativeBalanced_same m).
  - unfold fireTimer. destruct (timers m !! i); [|done].
    by apply (nativeBalanced_same m).
  - by apply nativeBalanced_loadWalletState.
  - unfold onReload, startWeb3. rewrite Hn.
    case_decide; [done|]. destruct Hm as [_ Hb]. by split.
Qed.

(** X26: in a faucet of the native coin, from the constructor on and
    through any run of adds, ticks, receipt settlements, history
    insertions, eviction timers, wallet loads and reloads, the wallet's
    balance and native balance are the same number: submissions lower
    both by the amount, receipts lower both by the fee, and a load reads
    both from the one balance of the address. [getFaucetBalance()] and
    [getFaucetBalance(true)] therefore always agree. *)
Theorem run_nativeBalanced (now : Z) (stored : list IQueuedClaimTx)
    (ops : list Op) (m0 : Manager) :
  faucetCoinType cfg = NATIVE ->
  constructor cfg now stored = Some m0 ->
  (forall w,
      walletState (run cfg lib walletAddr ops m0) = Some w ->
      balance w = nativeBalance w)
  /\ getFaucetBalance false (run cfg lib walletAddr ops m0)
     = getFaucetBalance true (run cfg lib walletAddr ops m0).
Proof.
  intros Hn Hc.
  assert (H0 : nativeBalanced m0).
  { unfold constructor in Hc.
    assert (Hs : nativeBalanced (startWeb3 cfg (initial stored))).
    { unfold startWeb3. rewrite Hn. case_decide; [done|]. by split. }
    revert Hc Hs. generalize (startWeb3 cfg (initial stored)).
    induction stored as [|q stored IH]; intros m Hc Hs;
      cbn [restoreQueue] in Hc; [by injection Hc as <-|].
    destruct (restoreClaimTx now q) as [c|]; [|done]. cbn in Hc.
    eapply IH; [exact Hc|]. by apply (nativeBalanced_same m). }
  clear Hc.
  assert (H : nativeBalanced (run cfg lib walletAddr ops m0)).
  { revert m0 H0. induction ops as [|op ops IH]; intros m0 H0; [done|].
    cbn [run]. by apply IH, nativeBalanced_step. }
  destruct H as [_ Hb]. split; [exact Hb|].
  unfold getFaucetBalance.
  destruct (walletState (run cfg lib walletAddr ops m0)) as [w|]; [|done].
  by rewrite (Hb w).
Qed.

(** *** One claim per session, among the claims still referred to *)

Lemma elem_of_values {K} `{Countable K} (d : gmap K nat) (x : nat) :
  x ∈ (map_to_list d).*2 <-> exists k, d !! k = Some x.
Proof.
  rewrite list_elem_of_fmap. split.
  - intros [[k v] [-> Hin]]. exists k. by apply elem_of_map_to_list in Hin.
  - intros [k Hk]. exists (k, x). split; [done|].
    by apply elem_of_map_to_list.
Qed.

Lemma tracked_spec (m : Manager) (x : nat) :
  x ∈ tracked m
  <-> x ∈ claimTxQueue m
      \/ (exists k, pendingTxQueue m !! k = Some x)
      \/ (exists k, historyTxDict m !! k = Some x)
      \/ x ∈ receiptWatchers m
      \/ x ∈ historyJobs m.
Proof.
  unfold tracked, liveClaims. rewrite !elem_of_app, !elem_of_values. tauto.
Qed.

Lemma liveClaims_tracked (m : Manager) (x : nat) :
  x ∈ liveClaims m -> x ∈ tracked m.
Proof. unfold tracked. rewrite elem_of_app. by left. Qed.

Lemma tracked_same (m m' : Manager) :
  claimTxQueue m' = claimTxQueue m ->
  pendingTxQueue m' = pendingTxQueue m ->
  historyTxDict m' = historyTxDict m ->
  receiptWatchers m' = receiptWatchers m ->
  historyJobs m' = historyJobs m ->
  tracked m' = tracked m.
Proof. unfold tracked, liveClaims. by intros -> -> -> -> ->. Qed.

Lemma claimSide_tracked (m m' : Manager) :
  claimSide m m' -> tracked m' = tracked m.
Proof.
  intros H. apply claimSide_fields in H as (?&?&?&?&?&?&?&?&?&?&?&?&?&?&?).
  by apply tracked_same.
Qed.

Lemma walletSide_tracked (m m' : Manager) :
  walletSide m m' -> tracked m' = tracked m.
Proof.
  intros H. apply walletSide_fields in H as (?&?&?&?&?&?&?&?&?&?&?&?).
  by apply tracked_same.
Qed.

(** A submitted claim enters the pending map and gets its watcher; the
    other containers stay as they are. *)
Lemma afterSubmit_containers (r : nat) (m m' : Manager) :
  afterSubmit cfg r m = inr m' ->
  exists h,
    claimTxQueue m' = claimTxQueue m
    /\ pendingTxQueue m' = <[h := r]> (pendingTxQueue m)
    /\ historyTxDict m' = historyTxDict m
    /\ receiptWatchers m' = receiptWatchers m ++ [r]
    /\ historyJobs m' = historyJobs m.
Proof.
  unfold afterSubmit.
  destruct (walletState m) as [w|]; [|done].
  destruct (claims m !! r) as [c|]; [|done].
  intros [= <-]. exists (txhash c).
  match goal with
  | |- context [updateFaucetStatus cfg ?X] =>
      destruct (updateFaucetStatus_logged X) as (e & _ & He)
  end.
  fields. rewrite He. fields. by destruct (tokenState m).
Qed.

(** [processQueueTx] makes no claim tracked but the one it is given. *)
Lemma processQueueTx_tracked (r : nat) (replies : Z -> AttemptReply)
    (m : Manager) (x : nat) :
  x ∈ tracked (final (processQueueTx cfg lib r replies m)) ->
  x = r \/ x ∈ tracked m.
Proof.
  assert (Hcs : forall m1, claimSide m m1 ->
            x ∈ tracked m1 -> x = r \/ x ∈ tracked m).
  { intros m1 H Hx. right. by rewrite <- (claimSide_tracked m m1 H). }
  unfold processQueueTx.
  destruct (walletState m) as [w|]; [|apply Hcs, claimSide_refl].
  destruct (claims m !! r) as [c|]; [|apply Hcs, claimSide_refl].
  assert (Hfail : forall reason m1, claimSide m m1 ->
            claimSide m (failClaim r reason m1)).
  { intros reason m1 H. eapply claimSide_trans; [exact H|].
    apply claimSide_failClaim. }
  assert (Hremoved : forall reason,
            x ∈ tracked (removeQueuedClaimTx (session c)
                           (failClaim r reason m)) ->
            x = r \/ x ∈ tracked m).
  { intros reason Hx. right.
    pose proof (Hfail reason m (claimSide_refl m)) as H.
    apply claimSide_fields in H as (?&?&?&?&?&?&?&?&?&?&?&?&?&?&?).
    by rewrite <- (tracked_same m
                     (removeQueuedClaimTx (session c)
                        (failClaim r reason m))). }
  destruct (negb (ready w)); [by apply Hremoved|].
  destruct (cannotPay cfg w (amount c)); [by apply Hremoved|].
  set (m0 := claimEmit r "processing"
               (updClaim r (set_status PROCESSING) m)).
  assert (H0 : claimSide m m0).
  { subst m0. unfold claimEmit. rewrite emit_logged1.
    eapply claimSide_trans; [|apply claimSide_logged]. side_step. }
  destruct (submitLoop cfg lib 4 replies r 0 None m0)
    as [[m1 [|[txError|]|ex']]|] eqn:Hloop; cbn [final];
    [| | | |by apply Hcs];
    apply claimSide_submitLoop in Hloop;
    (assert (H1 : claimSide m m1) by (eapply claimSide_trans; eauto)).
  - destruct (afterSubmit cfg r m1) as [ex|m2] eqn:Ha; cbn [final].
    + apply Hcs. unfold processingException. by apply Hfail.
    + apply afterSubmit_containers in Ha as (h & Hq & Hp & Hh & Hw & Hj).
      apply claimSide_tracked in H1. rewrite <- H1.
      rewrite !tracked_spec, Hq, Hp, Hh, Hw, Hj.
      intros [Hx|[[k Hx]|[Hx|[Hx|Hx]]]]; eauto 10.
      * apply lookup_insert_Some in Hx as [[_ <-]|[_ Hx]]; [by left|].
        right. right. left. by exists k.
      * apply elem_of_app in Hx as [Hx|Hx]; [eauto 10|].
        apply list_elem_of_singleton in Hx. by left.
  - apply Hcs. unfold processingException. by apply Hfail.
  - by apply Hcs.
  - apply Hcs. unfold processingException. by apply Hfail.
Qed.

Lemma drainQueue_tracked (fuel : nat) (replies : nat -> Z -> AttemptReply)
    (k : nat) (m : Manager) (res : Completion) (x : nat) :
  drainQueue cfg lib fuel replies k m = Some res ->
  x ∈ tracked (final res) -> x ∈ tracked m.
Proof.
  revert k m. induction fuel as [|fuel IH]; intros k m H;
    cbn [drainQueue] in H;
    (destruct (_ <? _); [|by injection H as <-]);
    (destruct (claimTxQueue m) as [|r rest] eqn:Hq;
     [by injection H as <-|]);
    (destruct (pauseForFunds cfg r m) as [ex|[|]];
     [by injection H as <-|by injection H as <-|]); [done|].
  set (m1 := set_lastProcessedClaimTxIdx
               (c ← claims (set_claimTxQueue rest m) !! r; queueIdx c)
               (set_claimTxQueue rest m)) in *.
  assert (Hpop : forall y, y = r \/ y ∈ tracked m1 -> y ∈ tracked m).
  { intros y. rewrite !tracked_spec. subst m1. fields. rewrite Hq.
    intros [->|[Hy|Hy]]; [left; apply elem_of_cons; by left| |by right].
    left. apply elem_of_cons. by right. }
  pose proof (processQueueTx_tracked r (replies k) m1) as Hp.
  destruct (processQueueTx cfg lib r (replies k) m1) as [m2|m2 ex];
    cbn [final] in Hp.
  - intros Hx. apply (IH _ _ H) in Hx. by apply Hpop, Hp.
  - injection H as <-. cbn [final]. intros Hx. by apply Hpop, Hp.
Qed.

Lemma processQueue_tracked (reply : TickReply) (m : Manager) (x : nat) :
  x ∈ tracked (processQueue cfg lib walletAddr reply m) -> x ∈ tracked m.
Proof.
  unfold processQueue. destruct (queueProcessing m); [done|].
  destruct (drainQueue _ _ _ _ _ _) as [res|] eqn:Hd; [|done].
  pose proof (drainQueue_tracked _ _ _ _ _ x Hd) as Hdrain.
  destruct res as [m1|m1 ex]; cbn [final] in Hdrain; [|exact Hdrain].
  pose proof (walletSide_tracked _ _ (walletSide_afterDrain reply m1)) as Ha.
  destruct (afterDrain _ _ _ _ _) as [m2|m2 ex]; cbn [final] in Ha;
    intros Hx; apply Hdrain; by rewrite <- Ha.
Qed.

(** The first callback of a watcher moves its claim from the watchers to
    the history jobs and deletes a pending entry. *)
Lemma receiptSettled_tracked (r : nat) (outcome : Settled)
    (polls : list PollReply) (m : Manager) (x : nat) :
  r ∈ receiptWatchers m ->
  x ∈ tracked (receiptSettled r outcome polls m) -> x ∈ tracked m.
Proof.
  intros Hr. unfold receiptSettled.
  destruct (orPolled_logged outcome polls (hashOf m r) m) as [evs Ho].
  destruct (orPolled _ _ _ _) as [m1 [[receipt|ex]|]]; cbn [fst] in Ho;
    subst m1; [| |done].
  - rewrite !tracked_spec. unfold queueHistoryJob, onReceipt. fields.
    destruct (tokenState _); fields;
      (intros [Hx|[[k Hx]|[Hx|[Hx|Hx]]]]; eauto 10;
       [ apply lookup_delete_Some in Hx as [_ Hx]; eauto 10
       | apply list_elem_of_filter in Hx as [_ Hx]; eauto 10
       | apply elem_of_app in Hx as [Hx|Hx]; [eauto 10|];
         apply list_elem_of_singleton in Hx as ->; eauto 10 ]).
  - rewrite !tracked_spec. unfold queueHistoryJob, onError, failClaim.
    fields.
    intros [Hx|[[k Hx]|[Hx|[Hx|Hx]]]]; eauto 10.
    + apply lookup_delete_Some in Hx as [_ Hx]; eauto 10.
    + apply list_elem_of_filter in Hx as [_ Hx]; eauto 10.
    + apply elem_of_app in Hx as [Hx|Hx]; [eauto 10|].
      apply list_elem_of_singleton in Hx as ->; eauto 10.
Qed.

Lemma runHistoryJob_tracked (r : nat) (m : Manager) (x : nat) :
  x ∈ tracked (runHistoryJob r m) -> x ∈ tracked m.
Proof.
  unfold runHistoryJob. case_decide as Hr; [|done].
  rewrite !tracked_spec. unfold historyInsert. fields.
  intros [Hx|[Hx|[[k Hx]|[Hx|Hx]]]]; eauto 10.
  - apply lookup_insert_Some in Hx as [[_ <-]|[_ Hx]]; [eauto 10|eauto 10].
  - apply list_elem_of_filter in Hx as [_ Hx]; eauto 10.
Qed.

Lemma fireTimer_tracked (i : nat) (m : Manager) (x : nat) :
  x ∈ tracked (fireTimer i m) -> x ∈ tracked m.
Proof.
  unfold fireTimer. destruct (timers m !! i) as [t|]; [|done].
  rewrite !tracked_spec. unfold evict. fields.
  intros [Hx|[Hx|[[k Hx]|[Hx|Hx]]]]; eauto 10.
  apply lookup_delete_Some in Hx as [_ Hx]; eauto 10.
Qed.

(** No step but an add makes a claim tracked, and an add tracks the claim
    it creates. *)
Lemma tracked_step (op : Op) (m : Manager) (x : nat) :
  x ∈ tracked (step cfg lib walletAddr op m) ->
  x ∈ tracked m
  \/ match op with
     | OpAdd _ _ _ _ => x = length (claims m)
     | _ => False
     end.
Proof.
  destruct op as [now tgt amt sessId|reply|r outcome polls|r|i|reply|];
    cbn [step].
  - rewrite !tracked_spec. unfold addClaimTransaction, pushClaim. fields.
    intros [Hx|Hx]; [|by left; right].
    apply elem_of_app in Hx as [Hx|Hx]; [by left; left|].
    apply list_elem_of_singleton in Hx. by right.
  - left. by eapply processQueue_tracked.
  - left. case_decide; [by eapply receiptSettled_tracked|done].
  - left. by eapply runHistoryJob_tracked.
  - left. by eapply fireTimer_tracked.
  - left.
    by rewrite <- (walletSide_tracked _ _ (walletSide_loadWalletState reply m)).
  - left. revert H. unfold onReload, startWeb3, initWeb3Token.
    case_decide; [|done]. by destruct (faucetCoinType cfg).
Qed.

Lemma sessions_step (op : Op) (m : Manager) :
  session <$> claims (step cfg lib walletAddr op m)
  = (session <$> claims m)
    ++ match op with
       | OpAdd _ _ _ sessId => [sessId]
       | _ => []
       end.
Proof.
  pose proof (idents_step op m) as Hi. rewrite !sessions_idents.
  destruct op; rewrite Hi, ?app_nil_r; try done.
  by rewrite fmap_app.
Qed.

Lemma distinctAmong_spec (l : list nat) (m : Manager) :
  distinctAmong l m
  <-> forall r1 r2,
        r1 ∈ l -> r2 ∈ l ->
        is_Some (claims m !! r1) ->
        session <$> claims m !! r1 = session <$> claims m !! r2 ->
        r1 = r2.
Proof.
  unfold distinctAmong. rewrite Forall_forall.
  split.
  - intros H r1 r2 H1 H2. specialize (H r1 H1). rewrite Forall_forall in H.
    by apply H.
  - intros H r1 H1. rewrite Forall_forall. intros r2 H2. by apply H.
Qed.

Lemma trackedDistinct_spec (m : Manager) :
  trackedDistinct m
  <-> forall r1 r2,
        r1 ∈ tracked m -> r2 ∈ tracked m ->
        is_Some (claims m !! r1) ->
        session <$> claims m !! r1 = session <$> claims m !! r2 ->
        r1 = r2.
Proof. apply distinctAmong_spec. Qed.

Lemma sessionTracked_false (s : string) (m : Manager) (r : nat) :
  sessionTracked s m = false ->
  r ∈ tracked m -> session <$> claims m !! r <> Some s.
Proof.
  unfold sessionTracked. intros H Hr Hs.
  assert (Ht : existsb
                 (fun r => bool_decide (session <$> claims m !! r = Some s))
                 (tracked m) = true).
  { apply existsb_exists. exists r. split; [by apply list_elem_of_In|].
    by apply bool_decide_eq_true. }
  congruence.
Qed.

(** Fewer claims, of unchanged sessions, stay distinct. *)
Lemma distinctAmong_sub (l l' : list nat) (m m' : Manager) :
  session <$> claims m' = session <$> claims m ->
  (forall x, x ∈ l' -> x ∈ l) ->
  distinctAmong l m -> distinctAmong l' m'.
Proof.
  rewrite !distinctAmong_spec. intros Hs Hsub Hm r1 r2 H1 H2 Hsome Heq.
  assert (Hlook : forall x,
            session <$> claims m' !! x = session <$> claims m !! x)
    by (intros x; by rewrite <- !list_lookup_fmap, Hs).
  rewrite !Hlook in Heq. apply (fmap_is_Some session) in Hsome.
  rewrite Hlook in Hsome. apply (fmap_is_Some session) in Hsome.
  apply Hm; auto.
Qed.

(** A claim created for a session that none of the claims bears keeps
    them distinct, itself included. *)
Lemma distinctAmong_add (l l' : list nat) (m m' : Manager) (s : string) :
  session <$> claims m' = (session <$> claims m) ++ [s] ->
  (forall x, x ∈ l' -> x ∈ l \/ x = length (claims m)) ->
  (forall x, x ∈ l -> session <$> claims m !! x <> Some s) ->
  distinctAmong l m -> distinctAmong l' m'.
Proof.
  rewrite !distinctAmong_spec. intros Hs Hsub Hfresh Hm r1 r2 H1 H2 Hsome Heq.
  assert (Hlook : forall x,
            session <$> claims m' !! x
            = ((session <$> claims m) ++ [s]) !! x)
    by (intros x; by rewrite <- Hs, list_lookup_fmap).
  assert (Hold : forall x,
            (x < length (claims m))%nat ->
            session <$> claims m' !! x = session <$> claims m !! x).
  { intros x Hx. rewrite Hlook, lookup_app_l, list_lookup_fmap; [done|].
    by rewrite length_fmap. }
  assert (Hcase : forall x,
            x ∈ l' ->
            is_Some (session <$> claims m' !! x) ->
            (x ∈ l /\ (x < length (claims m))%nat)
            \/ (x = length (claims m)
                /\ session <$> claims m' !! x = Some s)).
  { intros x Hx Hsx.
    destruct (decide (x < length (claims m))%nat) as [Hlt|Hge].
    - left. split; [|done]. destruct (Hsub x Hx) as [?| ->]; [done|lia].
    - right. rewrite Hlook in Hsx. apply lookup_lt_is_Some in Hsx.
      rewrite length_app, length_fmap in Hsx. cbn in Hsx.
      assert (x = length (claims m)) as -> by lia. split; [done|].
      rewrite Hlook.
      replace (length (claims m)) with (length (session <$> claims m))
        by apply length_fmap.
      apply lookup_snoc. }
  apply (fmap_is_Some session) in Hsome.
  pose proof Hsome as Hsome2. rewrite Heq in Hsome2.
  destruct (Hcase r1 H1 Hsome) as [[Ht1 Hl1]|[Hr1 Hn1]];
    destruct (Hcase r2 H2 Hsome2) as [[Ht2 Hl2]|[Hr2 Hn2]].
  - rewrite (Hold r1), (Hold r2) in Heq by done.
    rewrite (Hold r1) in Hsome by done.
    apply Hm; try done.
    by apply (fmap_is_Some session) in Hsome.
  - exfalso. rewrite Hn2, (Hold r1) in Heq by done.
    by apply (Hfresh r1).
  - exfalso. rewrite Hn1, (Hold r2) in Heq by done.
    by apply (Hfresh r2).
  - congruence.
Qed.

Lemma trackedDistinct_step (op : Op) (m : Manager) :
  trackedDistinct m ->
  match op with
  | OpAdd _ _ _ sessId => sessionTracked sessId m = false
  | _ => True
  end ->
  trackedDistinct (step cfg lib walletAddr op m).
Proof.
  unfold trackedDistinct. intros Hm Hop.
  pose proof (sessions_step op m) as Hsess.
  pose proof (tracked_step op m) as Hsub.
  destruct op as [now tgt amt sessId|reply|r outcome polls|r|i|reply|];
    try (rewrite app_nil_r in Hsess;
         apply (distinctAmong_sub (tracked m) _ m); [done| |done];
         intros x Hx; by destruct (Hsub x Hx)).
  apply (distinctAmong_add (tracked m) _ m _ sessId); try done.
  intros x Hx. by apply sessionTracked_false.
Qed.

Lemma trackedDistinct_run (ops : list Op) (m : Manager) :
  trackedDistinct m ->
  addsUntracked cfg lib walletAddr ops m = true ->
  trackedDistinct (run cfg lib walletAddr ops m).
Proof.
  revert m. induction ops as [|op ops IH]; intros m Hm Hf; [done|].
  cbn [run addsUntracked] in *. apply andb_true_iff in Hf as [Hop Hf].
  apply IH; [|done]. apply trackedDistinct_step; [done|].
  destruct op; try done. by apply negb_true_iff.
Qed.

(** A claim that [processQueue] has taken off the queue is in none of the
    containers while [processQueueTx] submits it. An add that arrives
    meanwhile, for a session that neither this claim nor a tracked claim
    bears, leaves the tracked claims distinct when [processQueueTx]
    returns. The add is placed before the submission: to the containers
    it makes no difference at which [await] it arrives. *)
Lemma processQueueTx_add_while_submitting (r : nat)
    (replies : Z -> AttemptReply) (now : Z) (tgt : string) (amt : Z)
    (sessId : string) (m : Manager) :
  distinctAmong (r :: tracked m) m ->
  sessionTracked sessId m = false ->
  session <$> claims m !! r <> Some sessId ->
  trackedDistinct
    (final (processQueueTx cfg lib r replies
              (addClaimTransaction now tgt amt sessId m).1)).
Proof.
  intros Hm Hfresh Hr.
  set (m1 := (addClaimTransaction now tgt amt sessId m).1).
  pose proof (sessions_step (OpAdd now tgt amt sessId) m) as Hs1.
  pose proof (tracked_step (OpAdd now tgt amt sessId) m) as Ht1.
  cbn [step] in Hs1, Ht1. fold m1 in Hs1, Ht1.
  assert (H1 : distinctAmong (r :: tracked m1) m1).
  { apply (distinctAmong_add (r :: tracked m) _ m _ sessId); try done.
    - intros x Hx. apply elem_of_cons in Hx as [->|Hx].
      + left. apply elem_of_cons. by left.
      + destruct (Ht1 x Hx) as [?|?]; [|by right].
        left. apply elem_of_cons. by right.
    - intros x Hx. apply elem_of_cons in Hx as [->|Hx]; [done|].
      by apply sessionTracked_false. }
  unfold trackedDistinct.
  apply (distinctAmong_sub (r :: tracked m1) _ m1); [|  |done].
  - by rewrite !sessions_idents, idents_processQueueTx.
  - intros x Hx. apply processQueueTx_tracked in Hx as [->|Hx];
      apply elem_of_cons; [by left|by right].
Qed.

(** The manager the constructor makes of a store without duplicate
    session ids tracks the restored claims only, one for each session. *)
Lemma constructor_trackedDistinct (now : Z) (stored : list IQueuedClaimTx)
    (m0 : Manager) :
  constructor cfg now stored = Some m0 ->
  NoDup (q_session <$> stored) ->
  trackedDistinct m0.
Proof.
  intros Hc Hnd. unfold constructor in Hc.
  apply restoreQueue_sessions in Hc.
  assert (Hs : session <$> claims (startWeb3 cfg (initial stored)) = []).
  { unfold startWeb3, initWeb3Token. case_decide; [|done].
    by destruct (faucetCoinType cfg). }
  rewrite Hs in Hc. cbn [app] in Hc.
  apply trackedDistinct_spec. intros r1 r2 _ _ [c1 H1] Hsame.
  rewrite H1 in Hsame. cbn in Hsame.
  apply (NoDup_lookup _ r1 r2 (session c1) Hnd); rewrite <- Hc.
  - by rewrite list_lookup_fmap, H1.
  - by rewrite list_lookup_fmap, <- Hsame.
Qed.

(** C2 (as amended): [addClaimTransaction] does not look for an existing
    claim of the session, so the claim holds only of runs in which it is
    not called with the session id of a claim the manager still tracks:
    one in the queue, the pending map or the history map, or one whose
    receipt watcher has a callback left to run. From a manager whose
    tracked claims bear pairwise different session ids (as the
    constructor leaves it when the stored queue has no session id
    twice), after any such run of adds, ticks, receipt settlements,
    history insertions, evictions, wallet loads and reloads, at most one
    claim of each session id is reachable from the queue, the pending map
    and the history map. A session id may be used again once its claim
    has failed or has been evicted from the history map. A tick is one
    step of a run; for an add that arrives while a tick is submitting a
    claim, see [processQueueTx_add_while_submitting]. *)
Theorem run_oneClaimPerSession (ops : list Op) (m : Manager) :
  trackedDistinct m ->
  addsUntracked cfg lib walletAddr ops m = true ->
  oneClaimPerSession (run cfg lib walletAddr ops m).
Proof.
  intros Hm Hf.
  pose proof (trackedDistinct_run ops m Hm Hf) as H.
  rewrite trackedDistinct_spec in H.
  intros r1 r2 c1 c2 Hl1 Hl2 H1 H2 Hs.
  apply H; try by apply liveClaims_tracked.
  - by rewrite H1.
  - rewrite H1, H2. cbn. by rewrite Hs.
Qed.

End Properties.

(** ** The statements on the sample set-ups *)

(** An ERC-20 faucet whose wallet was loaded with no native coin: the
    native balance reads as [null], as it does before any load. *)
Lemma getFaucetBalance_zero_native :
  let m := loadWalletState Sample.erc20 (Sample.loaded 0 3 500) (initial []) in
  getFaucetBalance true m = None
  /\ getFaucetBalance true m = getFaucetBalance true (set_walletState None m).
Proof.
  apply (getFaucetBalance_zero true _ (mkWallet true 3 0 0)); reflexivity.
Defined.

(** A claim of 20000000 against a balance of 10000000 is refused and the
    wallet state stays as it was. *)
Lemma processQueueTx_refuses_unfunded :
  let m := Sample.dequeued Sample.native 10000000 5 0 20000000 in
  exists m' reason,
    processQueueTx Sample.native Sample.lib 0 (Sample.accepts "0xh1") m
    = Returned m'
    /\ claims m' !! 0%nat
       = (fun c => set_status FAILED (set_failReason (Some reason) c))
           <$> claims m !! 0%nat
    /\ walletState m' = walletState m.
Proof.
  destruct (processQueueTx_refuses Sample.native Sample.lib 0
              (Sample.accepts "0xh1")
              (Sample.dequeued Sample.native 10000000 5 0 20000000)
              (mkWallet true 5 10000000 10000000)
              (set_queueIdx (Some 1)
                 (newClaimTx 1700000000000 "0xAa" 20000000 "s1" None)))
    as (m' & reason & H1 & H2 & _ & _ & _ & H3 & _).
  - reflexivity.
  - reflexivity.
  - right; left. vm_compute. reflexivity.
  - exists m', reason. split; [exact H1|]. split; [exact H2|exact H3].
Defined.

(** The first pass is rejected, the reload finds nonce 7, the second pass
    is accepted: the wallet ends at nonce 8 with the amount deducted from
    both balances of the native faucet. *)
Lemma processQueueTx_submits_after_retry :
  let m := Sample.dequeued Sample.native 10000000 5 0 1000 in
  exists m' h,
    processQueueTx Sample.native Sample.lib 0 (Sample.retries "0xh1") m
    = Returned m'
    /\ walletState m' = Some (mkWallet true (7 + 1) (10000000 - 1000)
                                (10000000 - 1000))
    /\ pendingTxQueue m' !! Some h = Some 0%nat.
Proof.
  cbv zeta.
  pose (m := Sample.dequeued Sample.native 10000000 5 0 1000).
  pose (c := set_queueIdx (Some 1)
               (newClaimTx 1700000000000 "0xAa" 1000 "s1" None)).
  pose (m1 := (trySubmit Sample.native Sample.lib 0 (Sample.retries "0xh1" 1)
                 (failedPass Sample.native Sample.lib 0
                    (Sample.retries "0xh1" 0)
                    (claimEmit 0 "processing"
                       (updClaim 0 (set_status PROCESSING) m)))).1).
  destruct (processQueueTx_submits Sample.native Sample.lib 0
              (Sample.retries "0xh1") m m1
              (mkWallet true 5 10000000 10000000) c)
    as (m' & w1 & c1 & h & Hret & Hw1 & Hc1 & Hh & _ & _ & Hw' & Hp & _).
  - vm_compute; reflexivity.
  - vm_compute; reflexivity.
  - reflexivity.
  - vm_compute; reflexivity.
  - split; intros _; vm_compute; reflexivity.
  - vm_compute; reflexivity.
  - exists m', h. split; [exact Hret|]. split; [|exact Hp].
    assert (Hw1' : walletState m1 = Some (mkWallet true 7 10000000 10000000))
      by (vm_compute; reflexivity).
    rewrite Hw1' in Hw1. injection Hw1 as <-. exact Hw'.
Defined.




(** C4, what the code does: every submission of the claim fails, and the
    connection of the provider ends during the two-second sleep after the
    first attempt, so that [loadWalletState()], which is not [async],
    throws where it reads [this.web3.eth]. The exception leaves the retry
    loop for the outer [catch]: the claim is marked [FAILED] after one
    attempt, not four, and its reason is made from the [TypeError] of the
    reload, not from the exception the attempt raised. When the reloads
    return, the claim is failed after four attempts with a reason made
    from the exception of the first. *)
Theorem processQueueTx_reload_throws :
  let m := Sample.dequeued Sample.erc20 10000000 5 5000 1000 in
  let first := Sample.rejected "connection not open on send()" in
  (attemptError (Sample.disconnects 0) = Some first
   /\ attemptError (Sample.disconnects 1) = Some first
   /\ attemptError (Sample.disconnects 2) = Some first
   /\ attemptError (Sample.disconnects 3) = Some first)
  /\ (exists m' c',
        processQueueTx Sample.erc20 Sample.lib 0 Sample.disconnects m
        = Returned m'
        /\ claims m' !! 0%nat = Some c'
        /\ status c' = FAILED
        /\ failReason c'
           = Some ("Processing Exception: TypeError: "
                   +:+ "Cannot read properties of null (reading 'eth')")
        /\ failReason c'
           <> Some ("Processing Exception: " +:+ Js.errorToString first)
        /\ countEvents isSend m' = (1 + countEvents isSend m)%nat
        /\ countEvents (isSleep 2000) m'
           = (1 + countEvents (isSleep 2000) m)%nat
        /\ countEvents isLoad m' = countEvents isLoad m)
  /\ (exists m' c',
        processQueueTx Sample.erc20 Sample.lib 0 Sample.refuses m
        = Returned m'
        /\ claims m' !! 0%nat = Some c'
        /\ status c' = FAILED
        /\ failReason c'
           = Some ("Processing Exception: "
                   +:+ Js.errorToString
                         (Sample.rejected "nonce too low #0"))
        /\ countEvents isSend m' = (4 + countEvents isSend m)%nat
        /\ countEvents isLoad m' = (4 + countEvents isLoad m)%nat).
Proof.
  cbv zeta. split; [by vm_compute|]. split.
  - eexists _, _. split; [vm_compute; reflexivity|].
    split; [vm_compute; reflexivity|].
    split; [reflexivity|]. split; [vm_compute; reflexivity|].
    split; [by vm_compute|].
    split; [vm_compute; reflexivity|].
    split; vm_compute; reflexivity.
  - eexists _, _. split; [vm_compute; reflexivity|].
    split; [vm_compute; reflexivity|].
    split; [reflexivity|]. split; [vm_compute; reflexivity|].
    split; vm_compute; reflexivity.
Qed.

(** C2, the claim as stated fails: two calls of [addClaimTransaction] with
    the same session id leave two claims of that session in the queue. *)
Lemma run_sameSession_twice :
  let m := run Sample.native Sample.lib Sample.addr Sample.sameSession
             (startWeb3 Sample.native (initial [])) in
  claimTxQueue m = [0%nat; 1%nat]
  /\ session <$> claims m !! 0%nat = Some "s1"
  /\ session <$> claims m !! 1%nat = Some "s1"
  /\ ~ oneClaimPerSession m.
Proof.
  cbv zeta. split; [vm_compute; reflexivity|].
  split; [vm_compute; reflexivity|]. split; [vm_compute; reflexivity|].
  intros H.
  specialize (H 0%nat 1%nat
                (set_queueIdx (Some 1)
                   (newClaimTx 1700000000000 "0xAa" 1000 "s1" None))
                (set_queueIdx (Some 2)
                   (newClaimTx 1700000000500 "0xBb" 2000 "s1" None))).
  assert (Hl : liveClaims
                 (run Sample.native Sample.lib Sample.addr Sample.sameSession
                    (startWeb3 Sample.native (initial []))) = [0%nat; 1%nat])
    by (vm_compute; reflexivity).
  rewrite Hl in H.
  discriminate H; try reflexivity.
  - apply elem_of_cons. by left.
  - apply elem_of_cons. right. apply elem_of_cons. by left.
Qed.

(** The proviso of C2 covers the claims a watcher still holds: a session
    id used again between the first callback of the watcher of its claim,
    when that claim is in none of the containers, and the callback that
    enters the claim into the history map, ends up on a queued claim and
    on a claim of the history map. *)
Lemma run_sessionReturnsEarly :
  let m0 := startWeb3 Sample.native (initial []) in
  let m := run Sample.native Sample.lib Sample.addr
             Sample.sessionReturnsEarly m0 in
  addsUntracked Sample.native Sample.lib Sample.addr
    Sample.sessionReturnsEarly m0 = false
  /\ claimTxQueue m = [1%nat]
  /\ historyTxDict m !! Some 5 = Some 0%nat
  /\ session <$> claims m !! 0%nat = Some "s1"
  /\ session <$> claims m !! 1%nat = Some "s1".
Proof. cbv zeta. repeat split; vm_compute; reflexivity. Qed.

(** The same holds of the claim under submission: its session id, used
    for an add that arrives while [processQueueTx] is suspended, is
    tracked by nothing at that moment and ends up on a queued claim and on
    a pending one. *)
Lemma processQueueTx_sessionReturnsWhileSubmitting :
  let m := Sample.dequeued Sample.native 10000000 5 0 1000 in
  let m1 := (addClaimTransaction 1700000000500 "0xAa" 1500 "s1" m).1 in
  let m2 := final (processQueueTx Sample.native Sample.lib 0
                     (Sample.accepts "0xh1") m1) in
  sessionTracked "s1" m = false
  /\ claimTxQueue m2 = [1%nat]
  /\ pendingTxQueue m2 !! Some "0xh1" = Some 0%nat
  /\ session <$> claims m2 !! 0%nat = Some "s1"
  /\ session <$> claims m2 !! 1%nat = Some "s1".
Proof. cbv zeta. repeat split; vm_compute; reflexivity. Qed.

(** Two queued claims of two sessions go through a tick; the first is
    confirmed, recorded and evicted, and then its session id is used
    again: the new claim is the only one of its session that the
    containers hold. *)
Lemma run_oneClaimPerSession_sessionReturns :
  let m := run Sample.native Sample.lib Sample.addr Sample.sessionReturns
             Sample.twoQueued in
  tracked Sample.twoQueued = [0%nat; 1%nat]
  /\ session <$> claims m !! 0%nat = Some "s1"
  /\ session <$> claims m !! 2%nat = Some "s1"
  /\ liveClaims m = [2%nat; 1%nat]
  /\ oneClaimPerSession m.
Proof.
  cbv zeta. split; [vm_compute; reflexivity|].
  split; [vm_compute; reflexivity|].
  split; [vm_compute; reflexivity|]. split; [vm_compute; reflexivity|].
  apply (run_oneClaimPerSession Sample.native Sample.lib Sample.addr
           Sample.sessionReturns Sample.twoQueued).
  - apply (bool_decide_unpack _). vm_compute. exact I.
  - vm_compute; reflexivity.
Defined.

(** ** The further properties on the sample set-ups *)

(** A second claim for the session of a pending claim is the one the
    lookup returns from then on. *)
Lemma getClaimTransaction_add_again :
  let added :=
    addClaimTransaction 1700000003000 "0xAa" 1000 "s1" Sample.pendingOne in
  getClaimTransaction "s1" Sample.pendingOne = Some 0%nat
  /\ getClaimTransaction "s1" added.1 = Some 1%nat.
Proof.
  cbv zeta. split; [vm_compute; reflexivity|].
  apply (getClaimTransaction_add 1700000003000 "0xAa" 1000 "s1"
           Sample.pendingOne).
  vm_compute. apply Forall_nil_2.
Defined.

Lemma getClaimTransaction_shadowed_queued :
  let m := Sample.withClaim Sample.native 10000000 5 0 1000 in
  let added := addClaimTransaction 1700000003000 "0xCc" 70 "s1" m in
  getClaimTransaction "s1" added.1 = Some 0%nat
  /\ added.2 <> 0%nat
  /\ session <$> claims added.1 !! added.2 = Some "s1".
Proof.
  cbv zeta.
  apply (getClaimTransaction_shadowed 1700000003000 "0xCc" 70 "s1"
           (Sample.withClaim Sample.native 10000000 5 0 1000) 0%nat).
  - apply (bool_decide_unpack _). vm_compute. exact I.
  - apply (bool_decide_unpack _). vm_compute. exact I.
  - vm_compute. reflexivity.
Defined.

Lemma getClaimTransaction_run_pending :
  let m := run Sample.native Sample.lib Sample.addr Sample.twoSessions
             (startWeb3 Sample.native (initial [])) in
  getTransactionQueue false m = [1%nat]
  /\ getClaimTransaction "s2" m = Some 1%nat.
Proof.
  cbv zeta. split; [vm_compute; reflexivity|].
  apply (getClaimTransaction_run Sample.native Sample.lib Sample.addr
           Sample.twoSessions (startWeb3 Sample.native (initial [])) 1%nat
           {| queueIdx := Some 2; status := PENDING; time := 1700000000500;
              target := "0xBb"; amount := 2000; session := "s2";
              c_nonce := Some 6; txhex := Some "f86b6";
              txhash := Some "0xh2"; txblock := None; txfee := 0;
              retryCount := 0; failReason := None |}).
  - vm_compute. reflexivity.
  - vm_compute. reflexivity.
  - apply (bool_decide_unpack _). vm_compute. exact I.
  - vm_compute. reflexivity.
Defined.

(** Two polls are answered by nothing and by a connection error, the
    third by the receipt. *)
Lemma awaitTransactionReceipt_retries_third :
  let flaky := PollThrows
                 (Js.ErrorObj (Sample.rejected "CONNECTION ERROR: reset")) in
  let res := awaitTransactionReceipt
               ([PollNull; flaky] ++ PollReceipt Sample.receipt :: [PollNull])
               (Some "0xh1") Sample.pendingOne in
  res.2 = Some (Resolved Sample.receipt)
  /\ countEvents (isSleep 30000) res.1
     = (countEvents (isSleep 30000) Sample.pendingOne + 3)%nat
  /\ countEvents isPoll res.1
     = (countEvents isPoll Sample.pendingOne + 3)%nat.
Proof.
  cbv zeta.
  apply (awaitTransactionReceipt_retries
           [PollNull;
            PollThrows
              (Js.ErrorObj (Sample.rejected "CONNECTION ERROR: reset"))]
           [PollNull] (PollReceipt Sample.receipt) (Some "0xh1")
           Sample.pendingOne).
  - vm_compute. reflexivity.
  - reflexivity.
Defined.

(** A hundred seconds after a refill the cooldown of 3600 seconds holds
    the next one back. *)
Lemma tryRefillWallet_cooldown_running :
  let m := final (tryRefillWallet Sample.native Sample.lib Sample.addr
                    Sample.refillMined Sample.poor) in
  let later :=
    {| rf_now := 1700000100000; rf_unclaimed := 0;
       rf_vault := Sample.vaultOk; rf_now2 := 1700000101000;
       rf_receipt := Resolved Sample.receipt; rf_polls := [];
       rf_reload := Sample.loaded 4500 7 0 |} in
  getFaucetRefillCooldown Sample.native (rf_now later) m = 3501
  /\ tryRefillWallet Sample.native Sample.lib Sample.addr later m
     = Returned m.
Proof.
  cbv zeta. split; [vm_compute; reflexivity|].
  apply (tryRefillWallet_cooldown Sample.native Sample.lib Sample.addr
           {| rf_now := 1700000100000; rf_unclaimed := 0;
              rf_vault := Sample.vaultOk; rf_now2 := 1700000101000;
              rf_receipt := Resolved Sample.receipt; rf_polls := [];
              rf_reload := Sample.loaded 4500 7 0 |}
           (final (tryRefillWallet Sample.native Sample.lib Sample.addr
                     Sample.refillMined Sample.poor))).
  vm_compute. reflexivity.
Defined.

(** The vault refuses (no allowance); thirty seconds later the refill is
    not tried again. *)
Lemma tryRefillWallet_retry_window_30s :
  let m1 := final (tryRefillWallet Sample.native Sample.lib Sample.addr
                     Sample.noRefill Sample.poor) in
  let second :=
    {| rf_now := 1700000030000; rf_unclaimed := 0;
       rf_vault := Sample.vaultOk; rf_now2 := 1700000031000;
       rf_receipt := Resolved Sample.receipt; rf_polls := [];
       rf_reload := Sample.loaded 2500 6 0 |} in
  tryRefillWallet Sample.native Sample.lib Sample.addr second m1
  = Returned m1.
Proof.
  cbv zeta.
  apply (tryRefillWallet_retry_window Sample.native Sample.lib Sample.addr
           Sample.noRefill
           {| rf_now := 1700000030000; rf_unclaimed := 0;
              rf_vault := Sample.vaultOk; rf_now2 := 1700000031000;
              rf_receipt := Resolved Sample.receipt; rf_polls := [];
              rf_reload := Sample.loaded 2500 6 0 |}
           Sample.poor Sample.vault).
  - reflexivity.
  - vm_compute. reflexivity.
  - vm_compute. discriminate.
  - vm_compute. reflexivity.
Defined.

(** The refill is selected and the vault grants no allowance. *)
Lemma tryRefillWallet_failure_no_allowance :
  exists evs,
    tryRefillWallet Sample.native Sample.lib Sample.addr Sample.noRefill
      Sample.poor
    = Returned
        (logged (set_lastWalletRefillTry (Some 1700000000) Sample.poor)
           (evs ++ [EvLog LogWarning])).
Proof.
  apply (tryRefillWallet_failure Sample.native Sample.lib Sample.addr
           Sample.noRefill Sample.poor Sample.vault
           (mkWallet true 5 500 500) "refill"
           (Js.ThrownStr "no withdrawable funds from refill contract")).
  - reflexivity.
  - vm_compute. reflexivity.
  - vm_compute. reflexivity.
  - vm_compute. reflexivity.
  - vm_compute. reflexivity.
Defined.

(** The receipt promise gives up, the second poll finds a receipt of
    status true: the guard stays set. *)
Lemma tryRefillWallet_guard_polled :
  let m' := final (tryRefillWallet Sample.native Sample.lib Sample.addr
                     Sample.refillUnmined Sample.poor) in
  lastWalletRefill m' = Some 1700000001 /\ walletRefilling m' = true.
Proof.
  cbv zeta.
  apply (tryRefillWallet_guard Sample.native Sample.lib Sample.addr
           Sample.refillUnmined Sample.poor Sample.vault
           (mkWallet true 5 500 500) "refill" "0xr1").
  - reflexivity.
  - vm_compute. reflexivity.
  - vm_compute. reflexivity.
  - vm_compute. reflexivity.
  - vm_compute. reflexivity.
Defined.

(** Request 2000, allowance 3000, contract balance 5000000000. *)
Lemma refillWallet_amount_request :
  refillWallet Sample.native Sample.lib Sample.addr Sample.vault
    Sample.vaultOk Sample.poor
  = vaultTx Sample.native Sample.lib Sample.vault 0
      (Some (encodeABI Sample.lib "withdraw" [ArgAmount 2000]))
      Sample.vaultOk
      (logged Sample.poor [EvCall "getAllowance"; EvCall "getBalance"]).
Proof.
  apply (refillWallet_amount Sample.native Sample.lib Sample.addr
           Sample.vault Sample.vaultOk Sample.poor 3000 5000000000).
  - reflexivity.
  - reflexivity.
  - reflexivity.
  - discriminate.
  - reflexivity.
  - vm_compute. reflexivity.
Defined.

(** No allowance at one vault, no balance at the other. *)
Lemma refillWallet_refuses_both :
  refillWallet Sample.native Sample.lib Sample.addr Sample.vault
    Sample.noVault Sample.poor
  = (logged Sample.poor [EvCall "getAllowance"],
     inl (Js.ThrownStr "no withdrawable funds from refill contract"))
  /\ refillWallet Sample.native Sample.lib Sample.addr Sample.plainVault
       Sample.noVault Sample.poor
     = (logged Sample.poor [EvCall "getBalance"],
        inl (Js.ThrownStr "refill contract is out of funds")).
Proof.
  split.
  - apply (proj1 (refillWallet_refuses Sample.native Sample.lib Sample.addr
                    Sample.vault Sample.noVault Sample.poor));
      reflexivity.
  - apply (proj2 (refillWallet_refuses Sample.native Sample.lib Sample.addr
                    Sample.plainVault Sample.noVault Sample.poor) 0);
      [reflexivity|reflexivity|reflexivity|vm_compute; discriminate].
Defined.

(** An ERC-20 faucet with [ethQueueNoFunds] holding 50 tokens and a
    queued claim of 1000: the tick leaves the claim queued. *)
Lemma processQueue_waits_for_funds :
  let m := Sample.withClaim Sample.erc20 10000000 5 50 1000 in
  let m' := processQueue Sample.erc20 Sample.lib Sample.addr Sample.tick m in
  claims m' = claims m
  /\ claimTxQueue m' = [0%nat]
  /\ status <$> claims m' !! 0%nat = Some QUEUE.
Proof.
  cbv zeta.
  destruct (processQueue_waits Sample.erc20 Sample.lib Sample.addr
              Sample.tick (Sample.withClaim Sample.erc20 10000000 5 50 1000))
    as (Hc & Hq & _).
  - right. split; [reflexivity|].
    exists (mkWallet true 5 50 10000000), 0%nat, [].
    split; [vm_compute; reflexivity|].
    split; vm_compute; reflexivity.
  - split; [exact Hc|]. split; [rewrite Hq; vm_compute; reflexivity|].
    rewrite Hc. vm_compute. reflexivity.
Defined.

(** With [ethMaxPending = 2] and two queued claims the loop stops on an
    empty queue, the pending map full. *)
Lemma drainQueue_stops_full :
  let m' := final (default (Returned Sample.twoQueued)
                     (drainQueue Sample.native Sample.lib 2
                        (tk_claims Sample.tick) 0 Sample.twoQueued)) in
  (claimTxQueue m' = []
   \/ ethMaxPending Sample.native <= Z.of_nat (size (pendingTxQueue m'))
   \/ (ethQueueNoFunds Sample.native = true
       /\ exists w r rest,
            walletState m' = Some w
            /\ claimTxQueue m' = r :: rest
            /\ cannotPay Sample.native w (amountOf m' r) = true))
  /\ claimTxQueue m' = []
  /\ size (pendingTxQueue m') = 2%nat.
Proof.
  cbv zeta. split; [|split; vm_compute; reflexivity].
  apply (drainQueue_stops Sample.native Sample.lib 2 (tk_claims Sample.tick)
           0 Sample.twoQueued).
  vm_compute. reflexivity.
Defined.

(** A store of two entries, then a third claim added and a tick. *)
Lemma run_queueNumbered_restored :
  let stored := [mkQueued 1700000000000 "0xAa" "1000" "s1";
                 mkQueued 1700000000500 "0xBb" "2000" "s2"] in
  let m0 := default (initial [])
              (constructor Sample.native 1700000009000 stored) in
  queueNumbered
    (run Sample.native Sample.lib Sample.addr
       [OpLoad (Sample.loaded 10000000 5 0);
        OpAdd 1700000010000 "0xCc" 3000 "s3";
        OpTick Sample.tick] m0).
Proof.
  cbv zeta.
  apply (run_queueNumbered Sample.native Sample.lib Sample.addr
           1700000009000
           [mkQueued 1700000000000 "0xAa" "1000" "s1";
            mkQueued 1700000000500 "0xBb" "2000" "s2"]).
  vm_compute. reflexivity.
Defined.

(** Two claims are added; the manager built on the store they left has
    them queued again. *)
Lemma constructor_after_twoAdds :
  let m := run Sample.native Sample.lib Sample.addr Sample.twoAdds
             (startWeb3 Sample.native (initial [])) in
  exists m',
    constructor Sample.native 1700000009000 (queueStore m) = Some m'
    /\ claims m' = claims m
    /\ claimTxQueue m' = claimTxQueue m
    /\ lastClaimTxIdx m' = lastClaimTxIdx m.
Proof.
  cbv zeta.
  apply (constructor_after_adds Sample.native Sample.lib Sample.addr
           Sample.twoAdds 1700000009000).
  reflexivity.
Defined.

(** The node rejects all four passes: the claim is failed and its entry
    is still in the store. *)
Lemma processQueueTx_failed_stays_stored_refused :
  let m := Sample.dequeued Sample.erc20 10000000 5 5000 1000 in
  let m' := final (processQueueTx Sample.erc20 Sample.lib 0 Sample.refuses
                     m) in
  status <$> claims m' !! 0%nat = Some FAILED
  /\ queueStore m' = [mkQueued 1700000000000 "0xAa" "1000" "s1"]
  /\ pendingTxQueue m' = ∅.
Proof.
  cbv zeta. split; [vm_compute; reflexivity|].
  destruct (processQueueTx_failed_stays_stored Sample.erc20 Sample.lib 0
              Sample.refuses
              (Sample.dequeued Sample.erc20 10000000 5 5000 1000)
              (mkWallet true 5 5000 10000000)
              (set_queueIdx (Some 1)
                 (newClaimTx 1700000000000 "0xAa" 1000 "s1" None))
              (default
                 (newClaimTx 0 "" 0 "" None)
                 (claims
                    (final (processQueueTx Sample.erc20 Sample.lib 0
                              Sample.refuses
                              (Sample.dequeued Sample.erc20 10000000 5 5000
                                 1000))) !! 0%nat)))
    as [Hs Hp].
  - vm_compute. reflexivity.
  - vm_compute. reflexivity.
  - reflexivity.
  - vm_compute. reflexivity.
  - vm_compute. reflexivity.
  - vm_compute. reflexivity.
  - split; [rewrite Hs|rewrite Hp]; vm_compute; reflexivity.
Defined.

(** The node is out of reach when the wallet is loaded. *)
Lemma processQueueTx_after_failed_load_offline :
  let m := Sample.dequeued Sample.native 10000000 5 0 1000 in
  let m1 := loadWalletState Sample.native Sample.unreachable m in
  walletState m1 = Some (mkWallet false 0 0 0)
  /\ exists m',
       processQueueTx Sample.native Sample.lib 0 (Sample.accepts "0xh1") m1
       = Returned m'
       /\ failReason <$> claims m' !! 0%nat
          = Some (Some "Network RPC is currently unreachable.").
Proof.
  cbv zeta.
  destruct (processQueueTx_after_failed_load Sample.native Sample.lib
              Sample.unreachable 0 (Sample.accepts "0xh1")
              (Sample.dequeued Sample.native 10000000 5 0 1000)
              (set_queueIdx (Some 1)
                 (newClaimTx 1700000000000 "0xAa" 1000 "s1" None))
              (Js.ErrorObj (Sample.rejected "CONNECTION ERROR: timeout")))
    as (Hw & _ & m' & Hret & Hc & _).
  - reflexivity.
  - vm_compute. reflexivity.
  - split; [exact Hw|]. exists m'. split; [exact Hret|].
    rewrite Hc. reflexivity.
Defined.

(** A second claim of 2000 joins one of 1000. *)
Lemma getQueuedAmount_add_second :
  getQueuedAmount Sample.twoQueued
  = getQueuedAmount (Sample.withClaim Sample.native 10000000 5 0 1000) + 2000.
Proof.
  apply (getQueuedAmount_add 1700000000500 "0xBb" 2000 "s2"
           (Sample.withClaim Sample.native 10000000 5 0 1000)).
  apply (bool_decide_unpack _). vm_compute. exact I.
Defined.

(** The two queued claims are submitted at nonces 5 and 6. *)
Lemma processQueueTx_consecutive_nonces_5_6 :
  let m := set_claimTxQueue [] Sample.twoQueued in
  let m2 :=
    final (processQueueTx Sample.native Sample.lib 1 (Sample.accepts "0xh2")
             (final (processQueueTx Sample.native Sample.lib 0
                       (Sample.accepts "0xh1") m))) in
  c_nonce <$> claims m2 !! 0%nat = Some (Some 5)
  /\ c_nonce <$> claims m2 !! 1%nat = Some (Some (5 + 1))
  /\ nonce <$> walletState m2 = Some (5 + 2).
Proof.
  cbv zeta.
  apply (processQueueTx_consecutive_nonces Sample.native Sample.lib 0 1
           (Sample.accepts "0xh1") (Sample.accepts "0xh2")
           (set_claimTxQueue [] Sample.twoQueued)
           (mkWallet true 5 10000000 10000000)
           (set_queueIdx (Some 1)
              (newClaimTx 1700000000000 "0xAa" 1000 "s1" None))
           (set_queueIdx (Some 2)
              (newClaimTx 1700000000500 "0xBb" 2000 "s2" None))
           "0xh1" "0xh2").
  - vm_compute. reflexivity.
  - reflexivity.
  - discriminate.
  - vm_compute. reflexivity.
  - vm_compute. reflexivity.
  - reflexivity.
  - reflexivity.
  - reflexivity.
  - reflexivity.
  - vm_compute. reflexivity.
  - vm_compute. reflexivity.
Defined.

(** The excess goes to a vault without deposit function. *)
Lemma overflowWallet_transfer_plain :
  exists tx m' evs,
    overflowWallet Sample.native Sample.lib Sample.addr Sample.vault 4000
      Sample.vaultOk Sample.poor = (m', inr "0xr1")
    /\ tx_value tx = 4000
    /\ tx_data tx = "0x"
    /\ tx_nonce tx = 5
    /\ tx_gasLimit tx = 100000
    /\ (Js.is_prefix "0X" "0xVault" = false -> tx_to tx = "0xVault")
    /\ events m'
       = events Sample.poor
         ++ evs ++ [EvSign tx; EvSend ("0x" +:+ signTx Sample.lib tx)]
    /\ walletState m' = Some (mkWallet true (5 + 1) 500 500).
Proof.
  apply (overflowWallet_transfer Sample.native Sample.lib Sample.addr
           Sample.vault 4000 Sample.vaultOk Sample.poor
           (mkWallet true 5 500 500) 5 "0xr1").
  - vm_compute. reflexivity.
  - reflexivity.
  - reflexivity.
  - reflexivity.
Defined.


(** Two claims paid out by a native faucet, one confirmed. *)
Lemma run_nativeBalanced_twoSessions :
  let m := run Sample.native Sample.lib Sample.addr Sample.twoSessions
             (startWeb3 Sample.native (initial [])) in
  getFaucetBalance false m = getFaucetBalance true m
  /\ getFaucetBalance true m = Some (10000000 - 1000 - 2000 - 3 * 21000).
Proof.
  cbv zeta. split; [|vm_compute; reflexivity].
  apply (run_nativeBalanced Sample.native Sample.lib Sample.addr
           1700000000000 [] Sample.twoSessions
           (startWeb3 Sample.native (initial []))).
  - reflexivity.
  - reflexivity.
Defined.

(** A legacy build at node price 9 with priority fee 2 and cap 10. *)
Lemma buildEthTx_fee_capped :
  let m := startWeb3 Sample.erc20 (initial []) in
  exists tx,
    (buildEthTx Sample.erc20 Sample.lib "0xAa" 1000 5 None None
       (BuildGasPrice 9) m).2
    = inr (signTx Sample.lib tx)
    /\ tx_fee tx = LegacyFee 10
    /\ events (buildEthTx Sample.erc20 Sample.lib "0xAa" 1000 5 None None
                 (BuildGasPrice 9) m).1
       = events m ++ [EvCall "getGasPrice"; EvSign tx].
Proof.
  cbv zeta.
  destruct (buildEthTx_fee Sample.erc20 Sample.lib "0xAa" 1000 5 None None 9
              (startWeb3 Sample.erc20 (initial [])))
    as (tx & Hs & He & Hf).
  - intros _. vm_compute. split; [|split]; discriminate.
  - exists tx. split; [exact Hs|]. split; [exact Hf|exact He].
Defined.
